(** * Retrieval pipeline of the RAG PDF query service

    A shallow embedding of [app/pdf_ingestor.py], [app/vector_store.py],
    [app/query_handler.py] and the query endpoint of [app/main.py], and the
    properties of the chunker, the similarity index, the ingestion pipeline
    and the query pipeline established on it.

    Conventions.
    - A Python [str] is a [string]; a character stands for a code point
      below 256, so [isspace] and [lower] are the Latin-1 restrictions of
      the Python methods.
    - Python [int]s read from the configuration are [Z]; counters that the
      code only increments from 0 are [nat].
    - A [float] is a rational: every finite float is one, and comparison
      agrees.  The arithmetic of the external libraries is not modelled:
      [cosine_similarity] is a parameter.
    - External collaborators (embedding and generation provider, PDF text
      extraction, [json.loads]) are parameters; a provider may answer
      differently on each call, so it reads the history of earlier events. *)

From Stdlib Require Import ZArith QArith Lqa Ascii String List Lia.
From Stdlib Require Import Sorting.Sorted Sorting.Permutation.
From stdpp Require Import base gmap sets list strings sorting pretty.

Local Open Scope Z_scope.
Set Warnings "-register-all,-clear-no-such-hyp".

(** ** Python string primitives *)

Module Py.

(** [str.isspace] on one character. *)
Definition isspace (c : ascii) : bool :=
  let n := N_of_ascii c in
  (((9 <=? n) && (n <=? 13)) || ((28 <=? n) && (n <=? 32))
   || (n =? 133) || (n =? 160))%N.

Definition nonempty (s : string) : bool :=
  match s with EmptyString => false | String _ _ => true end.

Definition len (s : string) : Z := Z.of_nat (String.length s).

Fixpoint lstrip (s : string) : string :=
  match s with
  | EmptyString => EmptyString
  | String c s' => if isspace c then lstrip s' else s
  end.

Fixpoint rstrip (s : string) : string :=
  match s with
  | EmptyString => EmptyString
  | String c s' =>
      match rstrip s' with
      | EmptyString => if isspace c then EmptyString else String c EmptyString
      | r => String c r
      end
  end.

(** [s.strip()] *)
Definition strip (s : string) : string := rstrip (lstrip s).

Fixpoint take (n : nat) (s : string) : string :=
  match n, s with
  | S n', String c s' => String c (take n' s')
  | _, _ => EmptyString
  end.

Fixpoint drop (n : nat) (s : string) : string :=
  match n, s with
  | S n', String _ s' => drop n' s'
  | _, _ => s
  end.

(** The position a slice bound [i] denotes in a sequence of [n] items:
    negative bounds count from the end, and the result is clamped. *)
Definition slice_index (n : nat) (i : Z) : nat :=
  if i <? 0 then Z.to_nat (Z.max 0 (Z.of_nat n + i))
  else Z.to_nat (Z.min i (Z.of_nat n)).

(** [s[start:]] *)
Definition slice_from (s : string) (start : Z) : string :=
  drop (slice_index (String.length s) start) s.

(** [s[:stop]] *)
Definition slice_to (s : string) (stop : Z) : string :=
  take (slice_index (String.length s) stop) s.

(** [l[:stop]] on a list. *)
Definition list_slice_to {A} (l : list A) (stop : Z) : list A :=
  firstn (slice_index (length l) stop) l.

(** [s.split(sep)] for a non-empty [sep]: [split_go] returns the piece
    in progress and the pieces after it; [skip] counts the characters
    of a separator still to be passed over. *)
Fixpoint split_go (sep : string) (skip : nat) (s : string)
  : string * list string :=
  match s with
  | EmptyString => (EmptyString, [])
  | String c s' =>
      match skip with
      | S k => split_go sep k s'
      | O =>
          if String.prefix sep s then
            let '(h, t) := split_go sep (String.length sep - 1) s' in
            (EmptyString, h :: t)
          else
            let '(h, t) := split_go sep 0 s' in
            (String c h, t)
      end
  end.

Definition split (s sep : string) : list string :=
  let '(h, t) := split_go sep 0 s in h :: t.

(** [s.rfind(sub)]: the highest index where [sub] starts, or -1. *)
Fixpoint rfind_from (sub : string) (i : Z) (s : string) : Z :=
  match s with
  | EmptyString => if String.prefix sub EmptyString then i else -1
  | String _ s' =>
      let r := rfind_from sub (i + 1) s' in
      if 0 <=? r then r else if String.prefix sub s then i else -1
  end.

Definition rfind (s sub : string) : Z := rfind_from sub 0 s.

(** [sub in s] *)
Fixpoint contains (sub s : string) : bool :=
  String.prefix sub s
  || match s with
     | EmptyString => false
     | String _ s' => contains sub s'
     end.

Definition lower_char (c : ascii) : ascii :=
  let n := N_of_ascii c in
  if (((65 <=? n) && (n <=? 90))
      || ((192 <=? n) && (n <=? 222) && negb (n =? 215)))%N
  then ascii_of_N (n + 32) else c.

(** [s.lower()] *)
Fixpoint lower (s : string) : string :=
  match s with
  | EmptyString => EmptyString
  | String c s' => String (lower_char c) (lower s')
  end.

(** [s.lstrip(c)] for one character [c]. *)
Fixpoint lstrip_char (c : ascii) (s : string) : string :=
  match s with
  | EmptyString => EmptyString
  | String c' s' => if Ascii.eqb c' c then lstrip_char c s' else s
  end.

(** [s.endswith(suffix)] *)
Definition endswith (s suffix : string) : bool :=
  (String.length suffix <=? String.length s)%nat
  && String.eqb (drop (String.length s - String.length suffix) s) suffix.

(** [any(word in s for word in words)] *)
Definition any_in (words : list string) (s : string) : bool :=
  existsb (fun word => contains word s) words.

End Py.

(** ** The chunker ([PDFIngestor.create_chunks]) *)

Module Chunker.

(** One entry of the list [create_chunks] returns. *)
Record chunk_data := {
  text : string;
  page : Z;
  chunk_index : nat
}.

(** The variables of the loop in [create_chunks]. *)
Record loop_state := {
  chunks : list chunk_data;
  current_chunk : string;
  next_index : nat
}.

Section WithConfig.
Variable chunk_size : Z.
Variable chunk_overlap : Z.

Definition get_overlap_text (text : string) : string :=
  if Py.len text <=? chunk_overlap then text
  else
    let overlap_text := Py.slice_from text (- chunk_overlap) in
    let last_period := Py.rfind overlap_text ". " in
    let overlap_text :=
      if 0 <? last_period
      then Py.slice_from overlap_text (last_period + 2)
      else overlap_text in
    Py.strip overlap_text.

Definition join_sentence (prefix sentence : string) : string :=
  if Py.nonempty prefix then prefix +:+ ". " +:+ sentence else sentence.

(** One iteration of [for sentence in sentences]. *)
Definition chunk_step (page_num : Z) (st : loop_state) (sentence : string)
  : loop_state :=
  let sentence := Py.strip sentence in
  if negb (Py.nonempty sentence) then st
  else
    let potential_chunk := join_sentence (current_chunk st) sentence in
    if (chunk_size <? Py.len potential_chunk)
       && Py.nonempty (current_chunk st)
    then
      {| chunks := chunks st ++
                   [{| text := Py.strip (current_chunk st);
                       page := page_num;
                       chunk_index := next_index st |}];
         current_chunk :=
           join_sentence (get_overlap_text (current_chunk st)) sentence;
         next_index := S (next_index st) |}
    else
      {| chunks := chunks st;
         current_chunk := potential_chunk;
         next_index := next_index st |}.

Definition create_chunks (text : string) (page_num : Z)
  : list chunk_data :=
  let text := Py.strip text in
  if negb (Py.nonempty text) then []
  else
    let sentences := Py.split text ". " in
    let st := fold_left (chunk_step page_num) sentences
                {| chunks := []; current_chunk := EmptyString;
                   next_index := 0 |} in
    if Py.nonempty (Py.strip (current_chunk st))
    then chunks st ++
         [{| text := Py.strip (current_chunk st);
             page := page_num;
             chunk_index := next_index st |}]
    else chunks st.

(** The sentences the loop works on: the stripped, non-empty pieces. *)
Definition sentences_of (text : string) : list string :=
  filter (fun s => Py.nonempty s = true)
         (map Py.strip (Py.split (Py.strip text) ". ")).

End WithConfig.

End Chunker.

(** ** Values, effects and external collaborators *)

(** What [json.loads] returns. A Python [dict] keeps its keys in insertion
    order; looking a key up finds its only entry. *)
Inductive json :=
| JNull
| JBool (b : bool)
| JInt (z : Z)
| JFloat (q : Q)
| JStr (s : string)
| JArr (items : list json)
| JObj (fields : list (string * json)).

Module Dict.
Definition dict := list (string * json).

(** [d.get(key)] *)
Fixpoint get (key : string) (d : dict) : option json :=
  match d with
  | [] => None
  | (k, v) :: d' => if String.eqb k key then Some v else get key d'
  end.

(** [key in d] *)
Definition mem (key : string) (d : dict) : bool :=
  match get key d with Some _ => true | None => false end.

(** [d[key] = v] *)
Fixpoint set (key : string) (v : json) (d : dict) : dict :=
  match d with
  | [] => [(key, v)]
  | (k, v') :: d' =>
      if String.eqb k key then (k, v) :: d' else (k, v') :: set key v d'
  end.
End Dict.

(** A stored chunk-metadata record ([doc_data] in [add_documents]). *)
Record document := {
  content : string;
  source : string;
  page : Z;
  chunk_id : string;
  chunk_index : nat
}.

(** A metadata dictionary handed to [add_documents]; [chunk_index] is read
    with [doc.get("chunk_index", 0)]. *)
Record chunk_meta := {
  meta_content : string;
  meta_source : string;
  meta_page : Z;
  meta_chunk_id : string;
  meta_chunk_index : option nat
}.

(** One entry of the list [search] returns. [distance] is [1 - similarity],
    here without the rounding of the float subtraction. *)
Record search_result := {
  res_content : string;
  res_source : string;
  res_page : Z;
  res_chunk_id : string;
  similarity : Q;
  distance : Q
}.

Inductive exn :=
| ProviderError
| OSError
| ExtractionError
| ValueError
| JSONDecodeError
| RecursionError
| ValidationError
| HTTPException (status_code : Z).

(** What the process does to the outside world. *)
Inductive event :=
| EmbedContent (content : string)
| GenerateContent (prompt : string)
| SaveData (embeddings : list (list Q)) (documents : list document).

(** The [VectorStore] object and the history of events. *)
Record world := {
  embeddings : list (list Q);
  documents : list document;
  events : list event
}.

(** A computation changes the world and returns or raises; what it did
    before raising stays done. *)
Definition M (A : Type) : Type := world -> (exn + A) * world.

Definition ret {A} (a : A) : M A := fun w => (inr a, w).
Definition raise {A} (e : exn) : M A := fun w => (inl e, w).
Definition bind {A B} (c : M A) (k : A -> M B) : M B :=
  fun w =>
    match c w with
    | (inr a, w') => k a w'
    | (inl e, w') => (inl e, w')
    end.

(** [try: body except Exception as e: handler e]: every exception of this
    model, [HTTPException] included, is an [Exception]. *)
Definition try_except {A} (body : M A) (handler : exn -> M A) : M A :=
  fun w =>
    match body w with
    | (inr a, w') => (inr a, w')
    | (inl e, w') => handler e w'
    end.

Notation "'let!' x ':=' c 'in' k" := (bind c (fun x => k))
  (at level 10, x name, c at level 100, k at level 200).

(** [try: body except (E1, E2): handler]: only the exceptions [catches]
    accepts are handled, the others propagate. *)
Definition try_except_when {A} (catches : exn -> bool) (body : M A)
    (handler : exn -> M A) : M A :=
  fun w =>
    match body w with
    | (inr a, w') => (inr a, w')
    | (inl e, w') => if catches e then handler e w' else (inl e, w')
    end.

(** [for x in l: body x] *)
Fixpoint for_each {A} (l : list A) (body : A -> M unit) : M unit :=
  match l with
  | [] => ret tt
  | x :: l' => let! _ := body x in for_each l' body
  end.

Definition log_event (e : event) : M unit :=
  fun w => (inr tt, {| embeddings := embeddings w;
                       documents := documents w;
                       events := events w ++ [e] |}).

(** The text of a generation response; reading [.text] raises
    [ValueError] when the provider returned no text part. *)
Record response := { response_text : option string }.

(** Configuration and external collaborators. *)
Class Env := {
  CHUNK_SIZE : Z;
  CHUNK_OVERLAP : Z;
  TOP_K_RESULTS : Z;
  (** [genai.embed_content(...)['embedding']], [None] when it raises *)
  embed_content : list event -> string -> option (list Q);
  (** one row of [sklearn]'s [cosine_similarity] *)
  cosine_similarity : list Q -> list Q -> Q;
  (** [np.argsort] on a vector of floats *)
  argsort : list Q -> list nat;
  (** [os.listdir(pdfs_folder)] *)
  listdir : list event -> option (list string);
  (** the page texts [fitz] extracts from a file of the folder *)
  pdf_pages : string -> option (list string);
  (** [model.generate_content(prompt)] *)
  generate_content : list event -> string -> option response;
  (** [json.loads]: the value, or the exception raised, which is
      [JSONDecodeError] for a text that is not JSON and can be another
      one ([RecursionError] for a text nested too deeply) *)
  json_loads : string -> exn + json;
  (** [json.dumps] *)
  json_dumps : json -> string;
  (** the two prompt templates *)
  parse_prompt : string -> string;
  decision_prompt : string -> string -> list search_result -> string;
  (** [re.search] of the rupee-amount pattern; the rupee sign is outside
      the characters modelled *)
  amount_search : string -> option string
}.

(** [a[i]] for an index in range. *)
Definition value_at (a : list Q) (i : nat) : Q := nth i a 0%Q.

(** What [np.argsort] promises: the indices of the vector, in ascending
    order of their values. The order of equal values is not promised. *)
Definition argsort_contract (sort : list Q -> list nat) : Prop :=
  forall a : list Q,
    Permutation (sort a) (seq 0 (length a))
    /\ Sorted (fun i j => (value_at a i <= value_at a j)%Q) (sort a).

(** An ascending argsort by insertion that keeps equal values in index
    order. It is one sort that meets [argsort_contract], so the contract
    can be met, and it serves in the concrete runs; the order in which
    [np.argsort] itself lists equal values is not known from the code. *)
Fixpoint insert_index (key : nat -> Q) (i : nat) (l : list nat) : list nat :=
  match l with
  | [] => [i]
  | j :: l' =>
      if Qle_bool (key i) (key j) then i :: l else j :: insert_index key i l'
  end.

Definition argsort_stable (a : list Q) : list nat :=
  foldr (insert_index (value_at a)) [] (seq 0 (length a)).

(** ** The similarity index ([VectorStore]) *)

Module VectorStore.
Section WithEnv.
Context `{Env}.

Definition _save_data : M unit :=
  fun w => log_event (SaveData (embeddings w) (documents w)) w.

Definition _get_embedding (text : string) : M (list Q) :=
  fun w =>
    let answer := embed_content (events w) text in
    match log_event (EmbedContent text) w with
    | (_, w') =>
        match answer with
        | Some v => (inr v, w')
        | None => (inl ProviderError, w')
        end
    end.

Definition append_entry (v : list Q) (d : document) : M unit :=
  fun w => (inr tt, {| embeddings := embeddings w ++ [v];
                       documents := documents w ++ [d];
                       events := events w |}).

Definition add_documents (docs : list chunk_meta) : M unit :=
  match docs with
  | [] => ret tt
  | _ =>
      let! _ := for_each docs (fun doc =>
        let! embedding := _get_embedding (meta_content doc) in
        append_entry embedding
          {| content := meta_content doc;
             source := meta_source doc;
             page := meta_page doc;
             chunk_id := meta_chunk_id doc;
             chunk_index := default 0%nat (meta_chunk_index doc) |}) in
      _save_data
  end.

(** [np.vstack] and [cosine_similarity] raise [ValueError] unless
    every stored vector has the dimension of the query vector and
    that dimension is positive. *)
Definition shapes_agree (query_vector : list Q) (vs : list (list Q))
  : bool :=
  (0 <? length query_vector)%nat
  && forallb (fun v => (length v =? length query_vector)%nat) vs.

(** [np.argsort(similarities)[::-1][:top_k]] *)
Definition top_indices (similarities : list Q) (top_k : Z) : list nat :=
  Py.list_slice_to (rev (argsort similarities)) top_k.

Definition format_results (docs : list document) (similarities : list Q)
    (indices : list nat) : list search_result :=
  flat_map (fun idx =>
    match docs !! idx, similarities !! idx with
    | Some doc, Some s =>
        [{| res_content := content doc;
            res_source := source doc;
            res_page := page doc;
            res_chunk_id := chunk_id doc;
            similarity := s;
            distance := (1 - s)%Q |}]
    | _, _ => []
    end) indices.

Definition search (query : string) (top_k : option Z)
  : M (list search_result) :=
  fun w =>
    match embeddings w with
    | [] => (inr [], w)
    | _ =>
        let top_k := default TOP_K_RESULTS top_k in
        (let! query_embedding := _get_embedding query in
         if shapes_agree query_embedding (embeddings w) then
           let similarities :=
             map (cosine_similarity query_embedding) (embeddings w) in
           ret (format_results (documents w) similarities
                  (top_indices similarities top_k))
         else raise ValueError) w
    end.

Definition is_document_processed (w : world) (filename : string) : bool :=
  existsb (fun doc => String.eqb (source doc) filename) (documents w).

Definition unique_sources (w : world) : gset string :=
  fold_left (fun acc doc => acc ∪ {[ source doc ]}) (documents w) ∅.

Definition get_stats (w : world) : nat * nat :=
  (length (documents w), size (unique_sources w)).

(** [sorted(list(unique_sources))] *)
Definition list_documents (w : world) : list string :=
  merge_sort String.le (elements (unique_sources w)).

Definition close : M unit := _save_data.

End WithEnv.
End VectorStore.

(** ** The ingestion pipeline ([PDFIngestor]) *)

Module Ingestor.
Section WithEnv.
Context `{Env}.

(** [os.path.splitext(filename)[0]] for a name without a directory
    part: cut at the last dot unless only dots come before it. *)
Definition splitext_root (filename : string) : string :=
  let dot_index := Py.rfind filename "." in
  if (0 <=? dot_index)
     && Py.nonempty
          (Py.lstrip_char "."%char (Py.slice_to filename dot_index))
  then Py.slice_to filename dot_index
  else filename.

Definition generate_chunk_id (filename : string) (page : Z)
    (chunk_index : nat) : string :=
  splitext_root filename +:+ "-p" +:+ pretty page
    +:+ "-c" +:+ pretty chunk_index.

(** [extract_text_from_pdf]: page [i] of the file is numbered
    [i + 1]. *)
Definition extract_text_from_pdf (filename : string)
  : M (list Chunker.chunk_data) :=
  match pdf_pages filename with
  | None => raise ExtractionError
  | Some pages =>
      ret (concat (imap (fun page_num text =>
             if negb (Py.nonempty (Py.strip text)) then []
             else Chunker.create_chunks CHUNK_SIZE CHUNK_OVERLAP text
                    (Z.of_nat page_num + 1)) pages))
  end.

(** [process_pdf(os.path.join(pdfs_folder, filename))]; the base name
    of that path is [filename] again. *)
Definition process_pdf (filename : string) : M unit :=
  let! text_chunks := extract_text_from_pdf filename in
  match text_chunks with
  | [] => ret tt
  | _ =>
      VectorStore.add_documents
        (map (fun chunk_data =>
           {| meta_content := Chunker.text chunk_data;
              meta_source := filename;
              meta_page := Chunker.page chunk_data;
              meta_chunk_id :=
                generate_chunk_id filename (Chunker.page chunk_data)
                  (Chunker.chunk_index chunk_data);
              meta_chunk_index := Some (Chunker.chunk_index chunk_data) |})
           text_chunks)
  end.

Definition is_pdf (f : string) : bool := Py.endswith (Py.lower f) ".pdf".

Definition process_one (pdf_file : string) : M unit :=
  try_except
    (fun w =>
       if VectorStore.is_document_processed w pdf_file then ret tt w
       else process_pdf pdf_file w)
    (fun _ => ret tt).

Definition process_pdfs_folder : M unit :=
  fun w =>
    match listdir (events w) with
    | None => raise OSError w
    | Some names =>
        match List.filter is_pdf names with
        | [] => ret tt w
        | pdf_files => for_each pdf_files process_one w
        end
    end.

End WithEnv.
End Ingestor.

(** ** Regular-expression steps of the response clean-up *)

Module Re.

(** [re.sub(r'```json\s*', '', s)]: [skip] counts the characters of a
    fence still to drop, [ws] says that white space after a fence is
    being dropped. *)
Fixpoint sub_json_fence_go (skip : nat) (ws : bool) (s : string) : string :=
  match s with
  | EmptyString => EmptyString
  | String c s' =>
      match skip with
      | S k => sub_json_fence_go k true s'
      | O =>
          if ws && Py.isspace c then sub_json_fence_go 0 true s'
          else if String.prefix "```json" s then sub_json_fence_go 6 true s'
          else String c (sub_json_fence_go 0 false s')
      end
  end.

Definition sub_json_fence (s : string) : string :=
  sub_json_fence_go 0 false s.

Fixpoint all_space (s : string) : bool :=
  match s with
  | EmptyString => true
  | String c s' => Py.isspace c && all_space s'
  end.

(** [re.sub(r'```\s*$', '', s)]: the text is cut at the first fence
    that only white space follows. *)
Fixpoint sub_trailing_fence (s : string) : string :=
  match s with
  | EmptyString => EmptyString
  | String c s' =>
      if String.prefix "```" s && all_space (Py.drop 3 s) then EmptyString
      else String c (sub_trailing_fence s')
  end.

(** The suffix of [s] that starts at the first [c]. *)
Fixpoint from_first (c : ascii) (s : string) : option string :=
  match s with
  | EmptyString => None
  | String c' s' => if Ascii.eqb c' c then Some s else from_first c s'
  end.

(** [re.search(r'\{.*\}', s, re.DOTALL)]: from the first opening brace
    to the last closing brace after it. *)
Definition search_object (s : string) : option string :=
  match from_first "{"%char s with
  | None => None
  | Some rest =>
      let last := Py.rfind rest "}" in
      if 0 <=? last then Some (Py.slice_to rest (last + 1)) else None
  end.

End Re.

(** ** The query pipeline ([QueryHandler]) *)

Module QueryHandler.
Section WithEnv.
Context `{Env}.

Definition call_model (prompt : string) : M response :=
  fun w =>
    let answer := generate_content (events w) prompt in
    match log_event (GenerateContent prompt) w with
    | (_, w') =>
        match answer with
        | Some r => (inr r, w')
        | None => (inl ProviderError, w')
        end
    end.

(** [response.text] *)
Definition read_text (r : response) : M string :=
  match response_text r with
  | Some t => ret t
  | None => raise ValueError
  end.

(** The clean-up both parsers apply before [json.loads]. *)
Definition clean_response (text : string) : string :=
  let response_text := Py.strip text in
  let response_text := Re.sub_json_fence response_text in
  let response_text := Re.sub_trailing_fence response_text in
  match Re.search_object response_text with
  | Some matched => matched
  | None => response_text
  end.

Definition loads (s : string) : M json :=
  match json_loads s with
  | inr j => ret j
  | inl e => raise e
  end.

Definition is_json_decode_error (e : exn) : bool :=
  match e with JSONDecodeError => true | _ => false end.

(** [JSONDecodeError] is a [ValueError]; [RecursionError] is not. *)
Definition is_value_error (e : exn) : bool :=
  match e with JSONDecodeError | ValueError => true | _ => false end.

Definition _parse_query (query : string) : M json :=
  try_except
    (let! response := call_model (parse_prompt query) in
     try_except_when is_json_decode_error
       (let! response_text := read_text response in
        loads (clean_response response_text))
       (fun _ =>
          (* the handler logs [response.text], which it reads again *)
          let! _ := read_text response in
          ret (JObj [])))
    (fun _ => ret (JObj [])).

Definition citation (clause text source : string) : json :=
  JObj [("clause", JStr clause); ("text", JStr text);
        ("source", JStr source)].

Definition citation_of (best_result : search_result) : json :=
  citation ("Page " +:+ pretty (res_page best_result))
           (Py.slice_to (res_content best_result) 200 +:+ "...")
           (res_source best_result).

Definition decision_dict (decision : string) (amount : json)
    (justification alternatives : list json) : json :=
  JObj [("decision", JStr decision); ("amount", amount);
        ("justification", JArr justification);
        ("alternatives", JArr alternatives)].

Definition is_list (v : option json) : bool :=
  match v with Some (JArr _) => true | _ => false end.

(** "Ensure required fields exist" *)
Definition ensure_fields (decision_result : Dict.dict)
    (search_results : list search_result) : Dict.dict :=
  let d := decision_result in
  let d :=
    if Dict.mem "decision" d then d
    else Dict.set "decision" (JStr "Uncertain") d in
  let d :=
    if negb (Dict.mem "justification" d)
       || negb (is_list (Dict.get "justification" d))
    then
      match search_results with
      | best_result :: _ =>
          Dict.set "justification" (JArr [citation_of best_result]) d
      | [] =>
          Dict.set "justification"
            (JArr [citation "N/A" "No relevant information found" "N/A"])
            d
      end
    else d in
  if Dict.mem "alternatives" d then d
  else Dict.set "alternatives" (JArr []) d.

(** "Simple keyword-based decision" *)
Definition keyword_decision (content_lower : string) : string :=
  if Py.any_in ["covered"; "approved"; "eligible"] content_lower then
    if Py.any_in ["waiting"; "period"; "days"] content_lower
    then "Uncertain"
    else "Approved"
  else if Py.any_in ["excluded"; "not covered"; "rejected"] content_lower
  then "Rejected"
  else "Uncertain".

Definition manual_decision (search_results : list search_result) : json :=
  match search_results with
  | best_result :: _ =>
      let content_lower := Py.lower (res_content best_result) in
      let decision := keyword_decision content_lower in
      let amount :=
        match amount_search (res_content best_result) with
        | Some a => JStr a
        | None => JNull
        end in
      decision_dict decision amount [citation_of best_result] []
  | [] =>
      decision_dict "Uncertain" JNull
        [citation "N/A"
           "Unable to process the policy documents properly." "N/A"] []
  end.

(** [str(e)] *)
Definition message (e : exn) : string :=
  match e with
  | ProviderError => "provider call failed"
  | OSError => "os error"
  | ExtractionError => "cannot open document"
  | ValueError => "value error"
  | JSONDecodeError => "Expecting value"
  | RecursionError => "maximum recursion depth exceeded"
  | ValidationError => "validation error"
  | HTTPException c => pretty c
  end.

Definition _make_decision (original_query : string)
    (structured_info : json) (search_results : list search_result)
  : M json :=
  try_except
    (let full_prompt :=
       decision_prompt original_query (json_dumps structured_info)
         search_results in
     let! response := call_model full_prompt in
     try_except_when is_value_error
       (let! response_text := read_text response in
        let! decision_result := loads (clean_response response_text) in
        match decision_result with
        | JObj d => ret (JObj (ensure_fields d search_results))
        | _ => raise ValueError
        end)
       (fun _ =>
          (* the handler logs [response.text], which it reads again *)
          let! _ := read_text response in
          ret (manual_decision search_results)))
    (fun e =>
       ret (decision_dict "Uncertain" JNull
              [citation "N/A" ("Processing error: " +:+ message e) "N/A"]
              [])).

Definition process_query (query : string) : M json :=
  try_except
    (let! structured_info := _parse_query query in
     let! search_results :=
       VectorStore.search query (Some TOP_K_RESULTS) in
     match search_results with
     | [] =>
         ret (decision_dict "Unknown" JNull
                [citation "N/A"
                   "No relevant clause found in provided documents."
                   "N/A"] [])
     | _ => _make_decision query structured_info search_results
     end)
    (fun e =>
       ret (decision_dict "Uncertain" JNull
              [citation "N/A"
                 ("Error processing query: " +:+ message e) "N/A"] [])).

(** The fields of a result dictionary. *)
Definition field (key : string) (result : json) : option json :=
  match result with
  | JObj d => Dict.get key d
  | _ => None
  end.

End WithEnv.
End QueryHandler.

(** ** The query endpoint ([POST /query] in [app/main.py]) *)

Module Api.

Record JustificationItem := {
  clause : string;
  text : string;
  source : string
}.

Record QueryResponse := {
  decision : string;
  amount : option string;
  justification : list JustificationItem;
  alternatives : list JustificationItem
}.

Definition as_str (v : option json) : option string :=
  match v with Some (JStr s) => Some s | _ => None end.

Definition validate_item (j : json) : option JustificationItem :=
  match j with
  | JObj d =>
      match as_str (Dict.get "clause" d), as_str (Dict.get "text" d),
            as_str (Dict.get "source" d) with
      | Some c, Some t, Some s =>
          Some {| clause := c; text := t; source := s |}
      | _, _, _ => None
      end
  | _ => None
  end.

Definition validate_items (v : json) : option (list JustificationItem) :=
  match v with
  | JArr items => mapM validate_item items
  | _ => None
  end.

(** Building a [QueryResponse] from the keys of [result]:
    [decision] and [justification] are
    required, [amount] may be absent or [None], [alternatives] defaults
    to the empty list; a string field takes a string only. *)
Definition validate_response (result : json) : option QueryResponse :=
  match result with
  | JObj d =>
      match as_str (Dict.get "decision" d),
            match Dict.get "amount" d with
            | None | Some JNull => Some None
            | Some (JStr a) => Some (Some a)
            | Some _ => None
            end,
            match Dict.get "justification" d with
            | Some v => validate_items v
            | None => None
            end,
            match Dict.get "alternatives" d with
            | Some v => validate_items v
            | None => Some []
            end with
      | Some dec, Some amt, Some just, Some alts =>
          Some {| decision := dec; amount := amt;
                  justification := just; alternatives := alts |}
      | _, _, _, _ => None
      end
  | _ => None
  end.

Section WithEnv.
Context `{Env}.

(** [query_handler] tells whether the global handler was set up. *)
Definition process_query (query_handler : bool) (query : string)
  : M QueryResponse :=
  try_except
    (if negb query_handler then raise (HTTPException 503)
     else if negb (Py.nonempty (Py.strip query))
     then raise (HTTPException 400)
     else
       let! result := QueryHandler.process_query query in
       match validate_response result with
       | Some r => ret r
       | None => raise ValidationError
       end)
    (fun _ => raise (HTTPException 500)).

End WithEnv.

(** The status of the HTTP response the framework sends. *)
Definition status_code {A} (outcome : exn + A) : Z :=
  match outcome with
  | inr _ => 200
  | inl (HTTPException c) => c
  | inl _ => 500
  end.

End Api.

(** ** A concrete environment, for running the model *)

Module Demo.

Definition quote : string := String "034"%char EmptyString.

Definition inner (a b : list Q) : Q :=
  fold_right Qplus 0%Q (zip_with Qmult a b).

Definition embed (text : string) : list Q :=
  [inject_Z (Py.len text); 1%Q].

Definition policy_text : string :=
  "Knee surgery is covered up to 250000. Waiting period is 90 days.".

(** The provider answers [reply]; [json.loads] accepts [accepted] only
    and returns [parsed] for it. *)
Definition env_with (reply : option string) (accepted : string)
    (parsed : json) : Env := {|
  CHUNK_SIZE := 1000;
  CHUNK_OVERLAP := 200;
  TOP_K_RESULTS := 5;
  embed_content := fun _ text => Some (embed text);
  cosine_similarity := inner;
  argsort := argsort_stable;
  listdir := fun _ => Some ["policy.pdf"; "notes.txt"];
  pdf_pages := fun f =>
    if String.eqb f "policy.pdf" then Some [policy_text] else None;
  generate_content := fun _ _ => Some {| response_text := reply |};
  json_loads := fun s =>
    if String.eqb s accepted then inr parsed else inl JSONDecodeError;
  json_dumps := fun _ => "{}";
  parse_prompt := fun q => "Query: " +:+ q;
  decision_prompt := fun q info _ => "Query: " +:+ q +:+ " Info: " +:+ info;
  amount_search := fun _ => None
|}.

Definition quoted (s : string) : string := quote +:+ s +:+ quote.

(** The model output [{"decision": "Approved", "justification": []}]
    and what [json.loads] makes of it. *)
Definition reply_no_citation : string :=
  "{" +:+ quoted "decision" +:+ ": " +:+ quoted "Approved" +:+ ", "
      +:+ quoted "justification" +:+ ": []}".

Definition parsed_no_citation : json :=
  JObj [("decision", JStr "Approved"); ("justification", JArr [])].

Definition env_no_citation : Env :=
  env_with (Some reply_no_citation) reply_no_citation parsed_no_citation.

(** The model output [{"justification": [{"text": "see policy"}]}]:
    a citation without [clause] and [source]. *)
Definition reply_bad_citation : string :=
  "{" +:+ quoted "justification" +:+ ": [{" +:+ quoted "text" +:+ ": "
      +:+ quoted "see policy" +:+ "}]}".

Definition parsed_bad_citation : json :=
  JObj [("justification", JArr [JObj [("text", JStr "see policy")]])].

Definition env_bad_citation : Env :=
  env_with (Some reply_bad_citation) reply_bad_citation parsed_bad_citation.

(** The model output [{"decision": "Approved", "justification": "page 3"}]:
    a justification that is not a list. *)
Definition reply_text_citation : string :=
  "{" +:+ quoted "decision" +:+ ": " +:+ quoted "Approved" +:+ ", "
      +:+ quoted "justification" +:+ ": " +:+ quoted "page 3" +:+ "}".

Definition parsed_text_citation : json :=
  JObj [("decision", JStr "Approved"); ("justification", JStr "page 3")].

Definition env_text_citation : Env :=
  env_with (Some reply_text_citation) reply_text_citation
    parsed_text_citation.

(** A provider that answers with prose, never with JSON. *)
Definition env : Env := env_with (Some "I cannot tell.") "{}" (JObj []).

Definition empty_world : world :=
  {| embeddings := []; documents := []; events := [] |}.

Definition doc (src text : string) (i : nat) : document :=
  {| content := text; source := src; page := 1;
     chunk_id := src +:+ "-c" +:+ pretty i; chunk_index := i |}.

(** An index of three chunks; the first two have the same vector. *)
Definition world3 : world :=
  {| embeddings := [[1; 0]; [1; 0]; [0; 1]]%Q;
     documents := [doc "b.pdf" "first" 0; doc "a.pdf" "second" 0;
                   doc "b.pdf" "third" 1];
     events := [] |}.

(** Search results whose top entry names an exclusion and a cover. *)
Definition result_of (text : string) : search_result :=
  {| res_content := text; res_source := "policy.pdf"; res_page := 3;
     res_chunk_id := "policy-p3-c0"; similarity := 1; distance := 0 |}.

Definition mixed_results : list search_result :=
  [result_of "Cosmetic surgery is excluded. Knee surgery is covered."].

Definition excluded_results : list search_result :=
  [result_of "Cosmetic surgery is excluded."].

(** The index after one run of the ingestion over the demo folder. *)
Definition ingested : world :=
  snd (@Ingestor.process_pdfs_folder env empty_world).

End Demo.

(** ** Statements about the chunker *)

Section ChunkerStatements.
Variables chunk_size chunk_overlap : Z.




End ChunkerStatements.

(** ** Statements about the similarity index *)

(** An index state of vectors of one dimension [dim], paired one to one
    with the stored chunks. *)
Definition well_formed (dim : nat) (w : world) : Prop :=
  length (embeddings w) = length (documents w)
  /\ (0 < dim)%nat
  /\ Forall (fun v => length v = dim) (embeddings w).

(** [r] is what [search] makes of the stored entry at index [i] for the
    query vector [qv]: the fields of the record at [i], the cosine of
    [qv] with the vector at [i], and one minus it. *)
Definition entry_of `{Env} (w : world) (qv : list Q) (i : nat)
    (r : search_result) : Prop :=
  exists doc u,
    documents w !! i = Some doc /\ embeddings w !! i = Some u
    /\ r = {| res_content := content doc;
              res_source := source doc;
              res_page := page doc;
              res_chunk_id := chunk_id doc;
              similarity := cosine_similarity qv u;
              distance := (1 - cosine_similarity qv u)%Q |}.

(** Ascending order of the values [a] holds at the indices, and the same
    with ties broken: equal values in index order. *)
Definition ascending (a : list Q) (i j : nat) : Prop :=
  (value_at a i <= value_at a j)%Q.

Definition ascending_stable (a : list Q) (i j : nat) : Prop :=
  (value_at a i < value_at a j)%Q
  \/ ((value_at a i == value_at a j)%Q /\ (i < j)%nat).

(** Results in order of non-increasing similarity. *)
Definition by_similarity (r1 r2 : search_result) : Prop :=
  (similarity r2 <= similarity r1)%Q.

(** The tie rule as the specification words it: of two ranked entries
    with equal similarity, the one inserted earlier comes first. *)
Definition ties_by_insertion (a : list Q) (ranking : list nat) : Prop :=
  forall (p q i j : nat),
    (p < q)%nat -> ranking !! p = Some i -> ranking !! q = Some j ->
    (value_at a i == value_at a j)%Q -> (i < j)%nat.

(** ** Statements about the query pipeline *)

(** The decision of a result is one of the three values of the
    instruction contract. *)
Definition is_enum_decision (result : json) : Prop :=
  QueryHandler.field "decision" result = Some (JStr "Approved")
  \/ QueryHandler.field "decision" result = Some (JStr "Rejected")
  \/ QueryHandler.field "decision" result = Some (JStr "Uncertain").

(** The justification of a result is a non-empty list. *)
Definition has_citation (result : json) : Prop :=
  exists c cs, QueryHandler.field "justification" result = Some (JArr (c :: cs)).

(** What the answer of the generation provider to [prompt], asked after
    [history], parses to: nothing when the call fails, when the answer
    has no text, or when [json.loads] raises on the cleaned text. *)
Definition parsed_answer `{Env} (history : list event) (prompt : string)
  : option json :=
  match generate_content history prompt with
  | Some {| response_text := Some text |} =>
      match json_loads (QueryHandler.clean_response text) with
      | inr j => Some j
      | inl _ => None
      end
  | _ => None
  end.

(** The stages of one run of [process_query] on [query] from [w]: what
    [_parse_query] returned, what [search] did after it, and what the
    generation output for the decision prompt parses to. *)
Section Run.
Context `{Env}.
Variables (query : string) (w : world).

Definition structured_info : json :=
  match fst (QueryHandler._parse_query query w) with
  | inr info => info
  | inl _ => JObj []
  end.

Definition searched : (exn + list search_result) * world :=
  VectorStore.search query (Some TOP_K_RESULTS)
    (snd (QueryHandler._parse_query query w)).

Definition decision_answer (search_results : list search_result)
  : option json :=
  parsed_answer (events (snd searched))
    (decision_prompt query (json_dumps structured_info) search_results).

End Run.

(** ** Further statements about the similarity index *)

(** The record [add_documents] stores for a metadata dictionary. *)
Definition stored (doc : chunk_meta) : document :=
  {| content := meta_content doc;
     source := meta_source doc;
     page := meta_page doc;
     chunk_id := meta_chunk_id doc;
     chunk_index := default 0%nat (meta_chunk_index doc) |}.

(** The embedding requests a batch makes, one per chunk, in order. *)
Definition embed_events (docs : list chunk_meta) : list event :=
  map (fun doc => EmbedContent (meta_content doc)) docs.

Definition is_save (e : event) : bool :=
  match e with SaveData _ _ => true | _ => false end.

(** The provider answers every embedding request. *)
Definition provider_answers `{Env} : Prop :=
  forall history text, embed_content history text <> None.

(** One vector per stored chunk. *)
Definition paired (w : world) : Prop :=
  length (embeddings w) = length (documents w).

(** [w'] extends the index of [w]: what was stored is still there, in
    place, and entries were only added at the end. *)
Definition extends (w w' : world) : Prop :=
  exists vs ds,
    embeddings w' = embeddings w ++ vs
    /\ documents w' = documents w ++ ds
    /\ length vs = length ds.

(** ** More concrete environments *)

Module Demo2.

(** An embedding provider that answers the first request of a process and
    fails from then on. *)
Definition env_flaky : Env := {|
  CHUNK_SIZE := 1000;
  CHUNK_OVERLAP := 200;
  TOP_K_RESULTS := 5;
  embed_content := fun history text =>
    match history with [] => Some (Demo.embed text) | _ => None end;
  cosine_similarity := Demo.inner;
  argsort := argsort_stable;
  listdir := fun _ => Some ["policy.pdf"; "notes.txt"];
  pdf_pages := fun f =>
    if String.eqb f "policy.pdf" then Some [Demo.policy_text] else None;
  generate_content := fun _ _ => Some {| response_text := Some "I cannot tell." |};
  json_loads := fun _ => inl JSONDecodeError;
  json_dumps := fun _ => "{}";
  parse_prompt := fun q => "Query: " +:+ q;
  decision_prompt := fun q info _ => "Query: " +:+ q +:+ " Info: " +:+ info;
  amount_search := fun _ => None
|}.

(** A parser that gives up on every text with [RecursionError], as
    [json.loads] does on a text nested too deeply. *)
Definition env_deep : Env := {|
  CHUNK_SIZE := 1000;
  CHUNK_OVERLAP := 200;
  TOP_K_RESULTS := 5;
  embed_content := fun _ text => Some (Demo.embed text);
  cosine_similarity := Demo.inner;
  argsort := argsort_stable;
  listdir := fun _ => Some ["policy.pdf"; "notes.txt"];
  pdf_pages := fun f =>
    if String.eqb f "policy.pdf" then Some [Demo.policy_text] else None;
  generate_content := fun _ _ => Some {| response_text := Some "[[[[" |};
  json_loads := fun _ => inl RecursionError;
  json_dumps := fun _ => "{}";
  parse_prompt := fun q => "Query: " +:+ q;
  decision_prompt := fun q info _ => "Query: " +:+ q +:+ " Info: " +:+ info;
  amount_search := fun _ => None
|}.

(** A generation provider whose answers have no text part. *)
Definition env_no_text : Env := Demo.env_with None "{}" (JObj []).

(** The model output [{"decision": "Uncertain", "justification": [],
    "alternatives": [{"source": "policy.pdf", "clause": "Page 1",
    "text": "Is the insured under 60?"}]}]. *)
Definition reply_follow_up : string :=
  "{" +:+ Demo.quoted "decision" +:+ ": " +:+ Demo.quoted "Uncertain"
      +:+ ", " +:+ Demo.quoted "justification" +:+ ": [], "
      +:+ Demo.quoted "alternatives" +:+ ": [{"
      +:+ Demo.quoted "source" +:+ ": " +:+ Demo.quoted "policy.pdf" +:+ ", "
      +:+ Demo.quoted "clause" +:+ ": " +:+ Demo.quoted "Page 1" +:+ ", "
      +:+ Demo.quoted "text" +:+ ": "
      +:+ Demo.quoted "Is the insured under 60?" +:+ "}]}".

Definition parsed_follow_up : json :=
  JObj [("decision", JStr "Uncertain"); ("justification", JArr []);
        ("alternatives",
         JArr [JObj [("source", JStr "policy.pdf");
                     ("clause", JStr "Page 1");
                     ("text", JStr "Is the insured under 60?")]])].

Definition env_follow_up : Env :=
  Demo.env_with (Some reply_follow_up) reply_follow_up parsed_follow_up.

Definition meta (src text : string) (i : nat) : chunk_meta :=
  {| meta_content := text; meta_source := src; meta_page := 1;
     meta_chunk_id := src +:+ "-p1-c" +:+ pretty i;
     meta_chunk_index := Some i |}.

Definition batch : list chunk_meta :=
  [meta "c.pdf" "alpha" 0; meta "c.pdf" "beta" 1].

End Demo2.

(** ** Further statements about the ingestion pipeline *)

(** [w'] extends the index of [w] by entries whose sources satisfy [P]. *)
Definition grows_by (P : string -> Prop) (w w' : world) : Prop :=
  exists vs ds,
    embeddings w' = embeddings w ++ vs
    /\ documents w' = documents w ++ ds
    /\ length vs = length ds
    /\ Forall (fun d => P (source d)) ds.

(** The chunks [extract_text_from_pdf] makes of the pages of a file. *)
Definition page_chunks `{Env} (pages : list string)
  : list Chunker.chunk_data :=
  concat (imap (fun page_num text =>
            if negb (Py.nonempty (Py.strip text)) then []
            else Chunker.create_chunks CHUNK_SIZE CHUNK_OVERLAP text
                   (Z.of_nat page_num + 1)) pages).

(** The metadata [process_pdf] attaches to a chunk of [filename]. *)
Definition metadata_of `{Env} (filename : string)
    (chunk_data : Chunker.chunk_data) : chunk_meta :=
  {| meta_content := Chunker.text chunk_data;
     meta_source := filename;
     meta_page := Chunker.page chunk_data;
     meta_chunk_id :=
       Ingestor.generate_chunk_id filename (Chunker.page chunk_data)
         (Chunker.chunk_index chunk_data);
     meta_chunk_index := Some (Chunker.chunk_index chunk_data) |}.

(** A file from which nothing can be ingested: it cannot be opened, or
    its pages give no chunk. *)
Definition barren `{Env} (filename : string) : Prop :=
  match pdf_pages filename with
  | None => True
  | Some pages => page_chunks pages = []
  end.

(** ** Further statements about the query pipeline *)

(** From [w] to [w'] the index was left alone and nothing was saved: the
    only events are calls to the providers. *)
Definition only_calls (w w' : world) : Prop :=
  embeddings w' = embeddings w
  /\ documents w' = documents w
  /\ exists new, events w' = events w ++ new /\ existsb is_save new = false.

(** ** The other endpoints of [app/main.py] *)

Module Endpoints.

Record StatusResponse := {
  status : string;
  documents_count : nat;
  chunks_count : nat
}.

(** [GET /status]; [vector_store] tells whether the global store was set
    up. *)
Definition get_status (vector_store : bool) : M StatusResponse :=
  try_except
    (if negb vector_store then raise (HTTPException 503)
     else
       fun w =>
         let stats := VectorStore.get_stats w in
         ret {| status := "healthy";
                documents_count := snd stats;
                chunks_count := fst stats |} w)
    (fun _ => raise (HTTPException 500)).

(** [GET /documents] *)
Definition list_documents (vector_store : bool) : M (list string) :=
  try_except
    (if negb vector_store then raise (HTTPException 503)
     else fun w => ret (VectorStore.list_documents w) w)
    (fun _ => raise (HTTPException 500)).

(** [POST /ingest]: the ingestion is added to the background tasks, which
    run after the response is sent; the call itself only answers. *)
Definition trigger_ingestion `{Env} (pdf_ingestor : bool)
    (background_tasks : list (M unit)) : M (string * list (M unit)) :=
  try_except
    (if negb pdf_ingestor then raise (HTTPException 503)
     else ret ("PDF ingestion started in background",
               background_tasks ++ [Ingestor.process_pdfs_folder]))
    (fun _ => raise (HTTPException 500)).

End Endpoints.

(** ** Further statements about the chunker *)

(** [sep.join(l)] *)
Fixpoint str_join (sep : string) (l : list string) : string :=
  match l with
  | [] => EmptyString
  | s :: l' =>
      match l' with
      | [] => s
      | _ => s +:+ sep +:+ str_join sep l'
      end
  end.

Definition first_char (s : string) : option ascii :=
  match s with
  | EmptyString => None
  | String c _ => Some c
  end.

Fixpoint last_char (s : string) : option ascii :=
  match s with
  | EmptyString => None
  | String c s' =>
      match s' with
      | EmptyString => Some c
      | _ => last_char s'
      end
  end.

(** A character that is there and is not white space. *)
Definition solid (c : option ascii) : bool :=
  match c with
  | Some c => negb (Py.isspace c)
  | None => false
  end.

(** A non-empty text with no white space at either end. *)
Definition trimmed (s : string) : bool :=
  solid (first_char s) && solid (last_char s).

Definition is_suffix (t s : string) : Prop := exists pre, s = pre +:+ t.
Definition is_prefix (t s : string) : Prop := exists post, s = t +:+ post.

(** Two chunk texts share [ov]: the first ends with it, the second starts
    with it. *)
Definition overlap_of (chunk_overlap : Z) (t1 t2 : string) : Prop :=
  exists ov,
    Py.nonempty ov = true /\ Py.len ov <= chunk_overlap
    /\ is_suffix ov t1 /\ is_prefix ov t2.

(** What the loop of [create_chunks] keeps true: the chunks are numbered
    from 0 in order, carry the page number, and are trimmed, and so is the
    text in progress unless it is empty. *)
Definition loop_shape (page_num : Z) (st : Chunker.loop_state) : Prop :=
  map Chunker.chunk_index (Chunker.chunks st)
  = seq 0 (Chunker.next_index st)
  /\ Forall (fun c => Chunker.page c = page_num
                      /\ trimmed (Chunker.text c) = true)
       (Chunker.chunks st)
  /\ (Chunker.current_chunk st = EmptyString
      \/ trimmed (Chunker.current_chunk st) = true).

(** The sentence [s] is in a chunk made so far or in the text in
    progress. *)
Definition covered (s : string) (st : Chunker.loop_state) : Prop :=
  (exists c, In c (Chunker.chunks st)
             /\ Py.contains s (Chunker.text c) = true)
  \/ Py.contains s (Chunker.current_chunk st) = true.

(** Each chunk of the list starts with an overlap taken from the end of
    the chunk before it. *)
Definition linked (chunk_overlap : Z) (l : list Chunker.chunk_data) : Prop :=
  forall (i : nat) (c1 c2 : Chunker.chunk_data),
    l !! i = Some c1 -> l !! S i = Some c2 ->
    overlap_of chunk_overlap (Chunker.text c1) (Chunker.text c2).

(** The chunks made so far are linked, and the text in progress starts
    with an overlap taken from the last of them. *)
Definition overlap_inv (chunk_overlap : Z) (st : Chunker.loop_state)
  : Prop :=
  linked chunk_overlap (Chunker.chunks st)
  /\ forall c, last (Chunker.chunks st) = Some c ->
       overlap_of chunk_overlap (Chunker.text c) (Chunker.current_chunk st).

(** [c in s] for one character. *)
Fixpoint has_char (c : ascii) (s : string) : bool :=
  match s with
  | EmptyString => false
  | String x s' => Ascii.eqb x c || has_char c s'
  end.

Example split_ex :
  Py.split "ab. cd. . e. " ". " = ["ab"; "cd"; ""; "e"; ""].
Proof. reflexivity. Qed.

Example rfind_ex : Py.rfind "a. b. c" ". " = 4 /\ Py.rfind "abc" ". " = -1.
Proof. split; reflexivity. Qed.

Example chunks_ex :
  map Chunker.text (Chunker.create_chunks 10 5 "aaaaaaaa. bbbbbbbb" 1)
  = ["aaaaaaaa"; "aaaaa. bbbbbbbb"].
Proof. vm_compute. reflexivity. Qed.

Example ingest_ex :
  map source (documents Demo.ingested) = ["policy.pdf"]
  /\ map chunk_id (documents Demo.ingested) = ["policy-p1-c0"]
  /\ length (events Demo.ingested) = 2%nat.
Proof. vm_compute. auto. Qed.

Example search_ex :
  map res_content
    (match @VectorStore.search Demo.env "abc" (Some 2) Demo.world3 with
     | (inr r, _) => r | _ => [] end) = ["second"; "first"].
Proof. vm_compute. reflexivity. Qed.

Example clean_ex :
  @QueryHandler.clean_response "```json
{a}
```" = "{a}"
  /\ @QueryHandler.clean_response "see {a} and {b} ok" = "{a} and {b}".
Proof. vm_compute. auto. Qed.

(** * Properties *)

(** ** Lengths of the string primitives *)

Section StringLengths.

Lemma length_append (s1 s2 : string) :
  String.length (s1 +:+ s2) = (String.length s1 + String.length s2)%nat.
Proof. induction s1 as [|c s1 IH]; simpl; [reflexivity | now rewrite IH]. Qed.

Lemma length_lstrip (s : string) :
  (String.length (Py.lstrip s) <= String.length s)%nat.
Proof.
  induction s as [|c s IH]; simpl; [lia|].
  destruct (Py.isspace c); simpl; lia.
Qed.

Lemma length_rstrip (s : string) :
  (String.length (Py.rstrip s) <= String.length s)%nat.
Proof.
  induction s as [|c s IH]; simpl; [lia|].
  destruct (Py.rstrip s) as [|c' r]; simpl in *.
  - destruct (Py.isspace c); simpl; lia.
  - lia.
Qed.

Lemma len_strip (s : string) : Py.len (Py.strip s) <= Py.len s.
Proof.
  unfold Py.len, Py.strip.
  pose proof (length_rstrip (Py.lstrip s)); pose proof (length_lstrip s).
  lia.
Qed.

Lemma length_drop (n : nat) (s : string) :
  String.length (Py.drop n s) = (String.length s - n)%nat.
Proof.
  revert s; induction n as [|n IH]; intros [|c s]; simpl; auto.
Qed.

Lemma len_slice_from (s : string) (start : Z) :
  Py.len (Py.slice_from s start) <= Py.len s.
Proof. unfold Py.len, Py.slice_from. rewrite length_drop. lia. Qed.

Lemma len_nonempty (s : string) : Py.nonempty s = false -> s = EmptyString.
Proof. destruct s; simpl; congruence. Qed.

End StringLengths.

(** ** The chunker *)

Section ChunkerBound.
Variables chunk_size chunk_overlap : Z.
Hypothesis overlap_pos : 0 < chunk_overlap.

Lemma len_get_overlap_text (t : string) :
  Py.len (Chunker.get_overlap_text chunk_overlap t) <= chunk_overlap.
Proof.
  unfold Chunker.get_overlap_text.
  destruct (Z.leb_spec (Py.len t) chunk_overlap) as [Hle|Hgt]; [exact Hle|].
  etransitivity; [apply len_strip|].
  assert (Hcut : Py.len (Py.slice_from t (- chunk_overlap)) <= chunk_overlap).
  { unfold Py.len, Py.slice_from, Py.slice_index in *.
    rewrite length_drop.
    destruct (Z.ltb_spec (- chunk_overlap) 0); lia. }
  destruct (0 <? _); [|exact Hcut].
  etransitivity; [apply len_slice_from | exact Hcut].
Qed.





Lemma sentences_of_complete (t p : string) :
  In p (Py.split (Py.strip t) ". ") ->
  Py.nonempty (Py.strip p) = true ->
  In (Py.strip p) (Chunker.sentences_of t).
Proof.
  intros Hp Hne. unfold Chunker.sentences_of.
  apply list_elem_of_In, list_elem_of_filter. split; [exact Hne|].
  apply list_elem_of_In, in_map, Hp.
Qed.

End ChunkerBound.




(** ** The similarity index: adding nothing, listing sources *)

(** C10. [add_documents] with an empty sequence returns at once: the
    embeddings and the documents are unchanged, and no event happened, so
    the persistence files were not written (and no embedding requested). *)
Theorem add_documents_empty_noop `{Env} (w : world) :
  VectorStore.add_documents [] w = (inr tt, w)
  /\ embeddings (snd (VectorStore.add_documents [] w)) = embeddings w
  /\ documents (snd (VectorStore.add_documents [] w)) = documents w
  /\ events (snd (VectorStore.add_documents [] w)) = events w.
Proof. simpl. unfold ret. simpl. auto. Qed.

Lemma unique_sources_eq (w : world) :
  VectorStore.unique_sources w = list_to_set (map source (documents w)).
Proof.
  unfold VectorStore.unique_sources.
  assert (Hgen : forall docs (acc : gset string),
            fold_left (fun acc doc => acc ∪ {[ source doc ]}) docs acc
            = acc ∪ list_to_set (map source docs)).
  { induction docs as [|d docs IH]; intros acc; simpl.
    - set_solver.
    - rewrite IH. set_solver. }
  rewrite Hgen. set_solver.
Qed.

(** C9. [list_documents] is sorted in the lexicographic order of strings,
    has no duplicates, holds exactly the sources of the stored chunks, and
    does not depend on the order in which the chunks were inserted. *)
Theorem list_documents_sorted_distinct (w : world) :
  StronglySorted String.le (VectorStore.list_documents w)
  /\ NoDup (VectorStore.list_documents w)
  /\ (forall s, In s (VectorStore.list_documents w)
                <-> exists d, In d (documents w) /\ source d = s)
  /\ (forall w', Permutation (documents w') (documents w) ->
                 VectorStore.list_documents w' = VectorStore.list_documents w).
Proof.
  unfold VectorStore.list_documents. repeat split.
  - apply StronglySorted_merge_sort; apply _.
  - rewrite merge_sort_Permutation. apply NoDup_elements.
  - intros Hs. apply list_elem_of_In in Hs.
    rewrite merge_sort_Permutation in Hs.
    apply elem_of_elements in Hs. rewrite unique_sources_eq in Hs.
    apply elem_of_list_to_set, list_elem_of_In, in_map_iff in Hs.
    destruct Hs as (d & Hd & Hin). eauto.
  - intros (d & Hin & Hd). apply list_elem_of_In.
    rewrite merge_sort_Permutation.
    apply elem_of_elements. rewrite unique_sources_eq.
    apply elem_of_list_to_set, list_elem_of_In, in_map_iff. eauto.
  - intros w' Hperm. rewrite !unique_sources_eq.
    assert (Heq : (list_to_set (map source (documents w')) : gset string)
                  = list_to_set (map source (documents w))).
    { apply list_to_set_perm_L. now apply Permutation_map. }
    now rewrite Heq.
Qed.

Lemma list_documents_sorted_distinct_witness :
  VectorStore.list_documents Demo.world3 = ["a.pdf"; "b.pdf"]
  /\ VectorStore.list_documents
       {| embeddings := embeddings Demo.world3;
          documents := rev (documents Demo.world3);
          events := [] |}
     = VectorStore.list_documents Demo.world3.
Proof.
  split; [vm_compute; reflexivity|].
  destruct (list_documents_sorted_distinct Demo.world3) as (_ & _ & _ & Hperm).
  apply Hperm. simpl. apply Permutation_sym.
  apply (Permutation_rev (documents Demo.world3)).
Defined.

(** ** The ingestion pipeline *)

Lemma process_one_skips `{Env} (w : world) (f : string) :
  VectorStore.is_document_processed w f = true ->
  Ingestor.process_one f w = (inr tt, w).
Proof.
  intros Hdone. unfold Ingestor.process_one, try_except. now rewrite Hdone.
Qed.

Lemma for_each_skips `{Env} (w : world) (files : list string) :
  (forall f, In f files -> VectorStore.is_document_processed w f = true) ->
  for_each files Ingestor.process_one w = (inr tt, w).
Proof.
  induction files as [|f files IH]; intros Hall; simpl; [reflexivity|].
  unfold bind. rewrite process_one_skips by (apply Hall; now left).
  apply IH. intros g Hg. apply Hall. now right.
Qed.

(** C8. A document whose file name is already a stored source is skipped
    with no effect at all, and a run of the ingestion over a folder whose
    PDF files are all stored sources leaves the index and the event
    history as they were: no chunk is added, no embedding is requested. *)
Theorem reingestion_adds_nothing `{Env} (w : world) (names : list string) :
  listdir (events w) = Some names ->
  (forall f, In f names -> Ingestor.is_pdf f = true ->
             VectorStore.is_document_processed w f = true) ->
  (forall f, In f names -> Ingestor.is_pdf f = true ->
             Ingestor.process_one f w = (inr tt, w))
  /\ Ingestor.process_pdfs_folder w = (inr tt, w).
Proof.
  intros Hls Hall. split.
  - intros f Hf Hpdf. apply process_one_skips. now apply Hall.
  - unfold Ingestor.process_pdfs_folder. rewrite Hls.
    destruct (List.filter Ingestor.is_pdf names) as [|f files] eqn:Hfiles;
      [reflexivity|].
    apply for_each_skips. intros g Hg. rewrite <- Hfiles in Hg.
    apply filter_In in Hg as [Hin Hpdf]. now apply Hall.
Qed.

Lemma reingestion_adds_nothing_witness :
  length (documents Demo.ingested) = 1%nat
  /\ @Ingestor.process_pdfs_folder Demo.env Demo.ingested
     = (inr tt, Demo.ingested).
Proof.
  split; [reflexivity|].
  apply (@reingestion_adds_nothing Demo.env Demo.ingested
           ["policy.pdf"; "notes.txt"]).
  - reflexivity.
  - intros f [<- | [<- | []]]; vm_compute; auto.
Defined.

(** ** Ranking: argsort, reversal, truncation *)

Section Ranking.
Variable a : list Q.

Lemma insert_index_perm (i : nat) (l : list nat) :
  Permutation (insert_index (value_at a) i l) (i :: l).
Proof.
  induction l as [|j l IH]; simpl; [reflexivity|].
  destruct (Qle_bool _ _); [reflexivity|].
  rewrite IH. apply perm_swap.
Qed.

Lemma insert_index_sorted (i : nat) (l : list nat) :
  StronglySorted (ascending_stable a) l ->
  Forall (fun j => (i < j)%nat) l ->
  StronglySorted (ascending_stable a) (insert_index (value_at a) i l).
Proof.
  induction l as [|j l IH]; intros Hsorted Hlt; simpl.
  - constructor; constructor.
  - apply StronglySorted_inv in Hsorted as [Hl Hj].
    apply Forall_cons in Hlt as [Hij Hil].
    destruct (Qle_bool (value_at a i) (value_at a j)) eqn:Hle.
    + apply Qle_bool_iff in Hle.
      constructor; [constructor; assumption|].
      assert (Hhead : ascending_stable a i j).
      { unfold ascending_stable.
        destruct (Qlt_le_dec (value_at a i) (value_at a j)) as [Hlt | Hge];
          [now left | right; split; [lra | exact Hij]]. }
      constructor; [exact Hhead|].
      rewrite List.Forall_forall in *. intros x Hx.
      specialize (Hj x Hx). specialize (Hil x Hx).
      unfold ascending_stable in *.
      destruct (Qlt_le_dec (value_at a i) (value_at a x)) as [Hlt | Hge];
        [now left | right; split; [|exact Hil]].
      destruct Hj as [Hjx | [Hjx _]]; lra.
    + assert (Hji : (value_at a j < value_at a i)%Q).
      { destruct (Qlt_le_dec (value_at a j) (value_at a i)) as [Hlt | Hge];
          [exact Hlt|]. apply Qle_bool_iff in Hge. congruence. }
      constructor; [now apply IH|].
      apply (Permutation_Forall (Permutation_sym (insert_index_perm i l))).
      constructor; [now left | exact Hj].
Qed.

Lemma insertion_from (s n : nat) :
  Permutation (foldr (insert_index (value_at a)) [] (seq s n)) (seq s n)
  /\ StronglySorted (ascending_stable a)
       (foldr (insert_index (value_at a)) [] (seq s n)).
Proof.
  revert s. induction n as [|n IH]; intros s; simpl.
  - split; [reflexivity | constructor].
  - destruct (IH (S s)) as [Hperm Hsorted]. split.
    + rewrite insert_index_perm. now constructor.
    + apply insert_index_sorted; [exact Hsorted|].
      apply (Permutation_Forall (Permutation_sym Hperm)).
      apply List.Forall_forall. intros x Hx. apply in_seq in Hx. lia.
Qed.

Lemma argsort_stable_perm :
  Permutation (argsort_stable a) (seq 0 (length a)).
Proof. apply insertion_from. Qed.

Lemma argsort_stable_sorted :
  StronglySorted (ascending_stable a) (argsort_stable a).
Proof. apply insertion_from. Qed.

Lemma ascending_stable_ascending (i j : nat) :
  ascending_stable a i j -> ascending a i j.
Proof. unfold ascending_stable, ascending. intros [Hlt | [Heq _]]; lra. Qed.

End Ranking.

Lemma StronglySorted_weaken {A} (R1 R2 : A -> A -> Prop) (l : list A) :
  (forall x y, R1 x y -> R2 x y) ->
  StronglySorted R1 l -> StronglySorted R2 l.
Proof.
  intros Himp. induction 1 as [|x l Hl IH Hx]; constructor; [exact IH|].
  eapply Forall_impl; [exact Hx | auto].
Qed.

Lemma argsort_stable_contract : argsort_contract argsort_stable.
Proof.
  intros a. split; [apply argsort_stable_perm|].
  apply StronglySorted_Sorted.
  eapply StronglySorted_weaken; [|apply argsort_stable_sorted].
  apply ascending_stable_ascending.
Qed.

Lemma StronglySorted_rev {A} (R : A -> A -> Prop) (l : list A) :
  StronglySorted R l -> StronglySorted (flip R) (rev l).
Proof.
  induction 1 as [|x l Hl IH Hx]; simpl; [constructor|].
  apply StronglySorted_app_2; [|exact IH|repeat constructor].
  intros y z Hy Hz. apply list_elem_of_In in Hy, Hz.
  destruct Hz as [<- | []]. apply in_rev in Hy.
  rewrite List.Forall_forall in Hx. now apply Hx.
Qed.

Lemma StronglySorted_firstn {A} (R : A -> A -> Prop) (n : nat) (l : list A) :
  StronglySorted R l -> StronglySorted R (firstn n l).
Proof.
  intros Hl. rewrite <- (firstn_skipn n l) in Hl.
  now apply StronglySorted_app_1_l in Hl.
Qed.

Lemma In_firstn {A} (n : nat) (l : list A) (x : A) :
  In x (firstn n l) -> In x l.
Proof.
  intros Hx. rewrite <- (firstn_skipn n l). apply in_or_app. now left.
Qed.

Lemma ascending_trans (a : list Q) : Transitive (ascending a).
Proof. intros i j k. unfold ascending. lra. Qed.

(** ** Search *)

Lemma format_results_In docs sims idxs r :
  In r (VectorStore.format_results docs sims idxs) ->
  exists i, In i idxs /\ sims !! i = Some (similarity r).
Proof.
  unfold VectorStore.format_results. intros Hr.
  apply in_flat_map in Hr as (i & Hi & Hr). exists i. split; [exact Hi|].
  destruct (docs !! i) as [doc|]; [|destruct Hr].
  destruct (sims !! i) as [s|]; [|destruct Hr].
  destruct Hr as [<- | []]. reflexivity.
Qed.

Lemma format_results_sorted docs sims idxs :
  StronglySorted (flip (ascending sims)) idxs ->
  StronglySorted by_similarity (VectorStore.format_results docs sims idxs).
Proof.
  induction 1 as [|i idxs Hsorted IH Hi]; simpl; [constructor|].
  destruct (docs !! i) as [doc|]; [|exact IH].
  destruct (sims !! i) as [s|] eqn:Hs; [|exact IH].
  simpl. constructor; [exact IH|].
  apply List.Forall_forall. intros r Hr.
  apply format_results_In in Hr as (j & Hj & Hsj).
  rewrite List.Forall_forall in Hi. specialize (Hi j Hj).
  unfold flip, ascending, value_at in Hi. unfold by_similarity. simpl.
  rewrite !nth_lookup, Hs, Hsj in Hi. exact Hi.
Qed.

Lemma format_results_length docs sims idxs :
  Forall (fun i => (i < length docs)%nat /\ (i < length sims)%nat) idxs ->
  length (VectorStore.format_results docs sims idxs) = length idxs.
Proof.
  induction 1 as [|i idxs [Hd Hs] Hrest IH]; simpl; [reflexivity|].
  apply lookup_lt_is_Some in Hd as [doc ->], Hs as [s ->].
  simpl. now rewrite IH.
Qed.

Section SearchWithEnv.
Context `{Env}.

Lemma top_indices_in_range (sims : list Q) (k : Z) :
  argsort_contract argsort ->
  Forall (fun i => (i < length sims)%nat) (VectorStore.top_indices sims k).
Proof.
  intros Hsort. destruct (Hsort sims) as [Hperm _].
  apply List.Forall_forall. intros i Hi.
  unfold VectorStore.top_indices, Py.list_slice_to in Hi.
  apply In_firstn, in_rev in Hi.
  apply (Permutation_in _ Hperm), in_seq in Hi. lia.
Qed.

Lemma top_indices_length (sims : list Q) (k : Z) :
  argsort_contract argsort -> 0 <= k ->
  length (VectorStore.top_indices sims k)
  = Nat.min (Z.to_nat k) (length sims).
Proof.
  intros Hsort Hk. destruct (Hsort sims) as [Hperm _].
  apply Permutation_length in Hperm. rewrite length_seq in Hperm.
  unfold VectorStore.top_indices, Py.list_slice_to, Py.slice_index.
  rewrite length_firstn, length_rev, Hperm.
  destruct (Z.ltb_spec k 0); lia.
Qed.

Lemma top_indices_sorted (sims : list Q) (k : Z) :
  argsort_contract argsort ->
  StronglySorted (flip (ascending sims)) (VectorStore.top_indices sims k).
Proof.
  intros Hsort. destruct (Hsort sims) as [_ Hsorted].
  apply StronglySorted_firstn, StronglySorted_rev.
  apply Sorted_StronglySorted; [apply ascending_trans | exact Hsorted].
Qed.

Lemma shapes_agree_well_formed (dim : nat) (w : world) (v : list Q) :
  well_formed dim w -> length v = dim ->
  VectorStore.shapes_agree v (embeddings w) = true.
Proof.
  intros (_ & Hpos & Hdims) Hv. unfold VectorStore.shapes_agree.
  apply andb_true_intro. split.
  - apply Nat.ltb_lt. lia.
  - apply forallb_forall. intros u Hu.
    rewrite List.Forall_forall in Hdims. apply Nat.eqb_eq.
    rewrite (Hdims u Hu). lia.
Qed.

Lemma search_nonempty (w : world) (query : string) (top_k : option Z)
    (dim : nat) (v : list Q) :
  well_formed dim w ->
  embed_content (events w) query = Some v -> length v = dim ->
  embeddings w <> [] ->
  fst (VectorStore.search query top_k w)
  = inr (let sims := map (cosine_similarity v) (embeddings w) in
         VectorStore.format_results (documents w) sims
           (VectorStore.top_indices sims (default TOP_K_RESULTS top_k))).
Proof.
  intros Hwf Hv Hdim Hne. unfold VectorStore.search.
  destruct (embeddings w) as [|e es] eqn:Hembs; [congruence|].
  unfold bind, VectorStore._get_embedding. simpl. rewrite Hv. simpl.
  rewrite <- Hembs.
  replace (VectorStore.shapes_agree v (embeddings w)) with true
    by (symmetry; eapply shapes_agree_well_formed; eauto).
  reflexivity.
Qed.

End SearchWithEnv.

Lemma search_run `{Env} (w : world) (dim : nat) (query : string)
    (v : list Q) (top_k : option Z) :
  argsort_contract argsort -> well_formed dim w ->
  embed_content (events w) query = Some v -> length v = dim ->
  fst (VectorStore.search query top_k w)
  = inr (let sims := map (cosine_similarity v) (embeddings w) in
         VectorStore.format_results (documents w) sims
           (VectorStore.top_indices sims (default TOP_K_RESULTS top_k))).
Proof.
  intros Hsort Hwf Hv Hdim.
  destruct (embeddings w) as [|e es] eqn:Hembs.
  - unfold VectorStore.search. rewrite Hembs. simpl.
    pose proof (top_indices_in_range [] (default TOP_K_RESULTS top_k) Hsort)
      as Hrange.
    destruct (VectorStore.top_indices [] (default TOP_K_RESULTS top_k))
      as [|i l]; [reflexivity|].
    apply Forall_cons in Hrange as [Hi _]. simpl in Hi. lia.
  - rewrite <- Hembs. eapply search_nonempty; eauto.
    rewrite Hembs. discriminate.
Qed.

Lemma top_indices_split `{Env} (sims : list Q) (k : Z) :
  argsort_contract argsort ->
  exists rest,
    Permutation (VectorStore.top_indices sims k ++ rest)
      (seq 0 (length sims))
    /\ StronglySorted (flip (ascending sims))
         (VectorStore.top_indices sims k ++ rest).
Proof.
  intros Hsort. destruct (Hsort sims) as [Hperm Hsorted].
  unfold VectorStore.top_indices, Py.list_slice_to.
  set (m := Py.slice_index _ k).
  exists (skipn m (rev (argsort sims))). rewrite firstn_skipn. split.
  - rewrite <- Hperm. apply Permutation_sym, Permutation_rev.
  - apply StronglySorted_rev.
    apply Sorted_StronglySorted; [apply ascending_trans | exact Hsorted].
Qed.

Lemma top_indices_nodup `{Env} (sims : list Q) (k : Z) :
  argsort_contract argsort -> NoDup (VectorStore.top_indices sims k).
Proof.
  intros Hsort. destruct (top_indices_split sims k Hsort) as (rest & Hperm & _).
  assert (Hnodup : NoDup (VectorStore.top_indices sims k ++ rest)).
  { apply NoDup_ListNoDup.
    apply (Permutation_NoDup (Permutation_sym Hperm)), List.seq_NoDup. }
  apply NoDup_app in Hnodup. apply Hnodup.
Qed.

(** An entry that is not ranked has at most the value of a ranked one. *)
Lemma top_indices_best `{Env} (sims : list Q) (k : Z) (i j : nat) :
  argsort_contract argsort ->
  In i (VectorStore.top_indices sims k) -> (j < length sims)%nat ->
  ~ In j (VectorStore.top_indices sims k) ->
  (value_at sims j <= value_at sims i)%Q.
Proof.
  intros Hsort Hi Hj Hnot.
  destruct (top_indices_split sims k Hsort) as (rest & Hperm & Hsorted).
  assert (Hin : In j (VectorStore.top_indices sims k ++ rest)).
  { apply (Permutation_in _ (Permutation_sym Hperm)), in_seq. lia. }
  apply in_app_or in Hin as [Hin | Hin]; [contradiction|].
  apply (StronglySorted_app_1_elem_of _ _ _ i j Hsorted);
    now apply list_elem_of_In.
Qed.

(** The results are the stored entries at the ranked indices, each with
    the cosine of the query vector and its own vector. *)
Lemma format_results_entries `{Env} (w : world) (qv : list Q)
    (idxs : list nat) :
  length (embeddings w) = length (documents w) ->
  Forall (fun i => (i < length (documents w))%nat) idxs ->
  Forall2 (entry_of w qv) idxs
    (VectorStore.format_results (documents w)
       (map (cosine_similarity qv) (embeddings w)) idxs).
Proof.
  intros Hlen. induction 1 as [|i idxs Hi Hrest IH]; [constructor|].
  destruct (lookup_lt_is_Some_2 (documents w) i Hi) as [doc Hdoc].
  assert (Hi' : (i < length (embeddings w))%nat) by lia.
  destruct (lookup_lt_is_Some_2 (embeddings w) i Hi') as [u Hu].
  unfold VectorStore.format_results. cbn [flat_map].
  change (map (cosine_similarity qv) (embeddings w))
    with (cosine_similarity qv <$> embeddings w).
  rewrite Hdoc, list_lookup_fmap, Hu. cbn [fmap option_fmap option_map app].
  constructor; [|exact IH]. exists doc, u. auto.
Qed.

Lemma StronglySorted_lookup {A} (R : A -> A -> Prop) (l : list A)
    (p q : nat) (x y : A) :
  StronglySorted R l -> (p < q)%nat ->
  l !! p = Some x -> l !! q = Some y -> R x y.
Proof.
  intros Hl. revert p q. induction Hl as [|z l Hl IH Hz]; intros p q Hpq Hp Hq.
  - rewrite lookup_nil in Hp. discriminate.
  - destruct q as [|q]; [lia|]. simpl in Hq.
    destruct p as [|p]; simpl in Hp.
    + injection Hp as <-. rewrite List.Forall_forall in Hz.
      apply Hz. apply list_elem_of_In. eapply list_elem_of_lookup_2, Hq.
    + apply (IH p q); [lia | assumption | assumption].
Qed.

(** Position [p] of the reversed list is position [length l - 1 - p] of
    the list. *)
Lemma lookup_rev {A} (l : list A) (p : nat) (x : A) :
  rev l !! p = Some x ->
  (p < length l)%nat /\ l !! (length l - S p)%nat = Some x.
Proof.
  intros Hp.
  assert (Hlt : (p < length l)%nat).
  { apply lookup_lt_Some in Hp. now rewrite length_rev in Hp. }
  split; [exact Hlt|].
  rewrite rev_alt in Hp. change (rev_append l []) with (reverse l) in Hp.
  now rewrite reverse_lookup in Hp.
Qed.

(** C3. On an empty index [search] returns the empty list for every query
    and every [top_k], without calling the provider. On an index of [n]
    entries, once the query is embedded, it returns exactly [min k n]
    results, where [k >= 0] is the [top_k] given or the configured
    default: they are distinct stored entries, each with the cosine
    similarity of the query vector to its own vector, in order of
    non-increasing similarity, and every entry left out has at most the
    similarity of every entry returned. *)
Theorem search_count_and_order `{Env} :
  (forall w query top_k,
     embeddings w = [] -> VectorStore.search query top_k w = (inr [], w))
  /\ (forall w dim query v top_k,
        argsort_contract argsort -> well_formed dim w ->
        embed_content (events w) query = Some v -> length v = dim ->
        0 <= default TOP_K_RESULTS top_k ->
        exists results ranking,
          fst (VectorStore.search query top_k w) = inr results
          /\ length results
             = Nat.min (Z.to_nat (default TOP_K_RESULTS top_k))
                       (length (documents w))
          /\ NoDup ranking
          /\ Forall2 (entry_of w v) ranking results
          /\ StronglySorted by_similarity results
          /\ (forall j u,
                embeddings w !! j = Some u -> ~ In j ranking ->
                Forall (fun r => (cosine_similarity v u <= similarity r)%Q)
                  results)).
Proof.
  split.
  - intros w query top_k Hempty. unfold VectorStore.search.
    now rewrite Hempty.
  - intros w dim query v top_k Hsort Hwf Hv Hdim Hk.
    set (sims := map (cosine_similarity v) (embeddings w)).
    set (ranking := VectorStore.top_indices sims (default TOP_K_RESULTS top_k)).
    assert (Hn : length sims = length (documents w)).
    { unfold sims. rewrite length_map. apply Hwf. }
    assert (Hrange : Forall (fun i => (i < length (documents w))%nat) ranking).
    { eapply Forall_impl; [apply top_indices_in_range, Hsort|].
      simpl. intros i Hi. lia. }
    exists (VectorStore.format_results (documents w) sims ranking), ranking.
    split; [apply (search_run w dim query v top_k); assumption|].
    split.
    { rewrite format_results_length.
      - unfold ranking. rewrite top_indices_length by assumption.
        now rewrite Hn.
      - eapply Forall_impl; [exact Hrange|]. simpl. intros i Hi. lia. }
    split; [apply top_indices_nodup, Hsort|].
    split; [apply format_results_entries; [apply Hwf | exact Hrange]|].
    split; [apply format_results_sorted, top_indices_sorted, Hsort|].
    intros j u Hu Hnot. apply List.Forall_forall. intros r Hr.
    apply format_results_In in Hr as (i & Hi & Hsi).
    assert (Hj : (j < length sims)%nat).
    { unfold sims. rewrite length_map. eapply lookup_lt_Some, Hu. }
    pose proof (top_indices_best sims _ i j Hsort Hi Hj Hnot) as Hle.
    unfold value_at in Hle. rewrite !nth_lookup, Hsi in Hle.
    unfold sims in Hle.
    change (map (cosine_similarity v) (embeddings w))
      with (cosine_similarity v <$> embeddings w) in Hle.
    rewrite list_lookup_fmap, Hu in Hle. exact Hle.
Qed.

Lemma search_count_and_order_witness :
  exists results ranking,
    fst (@VectorStore.search Demo.env "abc" (Some 2) Demo.world3)
    = inr results
    /\ length results = 2%nat
    /\ NoDup ranking
    /\ Forall2 (@entry_of Demo.env Demo.world3 (Demo.embed "abc"))
         ranking results
    /\ StronglySorted by_similarity results
    /\ (forall j u,
          embeddings Demo.world3 !! j = Some u -> ~ In j ranking ->
          Forall (fun r => (Demo.inner (Demo.embed "abc") u <= similarity r)%Q)
            results).
Proof.
  destruct (@search_count_and_order Demo.env) as [_ Hsearch].
  apply (Hsearch Demo.world3 2%nat "abc" (Demo.embed "abc") (Some 2)).
  - apply argsort_stable_contract.
  - repeat split; [simpl; lia | repeat constructor].
  - reflexivity.
  - reflexivity.
  - simpl. lia.
Defined.

(** C4 (as amended). For every sort that meets the contract of
    [np.argsort], [search] returns the stored entries at the ranked
    indices in order of non-increasing similarity, and of two entries
    returned the one that comes first is the one [np.argsort] lists
    later: the order of entries of equal similarity is the reverse of
    the order [np.argsort] gives them, whatever that is. *)
Theorem search_ties_follow_argsort `{Env} :
  argsort_contract argsort ->
  forall w dim query v top_k,
    well_formed dim w ->
    embed_content (events w) query = Some v -> length v = dim ->
    let sims := map (cosine_similarity v) (embeddings w) in
    let ranking :=
      VectorStore.top_indices sims (default TOP_K_RESULTS top_k) in
    exists results,
      fst (VectorStore.search query top_k w) = inr results
      /\ Forall2 (entry_of w v) ranking results
      /\ StronglySorted by_similarity results
      /\ forall p q i j,
           (p < q)%nat -> ranking !! p = Some i -> ranking !! q = Some j ->
           (value_at sims j <= value_at sims i)%Q
           /\ exists a b,
                (a < b)%nat /\ argsort sims !! a = Some j
                /\ argsort sims !! b = Some i.
Proof.
  intros Hsort w dim query v top_k Hwf Hv Hdim sims ranking.
  assert (Hn : length sims = length (documents w)).
  { unfold sims. rewrite length_map. apply Hwf. }
  exists (VectorStore.format_results (documents w) sims ranking).
  split; [apply (search_run w dim query v top_k); assumption|].
  split.
  { apply format_results_entries; [apply Hwf|].
    eapply Forall_impl; [apply top_indices_in_range, Hsort|].
    simpl. intros i Hi. lia. }
  split; [apply format_results_sorted, top_indices_sorted, Hsort|].
  intros p q i j Hpq Hp Hq. split.
  - pose proof (top_indices_sorted sims (default TOP_K_RESULTS top_k) Hsort)
      as Hsorted.
    apply (StronglySorted_lookup _ _ _ _ _ _ Hsorted Hpq Hp Hq).
  - unfold ranking, VectorStore.top_indices, Py.list_slice_to in Hp, Hq.
    apply lookup_take_Some in Hp as [Hp _], Hq as [Hq _].
    apply lookup_rev in Hp as [Hpl Hp], Hq as [Hql Hq].
    exists (length (argsort sims) - S q)%nat,
           (length (argsort sims) - S p)%nat.
    split; [lia|]. split; assumption.
Qed.

Lemma search_ties_follow_argsort_witness :
  (value_at (map (Demo.inner (Demo.embed "abc")) (embeddings Demo.world3)) 0
   == value_at (map (Demo.inner (Demo.embed "abc")) (embeddings Demo.world3)) 1)%Q
  /\ exists a b,
       (a < b)%nat
       /\ argsort_stable
            (map (Demo.inner (Demo.embed "abc")) (embeddings Demo.world3))
          !! a = Some 0%nat
       /\ argsort_stable
            (map (Demo.inner (Demo.embed "abc")) (embeddings Demo.world3))
          !! b = Some 1%nat.
Proof.
  split; [vm_compute; reflexivity|].
  destruct (@search_ties_follow_argsort Demo.env argsort_stable_contract
              Demo.world3 2%nat "abc" (Demo.embed "abc") None)
    as (results & _ & _ & _ & Hties).
  - repeat split; [simpl; lia | repeat constructor].
  - reflexivity.
  - reflexivity.
  - apply (Hties 0%nat 1%nat 1%nat 0%nat); [lia | reflexivity | reflexivity].
Defined.

(** C4, counterexample. Insertion order among entries of equal similarity
    is not a property of [search]. The sort that keeps equal values in
    index order meets the contract of [np.argsort]; with it, an index
    whose first two entries have the same vector ranks entry 1 before
    entry 0, so the result list starts with the chunk inserted second.
    Hence the tie rule does not hold for every sort that [np.argsort] may
    be. *)
Lemma search_ties_not_by_insertion :
  argsort_contract (@argsort Demo.env)
  /\ (value_at (map (Demo.inner (Demo.embed "abc")) (embeddings Demo.world3)) 0
      == value_at (map (Demo.inner (Demo.embed "abc"))
                     (embeddings Demo.world3)) 1)%Q
  /\ (exists results,
        fst (@VectorStore.search Demo.env "abc" (Some 5) Demo.world3)
        = inr results
        /\ map res_content results = ["second"; "first"; "third"])
  /\ ~ (forall E : Env,
          argsort_contract (@argsort E) ->
          forall w dim query v top_k,
            well_formed dim w ->
            @embed_content E (events w) query = Some v -> length v = dim ->
            ties_by_insertion
              (map (@cosine_similarity E v) (embeddings w))
              (@VectorStore.top_indices E
                 (map (@cosine_similarity E v) (embeddings w))
                 (default (@TOP_K_RESULTS E) top_k))).
Proof.
  split; [apply argsort_stable_contract|].
  split; [vm_compute; reflexivity|].
  split; [eexists; split; vm_compute; reflexivity|].
  intros Hclaim.
  assert (Hwf : well_formed 2 Demo.world3).
  { repeat split; [simpl; lia | repeat constructor]. }
  pose proof (Hclaim Demo.env argsort_stable_contract Demo.world3 2%nat
                "abc" (Demo.embed "abc") (Some 5) Hwf eq_refl eq_refl)
    as Hties.
  assert (Hlt : (1 < 0)%nat); [|lia].
  apply (Hties 0%nat 1%nat 1%nat 0%nat); [lia | | |];
    vm_compute; reflexivity.
Qed.

(** ** Dictionaries *)

Lemma get_set_same (key : string) (v : json) (d : Dict.dict) :
  Dict.get key (Dict.set key v d) = Some v.
Proof.
  induction d as [|[k v'] d IH]; simpl.
  - now rewrite String.eqb_refl.
  - destruct (String.eqb k key) eqn:Hk; simpl; rewrite Hk; auto.
Qed.

Lemma get_set_other (key key' : string) (v : json) (d : Dict.dict) :
  key <> key' -> Dict.get key (Dict.set key' v d) = Dict.get key d.
Proof.
  intros Hne. induction d as [|[k v'] d IH]; simpl.
  - destruct (String.eqb_spec key' key); congruence.
  - destruct (String.eqb_spec k key'); simpl.
    + subst k. destruct (String.eqb_spec key' key); congruence.
    + destruct (String.eqb_spec k key); auto.
Qed.

Lemma mem_false (key : string) (d : Dict.dict) :
  Dict.mem key d = false -> Dict.get key d = None.
Proof. unfold Dict.mem. destruct (Dict.get key d); congruence. Qed.

Lemma mem_true (key : string) (d : Dict.dict) :
  Dict.mem key d = true -> exists v, Dict.get key d = Some v.
Proof. unfold Dict.mem. destruct (Dict.get key d); eauto; discriminate. Qed.

(** ** The query pipeline *)

Section QueryWithEnv.
Context `{Env}.

Lemma ensure_fields_decision (d : Dict.dict) (results : list search_result) :
  Dict.get "decision" (QueryHandler.ensure_fields d results)
  = Some (default (JStr "Uncertain") (Dict.get "decision" d)).
Proof.
  unfold QueryHandler.ensure_fields.
  set (d1 := if Dict.mem "decision" d then d
             else Dict.set "decision" (JStr "Uncertain") d).
  assert (H1 : Dict.get "decision" d1
               = Some (default (JStr "Uncertain") (Dict.get "decision" d))).
  { subst d1. destruct (Dict.mem "decision" d) eqn:Hm.
    - apply mem_true in Hm as [v Hv]. now rewrite Hv.
    - rewrite (mem_false _ _ Hm). apply get_set_same. }
  match goal with
  | |- context [if Dict.mem "alternatives" ?x then _ else _] => set (d2 := x)
  end.
  assert (H2 : Dict.get "decision" d2 = Dict.get "decision" d1).
  { subst d2. destruct (negb _ || negb _); [|reflexivity].
    destruct results; apply get_set_other; discriminate. }
  destruct (Dict.mem "alternatives" d2).
  - congruence.
  - rewrite get_set_other by discriminate. congruence.
Qed.

Lemma ensure_fields_justification (d : Dict.dict)
    (results : list search_result) :
  Dict.get "justification" (QueryHandler.ensure_fields d results)
  = if QueryHandler.is_list (Dict.get "justification" d)
    then Dict.get "justification" d
    else Some (JArr [match results with
                     | best_result :: _ => QueryHandler.citation_of best_result
                     | [] => QueryHandler.citation "N/A"
                               "No relevant information found" "N/A"
                     end]).
Proof.
  unfold QueryHandler.ensure_fields.
  set (d1 := if Dict.mem "decision" d then d
             else Dict.set "decision" (JStr "Uncertain") d).
  assert (H1 : Dict.get "justification" d1 = Dict.get "justification" d).
  { subst d1. destruct (Dict.mem "decision" d); [reflexivity|].
    apply get_set_other. discriminate. }
  assert (Hm : Dict.mem "justification" d1
               = match Dict.get "justification" d with
                 | Some _ => true | None => false end).
  { unfold Dict.mem. now rewrite H1. }
  match goal with
  | |- context [if Dict.mem "alternatives" ?x then _ else _] => set (d2 := x)
  end.
  assert (H2 : Dict.get "justification" d2
               = if QueryHandler.is_list (Dict.get "justification" d)
                 then Dict.get "justification" d
                 else Some (JArr [match results with
                     | best_result :: _ => QueryHandler.citation_of best_result
                     | [] => QueryHandler.citation "N/A"
                               "No relevant information found" "N/A"
                     end])).
  { subst d2. rewrite Hm, H1.
    destruct (Dict.get "justification" d) as [[]|] eqn:Hj; simpl;
      try (destruct results; apply get_set_same).
    exact H1. }
  destruct (Dict.mem "alternatives" d2); [exact H2|].
  rewrite get_set_other by discriminate. exact H2.
Qed.

Lemma keyword_decision_enum (content_lower : string) :
  QueryHandler.keyword_decision content_lower = "Approved"
  \/ QueryHandler.keyword_decision content_lower = "Rejected"
  \/ QueryHandler.keyword_decision content_lower = "Uncertain".
Proof.
  unfold QueryHandler.keyword_decision.
  repeat match goal with
         | |- context [if ?b then _ else _] => destruct b
         end; auto.
Qed.

Lemma manual_decision_enum (results : list search_result) :
  is_enum_decision (QueryHandler.manual_decision results).
Proof.
  unfold is_enum_decision, QueryHandler.manual_decision.
  destruct results as [|best rest]; simpl; [auto|].
  destruct (keyword_decision_enum (Py.lower (res_content best)))
    as [-> | [-> | ->]]; auto.
Qed.

End QueryWithEnv.

Section PipelineWithEnv.
Context `{Env}.

Lemma call_model_run (prompt : string) (w : world) :
  QueryHandler.call_model prompt w
  = (match generate_content (events w) prompt with
     | Some r => inr r
     | None => inl ProviderError
     end,
     {| embeddings := embeddings w; documents := documents w;
        events := events w ++ [GenerateContent prompt] |}).
Proof.
  unfold QueryHandler.call_model. simpl.
  destruct (generate_content (events w) prompt); reflexivity.
Qed.

(** [_parse_query] never raises: after its one generation call it returns
    what the answer parses to, and the empty dictionary when there is no
    such value. *)
Lemma parse_query_run (query : string) (w : world) :
  QueryHandler._parse_query query w
  = (inr (default (JObj [])
            (parsed_answer (events w) (parse_prompt query))),
     {| embeddings := embeddings w; documents := documents w;
        events := events w ++ [GenerateContent (parse_prompt query)] |}).
Proof.
  unfold QueryHandler._parse_query, try_except, bind, parsed_answer.
  rewrite call_model_run.
  destruct (generate_content (events w) _) as [[[text|]]|]; try reflexivity.
  unfold try_except_when, bind, QueryHandler.loads, QueryHandler.read_text.
  simpl.
  destruct (json_loads (QueryHandler.clean_response text)) as [e | j];
    [destruct e|]; reflexivity.
Qed.

(** [_make_decision] never raises. After its one generation call it
    returns the model's object with its fields completed; the manual
    decision when the text parses to something else or [json.loads]
    raises a [ValueError]; and the answer to a processing error when
    the call fails, the answer has no text, or [json.loads] raises
    another exception. *)
Lemma make_decision_run (query : string) (info : json)
    (results : list search_result) (w : world) :
  QueryHandler._make_decision query info results w
  = (inr match generate_content (events w)
                 (decision_prompt query (json_dumps info) results) with
         | Some {| response_text := Some text |} =>
             match json_loads (QueryHandler.clean_response text) with
             | inr (JObj d) => JObj (QueryHandler.ensure_fields d results)
             | inr _ => QueryHandler.manual_decision results
             | inl e =>
                 if QueryHandler.is_value_error e
                 then QueryHandler.manual_decision results
                 else QueryHandler.decision_dict "Uncertain" JNull
                        [QueryHandler.citation "N/A"
                           ("Processing error: " +:+ QueryHandler.message e)
                           "N/A"] []
             end
         | Some {| response_text := None |} =>
             QueryHandler.decision_dict "Uncertain" JNull
               [QueryHandler.citation "N/A"
                  ("Processing error: " +:+ QueryHandler.message ValueError)
                  "N/A"] []
         | None =>
             QueryHandler.decision_dict "Uncertain" JNull
               [QueryHandler.citation "N/A"
                  ("Processing error: "
                   +:+ QueryHandler.message ProviderError) "N/A"] []
         end,
     {| embeddings := embeddings w; documents := documents w;
        events := events w
                  ++ [GenerateContent
                        (decision_prompt query (json_dumps info) results)] |}).
Proof.
  unfold QueryHandler._make_decision, try_except, bind.
  rewrite call_model_run.
  destruct (generate_content (events w) _) as [[[text|]]|]; try reflexivity.
  unfold try_except_when, bind, QueryHandler.loads, QueryHandler.read_text.
  simpl.
  destruct (json_loads (QueryHandler.clean_response text)) as [e | j];
    [destruct e | destruct j]; reflexivity.
Qed.

(** [process_query] never raises. Its result is the "Unknown" answer to
    an empty search, the answer to an error of the search, or what
    [_make_decision] returns on the results of the search. *)
Lemma process_query_run (query : string) (w : world) :
  exists r w',
    QueryHandler.process_query query w = (inr r, w')
    /\ match fst (searched query w) with
       | inr [] =>
           r = QueryHandler.decision_dict "Unknown" JNull
                 [QueryHandler.citation "N/A"
                    "No relevant clause found in provided documents."
                    "N/A"] []
       | inr results =>
           fst (QueryHandler._make_decision query (structured_info query w)
                  results (snd (searched query w))) = inr r
       | inl e =>
           r = QueryHandler.decision_dict "Uncertain" JNull
                 [QueryHandler.citation "N/A"
                    ("Error processing query: " +:+ QueryHandler.message e)
                    "N/A"] []
       end.
Proof.
  unfold QueryHandler.process_query, try_except, bind, searched,
    structured_info.
  rewrite parse_query_run. cbn [fst snd].
  destruct (VectorStore.search query (Some TOP_K_RESULTS) _)
    as [[e | [|best rest]] w2]; cbn [fst snd].
  - eauto.
  - unfold ret. eauto.
  - rewrite make_decision_run. eauto.
Qed.

End PipelineWithEnv.

(** C5 (as amended). [process_query] always returns a result with a
    decision. The decision is "Unknown" when the search of this run
    returns no results and "Uncertain" when the search raises. When the
    search returns results and the generation output of this run parses
    to an object, the decision is the value that object gives, unchecked,
    and "Uncertain" when the object has no decision; otherwise it is one
    of "Approved", "Rejected" and "Uncertain". *)
Theorem process_query_decision `{Env} (query : string) (w : world) :
  exists r w' dec,
    QueryHandler.process_query query w = (inr r, w')
    /\ QueryHandler.field "decision" r = Some dec
    /\ match fst (searched query w) with
       | inr [] => dec = JStr "Unknown"
       | inr results =>
           match decision_answer query w results with
           | Some (JObj d) =>
               dec = default (JStr "Uncertain") (Dict.get "decision" d)
           | _ => is_enum_decision r
           end
       | inl _ => dec = JStr "Uncertain"
       end.
Proof.
  destruct (process_query_run query w) as (r & w' & Hrun & Hcase).
  exists r, w'. unfold decision_answer, parsed_answer.
  destruct (fst (searched query w)) as [e | [|best rest]].
  - subst r. eexists. split; [exact Hrun|]. split; reflexivity.
  - subst r. eexists. split; [exact Hrun|]. split; reflexivity.
  - rewrite make_decision_run in Hcase. cbn [fst] in Hcase.
    injection Hcase as <-.
    destruct (generate_content _ _) as [[[text|]]|].
    + destruct (json_loads (QueryHandler.clean_response text)) as [e | j].
      * destruct (QueryHandler.is_value_error e).
        -- destruct (manual_decision_enum (best :: rest)) as [Hd | [Hd | Hd]];
             eexists; (split; [exact Hrun|]); (split; [exact Hd|]);
             unfold is_enum_decision; auto.
        -- eexists. split; [exact Hrun|]. split; [reflexivity|].
           unfold is_enum_decision. simpl. auto.
      * destruct j;
          try (destruct (manual_decision_enum (best :: rest))
                 as [Hd | [Hd | Hd]];
               eexists; (split; [exact Hrun|]); (split; [exact Hd|]);
               unfold is_enum_decision; now auto).
        eexists. split; [exact Hrun|]. simpl.
        rewrite ensure_fields_decision. split; reflexivity.
    + eexists. split; [exact Hrun|]. split; [reflexivity|].
      unfold is_enum_decision. simpl. auto.
    + eexists. split; [exact Hrun|]. split; [reflexivity|].
      unfold is_enum_decision. simpl. auto.
Qed.

Lemma process_query_decision_witness :
  exists r w',
    @QueryHandler.process_query Demo.env_no_citation "abc" Demo.world3
    = (inr r, w')
    /\ QueryHandler.field "decision" r = Some (JStr "Approved").
Proof.
  destruct (@process_query_decision Demo.env_no_citation "abc" Demo.world3)
    as (r & w' & dec & Hrun & Hdec & Hcase).
  exists r, w'. split; [exact Hrun|].
  vm_compute in Hcase. now rewrite Hdec, Hcase.
Defined.

(** C5, counterexample. A query against an empty index is answered with
    the decision "Unknown", which is none of the three values. *)
Lemma empty_index_decision_unknown :
  QueryHandler.field "decision"
    (match @QueryHandler.process_query Demo.env "knee surgery" Demo.empty_world
     with (inr r, _) => r | (inl _, _) => JNull end)
  = Some (JStr "Unknown")
  /\ ~ is_enum_decision
         (match @QueryHandler.process_query Demo.env "knee surgery"
                  Demo.empty_world
          with (inr r, _) => r | (inl _, _) => JNull end).
Proof.
  split; [vm_compute; reflexivity|].
  intros [Hd | [Hd | Hd]]; vm_compute in Hd; discriminate.
Qed.

(** C6 (as amended). The justification of the result of [process_query]
    is always a list. When the search of this run returns results and the
    generation output of this run parses to an object, the list is the
    justification that object gives if that is a list, the empty one
    included, and otherwise the one citation made from the top search
    result. In every other case it is a list of exactly one citation,
    made from the top search result when the generation output parses to
    something that is not an object. *)
Theorem process_query_justification `{Env} (query : string) (w : world) :
  exists r w' items,
    QueryHandler.process_query query w = (inr r, w')
    /\ QueryHandler.field "justification" r = Some (JArr items)
    /\ match fst (searched query w) with
       | inr (best :: rest) =>
           match decision_answer query w (best :: rest) with
           | Some (JObj d) =>
               match Dict.get "justification" d with
               | Some (JArr given) => items = given
               | _ => items = [QueryHandler.citation_of best]
               end
           | Some _ => items = [QueryHandler.citation_of best]
           | None => exists c, items = [c]
           end
       | _ => exists c, items = [c]
       end.
Proof.
  destruct (process_query_run query w) as (r & w' & Hrun & Hcase).
  exists r, w'. unfold decision_answer, parsed_answer.
  destruct (fst (searched query w)) as [e | [|best rest]].
  - subst r. eexists. split; [exact Hrun|]. split; [reflexivity | eauto].
  - subst r. eexists. split; [exact Hrun|]. split; [reflexivity | eauto].
  - rewrite make_decision_run in Hcase. cbn [fst] in Hcase.
    injection Hcase as <-.
    destruct (generate_content _ _) as [[[text|]]|];
      try (eexists; split; [exact Hrun|]; split; [reflexivity | now eauto]).
    destruct (json_loads (QueryHandler.clean_response text)) as [e | j].
    + destruct (QueryHandler.is_value_error e);
        eexists; (split; [exact Hrun|]); (split; [reflexivity | eauto]).
    + destruct j as [| | | | | |d];
        try (eexists; split; [exact Hrun|]; split; [reflexivity|];
             reflexivity).
      simpl. rewrite ensure_fields_justification.
      destruct (Dict.get "justification" d) as [[]|]; simpl;
        eexists; (split; [exact Hrun|]); (split; reflexivity).
Qed.

Lemma process_query_justification_witness :
  exists r w',
    @QueryHandler.process_query Demo.env_text_citation "abc" Demo.world3
    = (inr r, w')
    /\ QueryHandler.field "justification" r
       = Some (JArr [QueryHandler.citation_of
                       {| res_content := "second"; res_source := "a.pdf";
                          res_page := 1; res_chunk_id := "a.pdf-c0";
                          similarity := 3; distance := 1 - 3 |}]).
Proof.
  destruct (@process_query_justification Demo.env_text_citation "abc"
              Demo.world3)
    as (r & w' & items & Hrun & Hitems & Hcase).
  exists r, w'. split; [exact Hrun|].
  vm_compute in Hcase. rewrite Hitems, Hcase. vm_compute. reflexivity.
Defined.

(** C6, counterexample. The model answers
    [{"decision": "Approved", "justification": []}] while search results
    exist: the empty justification is returned. *)
Lemma empty_justification_returned :
  QueryHandler.field "justification"
    (match @QueryHandler.process_query Demo.env_no_citation "abc" Demo.world3
     with (inr r, _) => r | (inl _, _) => JNull end)
  = Some (JArr [])
  /\ ~ has_citation
         (match @QueryHandler.process_query Demo.env_no_citation "abc"
                  Demo.world3
          with (inr r, _) => r | (inl _, _) => JNull end).
Proof.
  split; [vm_compute; reflexivity|].
  intros (c & cs & Hc). vm_compute in Hc. discriminate.
Qed.

(** ** The keyword fallback *)

Lemma prefix_lower (s1 s2 : string) :
  String.prefix s1 s2 = true ->
  String.prefix (Py.lower s1) (Py.lower s2) = true.
Proof.
  revert s2. induction s1 as [|a s1 IH]; intros [|b s2]; simpl;
    try reflexivity; try discriminate.
  destruct (ascii_dec a b) as [-> | Hne]; [|discriminate].
  intros Hp. destruct (ascii_dec (Py.lower_char b) (Py.lower_char b));
    [now apply IH | congruence].
Qed.

Lemma contains_lower (sub s : string) :
  Py.contains sub s = true ->
  Py.contains (Py.lower sub) (Py.lower s) = true.
Proof.
  induction s as [|c s IH]; cbn [Py.contains Py.lower]; intros Hc;
    apply orb_true_iff in Hc as [Hp | Hrest];
    try (apply prefix_lower in Hp; cbn [Py.lower] in Hp; now rewrite Hp).
  - discriminate.
  - rewrite (IH Hrest). apply orb_true_r.
Qed.

(** C7 (as amended). When the generation call returns text on which
    [json.loads], after the clean-up, raises [JSONDecodeError] or another
    [ValueError], while search results exist, and the top result's
    content contains "excluded" and, in any letter case, none of
    "covered", "approved" and "eligible", the fallback decides
    "Rejected". *)
Theorem unparsed_excluded_rejected `{Env} (query : string) (info : json)
    (best : search_result) (rest : list search_result) (w : world)
    (text : string) (e : exn) :
  generate_content (events w)
    (decision_prompt query (json_dumps info) (best :: rest))
  = Some {| response_text := Some text |} ->
  json_loads (QueryHandler.clean_response text) = inl e ->
  QueryHandler.is_value_error e = true ->
  Py.contains "excluded" (res_content best) = true ->
  Py.any_in ["covered"; "approved"; "eligible"] (Py.lower (res_content best))
  = false ->
  exists r,
    fst (QueryHandler._make_decision query info (best :: rest) w) = inr r
    /\ QueryHandler.field "decision" r = Some (JStr "Rejected").
Proof.
  intros Hgen Hj He Hexcl Hnone.
  rewrite make_decision_run, Hgen, Hj, He. cbn [fst].
  eexists. split; [reflexivity|].
  apply contains_lower in Hexcl.
  change (Py.lower "excluded") with "excluded" in Hexcl.
  unfold QueryHandler.manual_decision, QueryHandler.keyword_decision.
  rewrite Hnone. unfold Py.any_in. cbn [existsb].
  rewrite Hexcl. reflexivity.
Qed.

Lemma unparsed_excluded_rejected_witness :
  exists r,
    fst (@QueryHandler._make_decision Demo.env "is it paid?" (JObj [])
           Demo.excluded_results Demo.empty_world) = inr r
    /\ QueryHandler.field "decision" r = Some (JStr "Rejected").
Proof.
  apply (@unparsed_excluded_rejected Demo.env "is it paid?" (JObj [])
           (Demo.result_of "Cosmetic surgery is excluded.") []
           Demo.empty_world "I cannot tell." JSONDecodeError);
    vm_compute; reflexivity.
Defined.

(** C7, counterexample. The model answers with prose, on which
    [json.loads] raises [JSONDecodeError], the top result says
    "Cosmetic surgery is excluded. Knee surgery is covered.", and the
    fallback decides "Approved": the approval keywords are looked at
    first. *)
Lemma excluded_but_approved :
  @json_loads Demo.env (QueryHandler.clean_response "I cannot tell.")
  = inl JSONDecodeError
  /\ Py.contains "excluded"
       (res_content (Demo.result_of
          "Cosmetic surgery is excluded. Knee surgery is covered.")) = true
  /\ QueryHandler.field "decision"
       (match @QueryHandler._make_decision Demo.env "is it paid?" (JObj [])
                Demo.mixed_results Demo.empty_world
        with (inr r, _) => r | (inl _, _) => JNull end)
     = Some (JStr "Approved")
  /\ QueryHandler.field "decision"
       (match @QueryHandler._make_decision Demo.env "is it paid?" (JObj [])
                Demo.mixed_results Demo.empty_world
        with (inr r, _) => r | (inl _, _) => JNull end)
     <> Some (JStr "Rejected").
Proof.
  repeat split; try (vm_compute; reflexivity).
  vm_compute. discriminate.
Qed.

(** ** The query endpoint *)

(** The endpoint answers 200 or 500 and nothing else: every exception
    raised in its body, the 400 and the 503 included, is caught by its
    handler and raised again as a 500. *)
Lemma endpoint_status_200_or_500 `{Env} (query_handler : bool)
    (query : string) (w : world) :
  Api.status_code (fst (Api.process_query query_handler query w)) = 200
  \/ Api.status_code (fst (Api.process_query query_handler query w)) = 500.
Proof.
  unfold Api.process_query, try_except.
  match goal with
  | |- context [match ?body w with _ => _ end] =>
      destruct (body w) as [[e | r] w']
  end; simpl; auto.
Qed.

(** C1. With the handler set up, a query that is empty or white space
    only is answered with status 500: the 400 raised for it does not
    leave the endpoint. *)
Theorem blank_query_answers_500 `{Env} (query : string) (w : world) :
  Py.nonempty (Py.strip query) = false ->
  fst (Api.process_query true query w) = inl (HTTPException 500)
  /\ Api.status_code (fst (Api.process_query true query w)) = 500.
Proof.
  intros Hblank. unfold Api.process_query, try_except. simpl.
  rewrite Hblank. simpl. auto.
Qed.

Lemma blank_query_answers_500_witness :
  Api.status_code
    (fst (@Api.process_query Demo.env true "   " Demo.empty_world)) = 500.
Proof.
  apply (@blank_query_answers_500 Demo.env "   " Demo.empty_world).
  reflexivity.
Defined.

(** A model answer whose citation lacks [clause] and [source] passes the
    query pipeline and fails the response model: status 500. *)
Lemma malformed_citation_answers_500 :
  Api.status_code
    (fst (@Api.process_query Demo.env_bad_citation true "abc" Demo.world3))
  = 500.
Proof. vm_compute. reflexivity. Qed.

(** * Further properties *)

(** ** Adding to the index *)

Section AddDocuments.
Context `{Env}.

Lemma extends_refl (w : world) : extends w w.
Proof. exists [], []. now rewrite !app_nil_r. Qed.

Lemma extends_trans (w1 w2 w3 : world) :
  extends w1 w2 -> extends w2 w3 -> extends w1 w3.
Proof.
  intros (vs & ds & Hv & Hd & Hl) (vs' & ds' & Hv' & Hd' & Hl').
  exists (vs ++ vs'), (ds ++ ds'). rewrite Hv', Hd', Hv, Hd.
  rewrite <- !app_assoc, !length_app. auto.
Qed.

Lemma extends_paired (w w' : world) : extends w w' -> paired w -> paired w'.
Proof.
  intros (vs & ds & Hv & Hd & Hl). unfold paired.
  rewrite Hv, Hd, !length_app. lia.
Qed.

(** The loop of [add_documents]: it stops at the first chunk the provider
    does not embed, having stored the [n] chunks before it. *)
Lemma add_loop_spec (docs : list chunk_meta) (w : world) :
  exists (n : nat) (vs : list (list Q)) (out : exn + unit) (w' : world),
    for_each docs (fun doc =>
      let! embedding := VectorStore._get_embedding (meta_content doc) in
      VectorStore.append_entry embedding (stored doc)) w = (out, w')
    /\ (n <= length docs)%nat
    /\ length vs = n
    /\ embeddings w' = embeddings w ++ vs
    /\ documents w' = documents w ++ map stored (firstn n docs)
    /\ ((out = inr tt /\ n = length docs
         /\ events w' = events w ++ embed_events docs)
        \/ (out = inl ProviderError /\ (n < length docs)%nat
            /\ events w' = events w ++ embed_events (firstn (S n) docs)
            /\ exists history text, embed_content history text = None)).
Proof.
  revert w. induction docs as [|doc docs IH]; intros w.
  - exists 0%nat, [], (inr tt), w. simpl. rewrite !app_nil_r.
    repeat split; auto.
  - simpl. unfold bind at 1. unfold bind at 1.
    unfold VectorStore._get_embedding at 1. simpl.
    destruct (embed_content (events w) (meta_content doc)) as [v|] eqn:Hv.
    + simpl.
      match goal with
      | |- context [for_each docs ?body ?w1] =>
          destruct (IH w1) as (n & vs & out & w' & Hrun & Hn & Hvs & He & Hd & Hout)
      end.
      exists (S n), (v :: vs), out, w'. simpl in *.
      split; [exact Hrun|]. split; [lia|]. split; [now rewrite Hvs|].
      split; [now rewrite He, <- app_assoc|].
      split; [now rewrite Hd, <- app_assoc|].
      destruct Hout as [(-> & -> & Hev) | (-> & Hlt & Hev & Hfail)].
      * left. repeat split. now rewrite Hev, <- app_assoc.
      * right. split; [reflexivity|]. split; [lia|].
        split; [now rewrite Hev, <- app_assoc | exact Hfail].
    + exists 0%nat, [], (inl ProviderError). eexists. simpl.
      split; [reflexivity|]. rewrite !app_nil_r.
      repeat split; auto; try lia. right.
      split; [reflexivity|]. split; [lia|]. split; [reflexivity|]. eauto.
Qed.

End AddDocuments.



Lemma add_documents_run `{Env} (docs : list chunk_meta) (w : world) :
  exists (n : nat) (out : exn + unit) (w' : world),
    VectorStore.add_documents docs w = (out, w')
    /\ extends w w'
    /\ documents w' = documents w ++ map stored (firstn n docs)
    /\ ((out = inr tt /\ n = length docs)
        \/ (out = inl ProviderError /\ (n < length docs)%nat
            /\ events w' = events w ++ embed_events (firstn (S n) docs)
            /\ exists history text, embed_content history text = None)).
Proof.
  destruct docs as [|doc docs].
  - exists 0%nat, (inr tt), w. simpl. rewrite app_nil_r.
    repeat split; auto using extends_refl.
  - unfold VectorStore.add_documents.
    destruct (add_loop_spec (doc :: docs) w)
      as (n & vs & out & w1 & Hrun & Hn & Hvs & He & Hd & Hout).
    unfold bind at 1.
    change (fun doc0 : chunk_meta => _) with
      (fun doc0 : chunk_meta =>
         let! embedding := VectorStore._get_embedding (meta_content doc0) in
         VectorStore.append_entry embedding (stored doc0)).
    rewrite Hrun.
    assert (Hext : extends w w1).
    { exists vs, (map stored (firstn n (doc :: docs))).
      repeat split; auto. rewrite length_map, length_firstn. lia. }
    destruct Hout as [(-> & -> & Hev) | (-> & Hlt & Hev & Hfail)].
    + exists (length (doc :: docs)), (inr tt). eexists.
      unfold VectorStore._save_data, log_event. simpl.
      split; [reflexivity|]. split; [exact Hext|]. split; [exact Hd|]. auto.
    + exists n, (inl ProviderError), w1.
      split; [reflexivity|]. split; [exact Hext|]. split; [exact Hd|]. auto.
Qed.

(** X2. Whatever the outcome, [add_documents] only adds at the end of the
    index: the vectors and records stored before are still there, in
    place, and as many vectors as records were added, so an index with one
    vector per chunk stays so. *)
Theorem add_documents_extends `{Env} (docs : list chunk_meta) (w : world) :
  extends w (snd (VectorStore.add_documents docs w))
  /\ (paired w -> paired (snd (VectorStore.add_documents docs w))).
Proof.
  destruct (add_documents_run docs w) as (n & out & w' & Hrun & Hext & _).
  rewrite Hrun. simpl. split; [exact Hext|]. now apply extends_paired.
Qed.

Lemma add_documents_extends_witness :
  paired (snd (@VectorStore.add_documents Demo2.env_flaky Demo2.batch
                 Demo.world3)).
Proof.
  apply (@add_documents_extends Demo2.env_flaky Demo2.batch Demo.world3).
  reflexivity.
Defined.

(** X3. When [add_documents] raises, it is the provider's error, raised at
    the first chunk that could not be embedded: the chunks before it are
    in the index, in memory only, since the events of the call are
    embedding requests and no save. *)
Theorem add_documents_failure_unsaved `{Env} (docs : list chunk_meta)
    (w : world) (e : exn) :
  fst (VectorStore.add_documents docs w) = inl e ->
  e = ProviderError
  /\ exists n,
       (n < length docs)%nat
       /\ documents (snd (VectorStore.add_documents docs w))
          = documents w ++ map stored (firstn n docs)
       /\ events (snd (VectorStore.add_documents docs w))
          = events w ++ embed_events (firstn (S n) docs)
       /\ existsb is_save (embed_events (firstn (S n) docs)) = false.
Proof.
  destruct (add_documents_run docs w)
    as (n & out & w' & Hrun & _ & Hd & Hout).
  rewrite Hrun. simpl. intros ->.
  destruct Hout as [(Hout & _) | (Hout & Hlt & Hev & _)]; [discriminate|].
  injection Hout as ->. split; [reflexivity|].
  exists n. split; [exact Hlt|]. split; [exact Hd|]. split; [exact Hev|].
  clear. unfold embed_events. induction (firstn (S n) docs); simpl; auto.
Qed.

Lemma add_documents_failure_unsaved_witness :
  map content
    (documents (snd (@VectorStore.add_documents Demo2.env_flaky Demo2.batch
                       Demo.empty_world))) = ["alpha"]
  /\ events (snd (@VectorStore.add_documents Demo2.env_flaky Demo2.batch
                    Demo.empty_world))
     = [EmbedContent "alpha"; EmbedContent "beta"].
Proof.
  destruct (@add_documents_failure_unsaved Demo2.env_flaky Demo2.batch
              Demo.empty_world ProviderError eq_refl)
    as (_ & n & Hn & Hd & Hev & _).
  split; vm_compute; reflexivity.
Defined.

(** ** Searching the index *)

Lemma search_world `{Env} (query : string) (top_k : option Z)
    (w : world) :
  embeddings (snd (VectorStore.search query top_k w)) = embeddings w
  /\ documents (snd (VectorStore.search query top_k w)) = documents w
  /\ events (snd (VectorStore.search query top_k w))
     = match embeddings w with
       | [] => events w
       | _ => events w ++ [EmbedContent query]
       end.
Proof.
  unfold VectorStore.search.
  destruct (embeddings w) as [|e es] eqn:Hembs; simpl; [auto|].
  unfold bind, VectorStore._get_embedding. simpl.
  destruct (embed_content (events w) query) as [v|]; simpl; [|auto].
  destruct (VectorStore.shapes_agree v (e :: es)); simpl; auto.
Qed.

(** X4. [search] never changes the index: whatever it returns or raises,
    the vectors and the records are the ones it found, and nothing is
    saved. It makes no provider call on an empty index and exactly one
    embedding request, for the query, otherwise. *)
Theorem search_reads_only `{Env} (query : string) (top_k : option Z)
    (w : world) :
  embeddings (snd (VectorStore.search query top_k w)) = embeddings w
  /\ documents (snd (VectorStore.search query top_k w)) = documents w
  /\ events (snd (VectorStore.search query top_k w))
     = match embeddings w with
       | [] => events w
       | _ => events w ++ [EmbedContent query]
       end.
Proof. apply search_world. Qed.

(** X5. On a non-empty index, [search] raises the provider's error when
    the query cannot be embedded, and [ValueError] when the query vector
    is empty or a stored vector has another dimension than the query
    vector. *)
Theorem search_errors `{Env} (query : string) (top_k : option Z) (w : world) :
  embeddings w <> [] ->
  (embed_content (events w) query = None ->
   fst (VectorStore.search query top_k w) = inl ProviderError)
  /\ (forall v,
        embed_content (events w) query = Some v ->
        (v = [] \/ exists u, In u (embeddings w) /\ length u <> length v) ->
        fst (VectorStore.search query top_k w) = inl ValueError).
Proof.
  intros Hne. unfold VectorStore.search.
  destruct (embeddings w) as [|e es] eqn:Hembs; [congruence|].
  unfold bind, VectorStore._get_embedding. simpl. split.
  - intros ->. reflexivity.
  - intros v -> Hbad. simpl.
    replace (VectorStore.shapes_agree v (e :: es)) with false; [reflexivity|].
    symmetry. unfold VectorStore.shapes_agree.
    destruct Hbad as [-> | (u & Hu & Hlen)]; [reflexivity|].
    apply andb_false_iff. right.
    apply not_true_is_false. intros Hall.
    rewrite forallb_forall in Hall. specialize (Hall u Hu).
    apply Nat.eqb_eq in Hall. contradiction.
Qed.

Lemma search_errors_witness :
  fst (@VectorStore.search Demo2.env_flaky "abc" None
         {| embeddings := embeddings Demo.world3;
            documents := documents Demo.world3;
            events := [EmbedContent "earlier"] |}) = inl ProviderError
  /\ fst (@VectorStore.search Demo.env "abc" None
            {| embeddings := [[1; 0; 0]]%Q;
               documents := [Demo.doc "a.pdf" "first" 0];
               events := [] |}) = inl ValueError.
Proof.
  split.
  - refine (proj1 (@search_errors Demo2.env_flaky "abc" None _ _) _);
      [discriminate | reflexivity].
  - refine (proj2 (@search_errors Demo.env "abc" None _ _)
              (Demo.embed "abc") _ _); [discriminate | reflexivity |].
    right. exists [1; 0; 0]%Q. split; [now left | simpl; lia].
Defined.

(** X6. On a well-formed index, once the query is embedded, [search]
    returns the entries at the indices of a ranking that names no entry
    twice, names stored entries only, and names the best ones: an entry
    left out has at most the similarity of every entry returned. *)
Theorem search_returns_best `{Env} (w : world) (dim : nat) (query : string)
    (v : list Q) (top_k : option Z) :
  argsort_contract argsort -> well_formed dim w ->
  embed_content (events w) query = Some v -> length v = dim ->
  let sims := map (cosine_similarity v) (embeddings w) in
  let ranking :=
    VectorStore.top_indices sims (default TOP_K_RESULTS top_k) in
  fst (VectorStore.search query top_k w)
  = inr (VectorStore.format_results (documents w) sims ranking)
  /\ NoDup ranking
  /\ (forall i, In i ranking -> (i < length (documents w))%nat)
  /\ (forall i j,
        In i ranking -> (j < length (documents w))%nat -> ~ In j ranking ->
        (value_at sims j <= value_at sims i)%Q).
Proof.
  intros Hsort Hwf Hv Hdim sims ranking.
  assert (Hn : length sims = length (documents w)).
  { unfold sims. rewrite length_map. apply Hwf. }
  destruct (top_indices_split sims (default TOP_K_RESULTS top_k) Hsort)
    as (rest & Hperm & Hsorted).
  fold ranking in Hperm, Hsorted.
  assert (Hnodup : NoDup (ranking ++ rest)).
  { apply NoDup_ListNoDup.
    apply (Permutation_NoDup (Permutation_sym Hperm)), List.seq_NoDup. }
  split; [now apply search_run with (dim := dim)|].
  split; [apply NoDup_app in Hnodup; apply Hnodup|].
  split.
  - intros i Hi. rewrite <- Hn.
    assert (Hin : In i (seq 0 (length sims))).
    { apply (Permutation_in _ Hperm), in_or_app. now left. }
    apply in_seq in Hin. lia.
  - intros i j Hi Hj Hnot.
    assert (Hin : In j (ranking ++ rest)).
    { apply (Permutation_in _ (Permutation_sym Hperm)), in_seq. lia. }
    apply in_app_or in Hin as [Hin | Hin]; [contradiction|].
    apply (StronglySorted_app_1_elem_of _ _ _ i j Hsorted);
      now apply list_elem_of_In.
Qed.

Lemma search_returns_best_witness :
  fst (@VectorStore.search Demo.env "abc" (Some 2) Demo.world3)
  = inr (VectorStore.format_results (documents Demo.world3)
           (map (Demo.inner (Demo.embed "abc")) (embeddings Demo.world3))
           [1; 0]%nat).
Proof.
  refine (proj1 (@search_returns_best Demo.env Demo.world3 2%nat "abc"
                   (Demo.embed "abc") (Some 2)
                   argsort_stable_contract _ _ _)).
  - repeat split; [simpl; lia | repeat constructor].
  - reflexivity.
  - reflexivity.
Defined.

Lemma format_results_origin docs sims idxs r :
  In r (VectorStore.format_results docs sims idxs) ->
  exists i doc s,
    docs !! i = Some doc /\ sims !! i = Some s
    /\ r = {| res_content := content doc; res_source := source doc;
              res_page := page doc; res_chunk_id := chunk_id doc;
              similarity := s; distance := (1 - s)%Q |}.
Proof.
  unfold VectorStore.format_results. intros Hr.
  apply in_flat_map in Hr as (i & _ & Hr).
  destruct (docs !! i) as [doc|] eqn:Hdoc; [|destruct Hr].
  destruct (sims !! i) as [s|] eqn:Hs; [|destruct Hr].
  destruct Hr as [<- | []]. exists i, doc, s. auto.
Qed.

Lemma search_returned `{Env} (query : string) (top_k : option Z)
    (w : world) (results : list search_result) :
  fst (VectorStore.search query top_k w) = inr results ->
  results = []
  \/ exists qv,
       embed_content (events w) query = Some qv
       /\ results
          = VectorStore.format_results (documents w)
              (map (cosine_similarity qv) (embeddings w))
              (VectorStore.top_indices
                 (map (cosine_similarity qv) (embeddings w))
                 (default TOP_K_RESULTS top_k)).
Proof.
  unfold VectorStore.search.
  destruct (embeddings w) as [|e es] eqn:Hembs.
  - simpl. intros Hres. injection Hres as <-. now left.
  - unfold bind, VectorStore._get_embedding.
    destruct (embed_content (events w) query) as [qv|]; [|discriminate].
    cbn [log_event fst snd].
    destruct (VectorStore.shapes_agree qv (e :: es)); [|discriminate].
    unfold ret. cbn [fst]. intros Hres. injection Hres as <-.
    right. exists qv. split; reflexivity.
Qed.

(** X7. Every result [search] returns is read off a stored entry: its
    content, source, page and chunk id are those of the record at some
    index, its similarity is the cosine of the query vector with the
    vector at that index, and its distance is one minus that. *)
Theorem search_results_stored `{Env} (query : string) (top_k : option Z)
    (w : world) (results : list search_result) :
  fst (VectorStore.search query top_k w) = inr results ->
  forall r, In r results ->
    exists (i : nat) (doc : document) (u qv : list Q),
      embed_content (events w) query = Some qv
      /\ documents w !! i = Some doc
      /\ embeddings w !! i = Some u
      /\ res_content r = content doc
      /\ res_source r = source doc
      /\ res_page r = page doc
      /\ res_chunk_id r = chunk_id doc
      /\ similarity r = cosine_similarity qv u
      /\ distance r = (1 - similarity r)%Q.
Proof.
  intros Hres r Hr.
  apply search_returned in Hres as [-> | (qv & Hqv & ->)]; [destruct Hr|].
  apply format_results_origin in Hr as (i & doc & s & Hdoc & Hs & ->).
  change (map (cosine_similarity qv) (embeddings w))
    with (cosine_similarity qv <$> embeddings w) in Hs.
  rewrite list_lookup_fmap in Hs.
  destruct (embeddings w !! i) as [u|] eqn:Hu; [|discriminate].
  injection Hs as <-.
  exists i, doc, u, qv. simpl. repeat split; auto.
Qed.

Lemma search_results_stored_witness :
  exists i doc,
    documents Demo.world3 !! i = Some doc /\ content doc = "second".
Proof.
  destruct (@search_results_stored Demo.env "abc" (Some 1) Demo.world3
              [{| res_content := "second"; res_source := "a.pdf";
                  res_page := 1; res_chunk_id := "a.pdf-c0";
                  similarity := Demo.inner (Demo.embed "abc") [1; 0]%Q;
                  distance := (1 - Demo.inner (Demo.embed "abc") [1; 0])%Q |}]
              eq_refl _ (or_introl eq_refl))
    as (i & doc & _ & _ & _ & Hdoc & _ & Hc & _).
  exists i, doc. split; [exact Hdoc | now rewrite <- Hc].
Defined.

(** X8. A negative [top_k] is a slice bound counted from the end: on a
    well-formed index of [n] entries [search] then returns the [n + top_k]
    best entries, none when that is not positive. *)
Theorem search_negative_top_k `{Env} (w : world) (dim : nat)
    (query : string) (v : list Q) (k : Z) :
  argsort_contract argsort -> well_formed dim w ->
  embed_content (events w) query = Some v -> length v = dim ->
  k < 0 ->
  exists results,
    fst (VectorStore.search query (Some k) w) = inr results
    /\ Z.of_nat (length results)
       = Z.max 0 (Z.of_nat (length (documents w)) + k).
Proof.
  intros Hsort Hwf Hv Hdim Hk. eexists.
  split; [apply (search_run w dim query v (Some k)); assumption|]. simpl.
  set (sims := map (cosine_similarity v) (embeddings w)).
  assert (Hn : length sims = length (documents w)).
  { unfold sims. rewrite length_map. apply Hwf. }
  rewrite format_results_length.
  - destruct (Hsort sims) as [Hperm _].
    apply Permutation_length in Hperm. rewrite length_seq in Hperm.
    unfold VectorStore.top_indices, Py.list_slice_to, Py.slice_index.
    rewrite length_firstn, length_rev, Hperm, Hn.
    destruct (Z.ltb_spec k 0); lia.
  - eapply Forall_impl; [apply top_indices_in_range, Hsort|].
    simpl. intros i Hi. lia.
Qed.

Lemma search_negative_top_k_witness :
  exists results,
    fst (@VectorStore.search Demo.env "abc" (Some (-1)) Demo.world3)
    = inr results
    /\ Z.of_nat (length results) = 2.
Proof.
  apply (@search_negative_top_k Demo.env Demo.world3 2%nat "abc"
           (Demo.embed "abc") (-1) argsort_stable_contract).
  - repeat split; [simpl; lia | repeat constructor].
  - reflexivity.
  - reflexivity.
  - lia.
Defined.

(** ** Sources and statistics *)

Lemma processed_iff_source (w : world) (filename : string) :
  VectorStore.is_document_processed w filename = true
  <-> In filename (map source (documents w)).
Proof.
  unfold VectorStore.is_document_processed.
  rewrite existsb_exists, in_map_iff. split.
  - intros (doc & Hdoc & Heq). apply String.eqb_eq in Heq. eauto.
  - intros (doc & Heq & Hdoc). exists doc. split; [exact Hdoc|].
    now apply String.eqb_eq.
Qed.

Lemma listed_iff_source (w : world) (s : string) :
  In s (VectorStore.list_documents w) <-> In s (map source (documents w)).
Proof.
  unfold VectorStore.list_documents.
  rewrite <- !list_elem_of_In, merge_sort_Permutation, elem_of_elements,
    unique_sources_eq, elem_of_list_to_set. reflexivity.
Qed.

(** X9. [is_document_processed] and [list_documents] agree: a file name
    counts as processed exactly when [list_documents] lists it, that is,
    when some stored chunk has it as its source, letter for letter. *)
Theorem processed_iff_listed (w : world) (filename : string) :
  VectorStore.is_document_processed w filename = true
  <-> In filename (VectorStore.list_documents w).
Proof. now rewrite processed_iff_source, listed_iff_source. Qed.

Lemma get_stats_counts_aux (w : world) :
  fst (VectorStore.get_stats w) = length (documents w)
  /\ snd (VectorStore.get_stats w) = length (VectorStore.list_documents w)
  /\ (snd (VectorStore.get_stats w) <= fst (VectorStore.get_stats w))%nat.
Proof.
  assert (Hlen : size (VectorStore.unique_sources w)
                 = length (VectorStore.list_documents w)).
  { unfold VectorStore.list_documents, size, set_size. simpl.
    now rewrite merge_sort_Permutation. }
  assert (Hle : (length (VectorStore.list_documents w)
                 <= length (map source (documents w)))%nat).
  { apply NoDup_incl_length.
    - apply NoDup_ListNoDup. unfold VectorStore.list_documents.
      rewrite merge_sort_Permutation. apply NoDup_elements.
    - intros s Hs. now apply listed_iff_source. }
  rewrite length_map in Hle.
  unfold VectorStore.get_stats. simpl. rewrite Hlen. auto.
Qed.

(** X10. [get_stats] counts the stored chunks and the distinct sources:
    the document count is the length of [list_documents], it is at most
    the chunk count, and it is zero exactly when no chunk is stored. *)
Theorem get_stats_counts (w : world) :
  fst (VectorStore.get_stats w) = length (documents w)
  /\ snd (VectorStore.get_stats w) = length (VectorStore.list_documents w)
  /\ (snd (VectorStore.get_stats w) <= fst (VectorStore.get_stats w))%nat
  /\ (snd (VectorStore.get_stats w) = 0%nat
      <-> fst (VectorStore.get_stats w) = 0%nat).
Proof.
  destruct (get_stats_counts_aux w) as (Hc & Hd & Hle).
  repeat split; auto.
  - rewrite Hc, Hd. intros Hzero.
    destruct (documents w) as [|doc docs] eqn:Hdocs; [reflexivity|].
    assert (Hin : In (source doc) (VectorStore.list_documents w)).
    { apply listed_iff_source. rewrite Hdocs. now left. }
    destruct (VectorStore.list_documents w); [destruct Hin | discriminate].
  - intros Hzero. lia.
Qed.

(** ** Running the ingestion *)

Section Ingestion.
Context `{Env}.

Lemma grows_by_refl (P : string -> Prop) (w : world) : grows_by P w w.
Proof. exists [], []. rewrite !app_nil_r. repeat split; auto. Qed.

Lemma grows_by_trans (P : string -> Prop) (w1 w2 w3 : world) :
  grows_by P w1 w2 -> grows_by P w2 w3 -> grows_by P w1 w3.
Proof.
  intros (vs & ds & Hv & Hd & Hl & HP) (vs' & ds' & Hv' & Hd' & Hl' & HP').
  exists (vs ++ vs'), (ds ++ ds'). rewrite Hv', Hd', Hv, Hd.
  rewrite <- !app_assoc, !length_app.
  repeat split; auto. apply Forall_app. auto.
Qed.

Lemma grows_by_weaken (P Q : string -> Prop) (w w' : world) :
  (forall s, P s -> Q s) -> grows_by P w w' -> grows_by Q w w'.
Proof.
  intros Himp (vs & ds & Hv & Hd & Hl & HP).
  exists vs, ds. repeat split; auto.
  eapply Forall_impl; [exact HP|]. simpl. auto.
Qed.

Lemma grows_by_extends (P : string -> Prop) (w w' : world) :
  grows_by P w w' -> extends w w'.
Proof. intros (vs & ds & Hv & Hd & Hl & _). exists vs, ds. auto. Qed.

Lemma grows_by_processed (P : string -> Prop) (w w' : world) (f : string) :
  grows_by P w w' ->
  VectorStore.is_document_processed w f = true ->
  VectorStore.is_document_processed w' f = true.
Proof.
  intros (vs & ds & _ & Hd & _) Hf. apply processed_iff_source.
  apply processed_iff_source in Hf. rewrite Hd, map_app.
  apply in_or_app. now left.
Qed.

Lemma extract_text_eq (filename : string) (w : world) :
  Ingestor.extract_text_from_pdf filename w
  = match pdf_pages filename with
    | None => (inl ExtractionError, w)
    | Some pages => (inr (page_chunks pages), w)
    end.
Proof.
  unfold Ingestor.extract_text_from_pdf.
  destruct (pdf_pages filename); reflexivity.
Qed.

(** What [process_pdf] does to the world. *)
Lemma process_pdf_run (filename : string) (w : world) :
  exists out w',
    Ingestor.process_pdf filename w = (out, w')
    /\ grows_by (fun s => s = filename) w w'
    /\ (barren filename -> w' = w)
    /\ (out = inr tt -> ~ barren filename ->
        VectorStore.is_document_processed w' filename = true)
    /\ (out <> inr tt -> ~ barren filename ->
        exists history text, embed_content history text = None).
Proof.
  unfold Ingestor.process_pdf, bind, barren. rewrite extract_text_eq.
  destruct (pdf_pages filename) as [pages|].
  - destruct (page_chunks pages) as [|c cs] eqn:Hchunks.
    + exists (inr tt), w. unfold ret.
      repeat split; auto using grows_by_refl; congruence.
    + set (metas := map _ (c :: cs)).
      destruct (add_documents_run metas w)
        as (n & out & w' & Hrun & (vs & ds & Hv & Hd' & Hl) & Hd & Hout).
      exists out, w'. split; [exact Hrun|].
      assert (Hsrc : Forall (fun d => source d = filename)
                       (map stored (firstn n metas))).
      { apply List.Forall_forall. intros d Hd0.
        apply in_map_iff in Hd0 as (m & <- & Hm).
        apply In_firstn in Hm. unfold metas in Hm.
        apply in_map_iff in Hm as (cd & <- & _). reflexivity. }
      split.
      { exists vs, (map stored (firstn n metas)).
        rewrite Hd in Hd'. apply app_inv_head in Hd'. subst ds.
        repeat split; auto. }
      split; [intros Hb; discriminate|].
      split.
      * intros -> _.
        destruct Hout as [(_ & ->) | (Hout & _)]; [|discriminate].
        apply processed_iff_source. rewrite Hd, firstn_all, map_app.
        apply in_or_app. right. unfold metas. simpl. now left.
      * intros Hne _.
        destruct Hout as [(-> & _) | (_ & _ & _ & Hfail)];
          [congruence | exact Hfail].
  - exists (inl ExtractionError), w.
    repeat split; auto using grows_by_refl; try congruence.
    intros _ Hnb. exfalso. apply Hnb. exact I.
Qed.

End Ingestion.

Section IngestionRuns.
Context `{Env}.

Lemma process_one_run (f : string) (w : world) :
  exists w',
    Ingestor.process_one f w = (inr tt, w')
    /\ grows_by (fun s => s = f
                          /\ VectorStore.is_document_processed w s = false)
         w w'
    /\ (provider_answers ->
        VectorStore.is_document_processed w' f = true \/ barren f).
Proof.
  unfold Ingestor.process_one, try_except.
  destruct (VectorStore.is_document_processed w f) eqn:Hdone.
  - exists w. unfold ret. repeat split; auto using grows_by_refl.
  - destruct (process_pdf_run f w)
      as (out & w' & Hrun & Hgrow & Hbarren & Hok & Hfail).
    rewrite Hrun.
    assert (Hgrow' : grows_by
              (fun s => s = f
                        /\ VectorStore.is_document_processed w s = false)
              w w').
    { eapply grows_by_weaken; [|exact Hgrow].
      intros s ->. auto. }
    assert (Hprov : provider_answers ->
              VectorStore.is_document_processed w' f = true \/ barren f).
    { intros Hp.
      assert (Hdec : barren f \/ ~ barren f).
      { unfold barren. destruct (pdf_pages f) as [pages|]; [|now left].
        destruct (page_chunks pages); [now left | right; discriminate]. }
      destruct Hdec as [Hb | Hnb]; [now right|]. left.
      destruct out as [e | []].
      - destruct (Hfail ltac:(discriminate) Hnb) as (h & t & Hnone).
        destruct (Hp h t Hnone).
      - now apply Hok. }
    destruct out as [e | []]; exists w'; unfold ret; auto.
Qed.

Lemma for_each_process_one (files : list string) (w : world) :
  exists w',
    for_each files Ingestor.process_one w = (inr tt, w')
    /\ grows_by (fun s => In s files
                          /\ VectorStore.is_document_processed w s = false)
         w w'
    /\ (provider_answers ->
        forall f, In f files ->
          VectorStore.is_document_processed w' f = true \/ barren f).
Proof.
  revert w. induction files as [|f files IH]; intros w.
  - exists w. simpl. unfold ret.
    split; [reflexivity|]. split; [apply grows_by_refl|]. intros _ f [].
  - simpl. unfold bind.
    destruct (process_one_run f w) as (w1 & Hrun & Hgrow & Hprov).
    rewrite Hrun.
    destruct (IH w1) as (w2 & Hrun2 & Hgrow2 & Hprov2).
    exists w2. split; [exact Hrun2|]. split.
    + eapply grows_by_trans.
      * eapply grows_by_weaken; [|exact Hgrow].
        intros s [-> Hs]. split; [now left | exact Hs].
      * eapply grows_by_weaken; [|exact Hgrow2].
        intros s [Hs Hnot]. split; [now right|].
        destruct (VectorStore.is_document_processed w s) eqn:Hws; [|reflexivity].
        rewrite (grows_by_processed _ _ _ _ Hgrow Hws) in Hnot. discriminate.
    + intros Hp g [<- | Hg].
      * destruct (Hprov Hp) as [Hdone | Hb]; [left | now right].
        eapply grows_by_processed; eauto.
      * now apply Hprov2.
Qed.

Lemma process_one_settled (f : string) (w : world) :
  VectorStore.is_document_processed w f = true \/ barren f ->
  Ingestor.process_one f w = (inr tt, w).
Proof.
  intros Hs. unfold Ingestor.process_one, try_except.
  destruct (VectorStore.is_document_processed w f) eqn:Hdone; [reflexivity|].
  destruct Hs as [Hs | Hb]; [discriminate|].
  destruct (process_pdf_run f w) as (out & w' & Hrun & _ & Hbarren & _).
  rewrite Hrun, (Hbarren Hb). destruct out as [e | []]; reflexivity.
Qed.

Lemma for_each_settled (files : list string) (w : world) :
  (forall f, In f files ->
     VectorStore.is_document_processed w f = true \/ barren f) ->
  for_each files Ingestor.process_one w = (inr tt, w).
Proof.
  induction files as [|f files IH]; intros Hall; simpl; [reflexivity|].
  unfold bind. rewrite process_one_settled by (apply Hall; now left).
  apply IH. intros g Hg. apply Hall. now right.
Qed.

End IngestionRuns.

Lemma folder_run `{Env} (names : list string) (w : world) :
  listdir (events w) = Some names ->
  Ingestor.process_pdfs_folder w
  = for_each (List.filter Ingestor.is_pdf names) Ingestor.process_one w.
Proof.
  intros Hls. unfold Ingestor.process_pdfs_folder. rewrite Hls.
  destruct (List.filter Ingestor.is_pdf names); reflexivity.
Qed.

(** X11. [process_pdfs_folder] raises only when the folder cannot be
    listed, and then nothing was done. Otherwise it returns normally,
    whatever happened to single files, and only adds to the index: what
    was stored stays in place, one vector comes with each new record, and
    every new record has as its source a name of the listing that ends in
    ".pdf" (in any letter case) and was not a stored source before. *)
Theorem ingestion_isolates_failures `{Env} (w : world) :
  (listdir (events w) = None ->
   Ingestor.process_pdfs_folder w = (inl OSError, w))
  /\ (forall names,
        listdir (events w) = Some names ->
        exists w',
          Ingestor.process_pdfs_folder w = (inr tt, w')
          /\ grows_by (fun s => In s names /\ Ingestor.is_pdf s = true
                        /\ VectorStore.is_document_processed w s = false)
               w w'
          /\ (paired w -> paired w')).
Proof.
  unfold Ingestor.process_pdfs_folder. split.
  - intros ->. reflexivity.
  - intros names ->.
    destruct (for_each_process_one (List.filter Ingestor.is_pdf names) w)
      as (w' & Hrun & Hgrow & _).
    exists w'.
    assert (Hgrow' : grows_by
              (fun s => In s names /\ Ingestor.is_pdf s = true
                        /\ VectorStore.is_document_processed w s = false)
              w w').
    { eapply grows_by_weaken; [|exact Hgrow].
      intros s [Hs Hnot]. apply filter_In in Hs as [Hin Hpdf]. auto. }
    split.
    + destruct (List.filter Ingestor.is_pdf names) eqn:Hfiles;
        [|exact Hrun].
      simpl in Hrun. exact Hrun.
    + split; [exact Hgrow'|].
      apply extends_paired. eapply grows_by_extends, Hgrow'.
Qed.

Lemma ingestion_isolates_failures_witness :
  exists w',
    @Ingestor.process_pdfs_folder Demo2.env_flaky Demo.world3 = (inr tt, w')
    /\ paired w'.
Proof.
  destruct (proj2 (@ingestion_isolates_failures Demo2.env_flaky Demo.world3)
              ["policy.pdf"; "notes.txt"] eq_refl)
    as (w' & Hrun & _ & Hpaired).
  exists w'. split; [exact Hrun|]. apply Hpaired. reflexivity.
Defined.

(** X12. When the provider answers every embedding request and the
    folder lists the same names, a second run of the ingestion right
    after a first one changes nothing: every file of the first run is
    either a stored source now, and skipped, or gives no chunk again. *)
Theorem ingestion_idempotent `{Env} (names : list string) (w : world) :
  provider_answers ->
  (forall history, listdir history = Some names) ->
  Ingestor.process_pdfs_folder (snd (Ingestor.process_pdfs_folder w))
  = (inr tt, snd (Ingestor.process_pdfs_folder w)).
Proof.
  intros Hprov Hls.
  rewrite !(folder_run names) by apply Hls.
  destruct (for_each_process_one (List.filter Ingestor.is_pdf names) w)
    as (w1 & Hrun & _ & Hdone).
  rewrite Hrun. simpl. apply for_each_settled. now apply Hdone.
Qed.

Lemma ingestion_idempotent_witness :
  @Ingestor.process_pdfs_folder Demo.env Demo.ingested
  = (inr tt, Demo.ingested).
Proof.
  apply (@ingestion_idempotent Demo.env ["policy.pdf"; "notes.txt"]
           Demo.empty_world).
  - intros history text. discriminate.
  - reflexivity.
Defined.

(** ** The query pipeline, further *)

Section QueryRuns.
Context `{Env}.

Lemma only_calls_refl (w : world) : only_calls w w.
Proof.
  repeat split; auto. exists []. now rewrite app_nil_r.
Qed.

Lemma only_calls_trans (w1 w2 w3 : world) :
  only_calls w1 w2 -> only_calls w2 w3 -> only_calls w1 w3.
Proof.
  intros (He & Hd & new & Hev & Hs) (He' & Hd' & new' & Hev' & Hs').
  split; [congruence|]. split; [congruence|].
  exists (new ++ new'). rewrite Hev', Hev, <- app_assoc. split; [reflexivity|].
  rewrite existsb_app, Hs, Hs'. reflexivity.
Qed.

Lemma only_calls_log (e : event) (w : world) :
  is_save e = false ->
  only_calls w {| embeddings := embeddings w; documents := documents w;
                  events := events w ++ [e] |}.
Proof.
  intros He. repeat split; auto. exists [e]. simpl. now rewrite He.
Qed.

Lemma call_model_calls (prompt : string) (w : world) :
  only_calls w (snd (QueryHandler.call_model prompt w)).
Proof.
  unfold QueryHandler.call_model. simpl.
  destruct (generate_content (events w) prompt); simpl;
    now apply only_calls_log.
Qed.

Lemma search_calls (query : string) (top_k : option Z) (w : world) :
  only_calls w (snd (VectorStore.search query top_k w)).
Proof.
  destruct (search_world query top_k w) as (He & Hd & Hev).
  split; [exact He|]. split; [exact Hd|]. rewrite Hev.
  destruct (embeddings w).
  - exists []. now rewrite app_nil_r.
  - exists [EmbedContent query]. auto.
Qed.

Lemma make_decision_calls (query : string) (info : json)
    (results : list search_result) (w : world) :
  only_calls w (snd (QueryHandler._make_decision query info results w)).
Proof.
  rewrite make_decision_run. cbn [snd]. now apply only_calls_log.
Qed.

Lemma process_query_calls (query : string) (w : world) :
  only_calls w (snd (QueryHandler.process_query query w)).
Proof.
  unfold QueryHandler.process_query, try_except, bind.
  rewrite parse_query_run.
  match goal with
  | |- context [VectorStore.search query (Some TOP_K_RESULTS) ?w0] =>
      set (w1 := w0)
  end.
  assert (H1 : only_calls w w1) by now apply only_calls_log.
  pose proof (search_calls query (Some TOP_K_RESULTS) w1) as H2.
  destruct (VectorStore.search query (Some TOP_K_RESULTS) w1)
    as [[e | results] w2]; simpl in *.
  - eapply only_calls_trans; eauto.
  - destruct results as [|best rest].
    + unfold ret. simpl. eapply only_calls_trans; eauto.
    + pose proof (make_decision_calls query
                    (default (JObj [])
                       (parsed_answer (events w) (parse_prompt query)))
                    (best :: rest) w2) as H3.
      destruct (QueryHandler._make_decision query _ (best :: rest) w2)
        as [[e | r] w3]; simpl in *;
        eapply only_calls_trans; eauto using only_calls_trans.
Qed.

End QueryRuns.

(** X13. Answering a query never touches the index: after [process_query]
    the vectors and records are the same, and the events it added are
    calls to the generation and embedding providers, never a save. *)
Theorem process_query_reads_only `{Env} (query : string) (w : world) :
  embeddings (snd (QueryHandler.process_query query w)) = embeddings w
  /\ documents (snd (QueryHandler.process_query query w)) = documents w
  /\ exists new,
       events (snd (QueryHandler.process_query query w)) = events w ++ new
       /\ existsb is_save new = false.
Proof. apply process_query_calls. Qed.

(** X14. [_parse_query] is best effort: it never raises, it makes exactly
    one generation call and changes nothing else, and it returns what the
    text of the answer parses to after the clean-up, and the empty
    dictionary exactly when there is no such value: the call fails, the
    answer has no text, or [json.loads] raises. *)
Theorem parse_query_best_effort `{Env} (query : string) (w : world) :
  exists w',
    QueryHandler._parse_query query w
    = (inr (default (JObj [])
              (parsed_answer (events w) (parse_prompt query))), w')
    /\ embeddings w' = embeddings w
    /\ documents w' = documents w
    /\ events w' = events w ++ [GenerateContent (parse_prompt query)].
Proof.
  rewrite parse_query_run. eexists. repeat split.
Qed.

Lemma ensure_fields_other (d : Dict.dict) (results : list search_result)
    (key : string) :
  key <> "decision" -> key <> "justification" -> key <> "alternatives" ->
  Dict.get key (QueryHandler.ensure_fields d results) = Dict.get key d.
Proof.
  intros H1 H2 H3. unfold QueryHandler.ensure_fields.
  repeat match goal with
         | |- context [if ?b then _ else _] => destruct b
         | |- context [match results with _ => _ end] => destruct results
         end;
    rewrite ?get_set_other by auto; reflexivity.
Qed.

Lemma ensure_fields_alternatives (d : Dict.dict)
    (results : list search_result) :
  Dict.get "alternatives" (QueryHandler.ensure_fields d results)
  = Some (default (JArr []) (Dict.get "alternatives" d)).
Proof.
  unfold QueryHandler.ensure_fields.
  match goal with
  | |- context [if Dict.mem "alternatives" ?x then _ else _] => set (d2 := x)
  end.
  assert (H2 : Dict.get "alternatives" d2 = Dict.get "alternatives" d).
  { subst d2.
    repeat match goal with
           | |- context [if ?b then _ else _] => destruct b
           | |- context [match results with _ => _ end] => destruct results
           end;
      rewrite ?get_set_other by discriminate; reflexivity. }
  destruct (Dict.mem "alternatives" d2) eqn:Hm.
  - apply mem_true in Hm as [v Hv]. rewrite Hv. rewrite <- H2, Hv. reflexivity.
  - rewrite get_set_same. rewrite <- H2, (mem_false _ _ Hm). reflexivity.
Qed.

(** X15. The result of [process_query] always has an [alternatives]
    field. When the search of this run returns results and the
    generation output of this run parses to an object that has the field,
    it is the value that object gives, as it is; in every other case it
    is the empty list. *)
Theorem process_query_alternatives `{Env} (query : string) (w : world) :
  exists r w',
    QueryHandler.process_query query w = (inr r, w')
    /\ QueryHandler.field "alternatives" r
       = Some match fst (searched query w) with
              | inr (best :: rest) =>
                  match decision_answer query w (best :: rest) with
                  | Some (JObj d) =>
                      default (JArr []) (Dict.get "alternatives" d)
                  | _ => JArr []
                  end
              | _ => JArr []
              end.
Proof.
  destruct (process_query_run query w) as (r & w' & Hrun & Hcase).
  exists r, w'. split; [exact Hrun|].
  unfold decision_answer, parsed_answer.
  destruct (fst (searched query w)) as [e | [|best rest]];
    [subst r; reflexivity | subst r; reflexivity |].
  rewrite make_decision_run in Hcase. cbn [fst] in Hcase.
  injection Hcase as <-.
  destruct (generate_content _ _) as [[[text|]]|]; try reflexivity.
  destruct (json_loads (QueryHandler.clean_response text)) as [e | j].
  - destruct (QueryHandler.is_value_error e); reflexivity.
  - destruct j as [| | | | | |d]; try reflexivity.
    simpl. apply ensure_fields_alternatives.
Qed.

Lemma process_query_alternatives_witness :
  exists r w',
    @QueryHandler.process_query Demo2.env_follow_up "abc" Demo.world3
    = (inr r, w')
    /\ QueryHandler.field "alternatives" r
       = Some (JArr [JObj [("source", JStr "policy.pdf");
                           ("clause", JStr "Page 1");
                           ("text", JStr "Is the insured under 60?")]]).
Proof.
  destruct (@process_query_alternatives Demo2.env_follow_up "abc"
              Demo.world3) as (r & w' & Hrun & Halt).
  exists r, w'. split; [exact Hrun|].
  rewrite Halt. vm_compute. reflexivity.
Defined.

(** X29. [_make_decision] skips the keyword fallback when the generation
    call fails, when the answer has no text, and when [json.loads] raises
    an exception that is no [ValueError], as [RecursionError] is: whatever
    the search results say, the decision is "Uncertain", there is no
    amount, and the justification is one citation that reports the
    processing error, with clause and source "N/A". *)
Theorem decision_error_uncertain `{Env} (query : string) (info : json)
    (results : list search_result) (w : world) :
  parsed_answer (events w)
    (decision_prompt query (json_dumps info) results) = None ->
  (forall text e,
     generate_content (events w)
       (decision_prompt query (json_dumps info) results)
     = Some {| response_text := Some text |} ->
     json_loads (QueryHandler.clean_response text) = inl e ->
     QueryHandler.is_value_error e = false) ->
  exists r reason,
    fst (QueryHandler._make_decision query info results w) = inr r
    /\ QueryHandler.field "decision" r = Some (JStr "Uncertain")
    /\ QueryHandler.field "amount" r = Some JNull
    /\ QueryHandler.field "justification" r
       = Some (JArr [QueryHandler.citation "N/A"
                       ("Processing error: " +:+ reason) "N/A"])
    /\ QueryHandler.field "alternatives" r = Some (JArr []).
Proof.
  intros Hnone Herr. rewrite make_decision_run. cbn [fst].
  unfold parsed_answer in Hnone.
  destruct (generate_content _ _) as [[[text|]]|].
  - destruct (json_loads (QueryHandler.clean_response text)) as [e | j] eqn:Hj;
      [|discriminate].
    rewrite (Herr text e eq_refl Hj).
    do 2 eexists. repeat split.
  - do 2 eexists. repeat split.
  - do 2 eexists. repeat split.
Qed.

Lemma decision_error_uncertain_witness :
  (exists r,
     fst (@QueryHandler._make_decision Demo2.env_deep "is it paid?" (JObj [])
            Demo.excluded_results Demo.empty_world) = inr r
     /\ QueryHandler.field "decision" r = Some (JStr "Uncertain"))
  /\ (exists r,
        fst (@QueryHandler._make_decision Demo2.env_no_text "is it paid?"
               (JObj []) Demo.excluded_results Demo.empty_world) = inr r
        /\ QueryHandler.field "decision" r = Some (JStr "Uncertain")).
Proof.
  split.
  - destruct (@decision_error_uncertain Demo2.env_deep "is it paid?"
                (JObj []) Demo.excluded_results Demo.empty_world)
      as (r & reason & Hr & Hdec & _).
    + reflexivity.
    + intros text e _ He. vm_compute in He. now injection He as <-.
    + eauto.
  - destruct (@decision_error_uncertain Demo2.env_no_text "is it paid?"
                (JObj []) Demo.excluded_results Demo.empty_world)
      as (r & reason & Hr & Hdec & _).
    + reflexivity.
    + intros text e Hgen. vm_compute in Hgen. discriminate.
    + eauto.
Defined.

(** X16. Completing the model's object never changes what the model
    sent: a field the object has keeps its value, except a justification
    that is not a list; and no field is made up besides [decision],
    [justification] and [alternatives] (so [amount] stays absent when the
    model left it out). *)
Theorem ensure_fields_keeps_model_fields (d : Dict.dict)
    (results : list search_result) (key : string) :
  (forall v,
     Dict.get key d = Some v ->
     key <> "justification" \/ QueryHandler.is_list (Some v) = true ->
     Dict.get key (QueryHandler.ensure_fields d results) = Some v)
  /\ (Dict.get key d = None ->
      key <> "decision" -> key <> "justification" ->
      key <> "alternatives" ->
      Dict.get key (QueryHandler.ensure_fields d results) = None).
Proof.
  split.
  - intros v Hv Hok.
    destruct (String.eqb_spec key "decision") as [-> | Hd].
    { rewrite ensure_fields_decision, Hv. reflexivity. }
    destruct (String.eqb_spec key "alternatives") as [-> | Ha].
    { rewrite ensure_fields_alternatives, Hv. reflexivity. }
    destruct (String.eqb_spec key "justification") as [-> | Hj].
    { rewrite ensure_fields_justification, Hv.
      destruct Hok as [Hne | ->]; [congruence | reflexivity]. }
    rewrite ensure_fields_other by assumption. exact Hv.
  - intros Hnone Hd Hj Ha. rewrite ensure_fields_other by assumption.
    exact Hnone.
Qed.

Lemma ensure_fields_keeps_model_fields_witness :
  Dict.get "details"
    (QueryHandler.ensure_fields [("details", JArr [JStr "limit"])]
       Demo.mixed_results) = Some (JArr [JStr "limit"])
  /\ Dict.get "amount"
       (QueryHandler.ensure_fields [("details", JArr [JStr "limit"])]
          Demo.mixed_results) = None.
Proof.
  split.
  - apply (proj1 (ensure_fields_keeps_model_fields
                    [("details", JArr [JStr "limit"])] Demo.mixed_results
                    "details")); [reflexivity | left; discriminate].
  - apply (proj2 (ensure_fields_keeps_model_fields
                    [("details", JArr [JStr "limit"])] Demo.mixed_results
                    "amount")); [reflexivity | discriminate..].
Defined.

(** ** The keyword decision *)

Lemma contains_tail (c : ascii) (sub s : string) :
  Py.contains (String c sub) s = true -> Py.contains sub s = true.
Proof.
  induction s as [|b s IH]; cbn [Py.contains]; intros Hc;
    apply orb_true_iff in Hc as [Hp | Hrest]; try discriminate.
  - simpl in Hp. destruct (ascii_dec c b); [|discriminate].
    apply orb_true_iff. right.
    destruct s as [|b' s]; cbn [Py.contains]; rewrite Hp; reflexivity.
  - rewrite (IH Hrest). apply orb_true_r.
Qed.

Lemma not_covered_covered (s : string) :
  Py.contains "not covered" s = true -> Py.contains "covered" s = true.
Proof.
  intros Hc. do 4 apply contains_tail in Hc. exact Hc.
Qed.

(** X17. The keyword decision is "Rejected" exactly when the text has
    none of "covered", "approved", "eligible" and has "excluded" or
    "rejected". The keyword "not covered" has no effect: a text with it
    has "covered" and is decided "Approved" or "Uncertain". *)
Theorem keyword_decision_rejected (s : string) :
  (QueryHandler.keyword_decision s = "Rejected"
   <-> Py.any_in ["covered"; "approved"; "eligible"] s = false
       /\ (Py.contains "excluded" s = true
           \/ Py.contains "rejected" s = true))
  /\ (Py.contains "not covered" s = true ->
      QueryHandler.keyword_decision s = "Approved"
      \/ QueryHandler.keyword_decision s = "Uncertain").
Proof.
  unfold QueryHandler.keyword_decision. split; [split|].
  - destruct (Py.any_in ["covered"; "approved"; "eligible"] s) eqn:Hok.
    + destruct (Py.any_in ["waiting"; "period"; "days"] s); discriminate.
    + destruct (Py.any_in ["excluded"; "not covered"; "rejected"] s) eqn:Hex;
        [|discriminate].
      intros _. split; [reflexivity|].
      unfold Py.any_in in Hex, Hok. cbn [existsb] in Hex, Hok.
      rewrite orb_false_r in Hex.
      apply orb_true_iff in Hex as [Hex | Hex]; [now left|].
      apply orb_true_iff in Hex as [Hex | Hex]; [|now right].
      apply not_covered_covered in Hex. rewrite Hex in Hok. discriminate.
  - intros [Hok Hex]. rewrite Hok.
    unfold Py.any_in. cbn [existsb].
    destruct Hex as [-> | ->]; rewrite ?orb_true_r; reflexivity.
  - intros Hnc. apply not_covered_covered in Hnc.
    assert (Hok : Py.any_in ["covered"; "approved"; "eligible"] s = true).
    { unfold Py.any_in. cbn [existsb]. now rewrite Hnc. }
    rewrite Hok.
    destruct (Py.any_in ["waiting"; "period"; "days"] s); auto.
Qed.

Lemma keyword_decision_rejected_witness :
  QueryHandler.keyword_decision "this treatment is not covered" = "Approved"
  \/ QueryHandler.keyword_decision "this treatment is not covered"
     = "Uncertain".
Proof.
  apply (proj2 (keyword_decision_rejected "this treatment is not covered")).
  reflexivity.
Defined.

(** ** The endpoints *)

(** X18. Every endpoint answers 200 or 500 and nothing else: a 503 or
    400 raised in an endpoint's try block is caught by its own handler and
    raised again as 500. In particular, when the component an endpoint
    needs was not set up, the answer is 500 and the world is untouched. *)
Theorem endpoints_answer_200_or_500 `{Env} (ready : bool) (query : string)
    (tasks : list (M unit)) (w : world) :
  (Api.status_code (fst (Api.process_query ready query w)) = 200
   \/ Api.status_code (fst (Api.process_query ready query w)) = 500)
  /\ (Api.status_code (fst (Endpoints.get_status ready w)) = 200
      \/ Api.status_code (fst (Endpoints.get_status ready w)) = 500)
  /\ (Api.status_code (fst (Endpoints.list_documents ready w)) = 200
      \/ Api.status_code (fst (Endpoints.list_documents ready w)) = 500)
  /\ (Api.status_code (fst (Endpoints.trigger_ingestion ready tasks w)) = 200
      \/ Api.status_code (fst (Endpoints.trigger_ingestion ready tasks w))
         = 500)
  /\ Api.process_query false query w = (inl (HTTPException 500), w)
  /\ Endpoints.get_status false w = (inl (HTTPException 500), w)
  /\ Endpoints.list_documents false w = (inl (HTTPException 500), w)
  /\ Endpoints.trigger_ingestion false tasks w
     = (inl (HTTPException 500), w).
Proof.
  split.
  { unfold Api.process_query, try_except.
    match goal with
    | |- context [match ?body w with _ => _ end] =>
        destruct (body w) as [[e | r] w']
    end; simpl; auto. }
  destruct ready; simpl; repeat split; auto.
Qed.

(** X19. With the store set up, the status and documents endpoints answer
    200 and change nothing, and they agree: the status reports as many
    chunks as are stored and as many documents as the documents endpoint
    lists names, at most the number of chunks. *)
Theorem status_and_documents_agree (w : world) :
  exists st names,
    Endpoints.get_status true w = (inr st, w)
    /\ Endpoints.list_documents true w = (inr names, w)
    /\ Endpoints.status st = "healthy"
    /\ Endpoints.chunks_count st = length (documents w)
    /\ Endpoints.documents_count st = length names
    /\ (Endpoints.documents_count st <= Endpoints.chunks_count st)%nat
    /\ names = VectorStore.list_documents w.
Proof.
  destruct (get_stats_counts_aux w) as (Hc & Hd & Hle).
  do 2 eexists. unfold Endpoints.get_status, Endpoints.list_documents,
    try_except, ret. simpl.
  split; [reflexivity|]. split; [reflexivity|]. simpl.
  repeat split; auto.
Qed.

(** ** Shapes of strings *)

Section StringShapes.

Lemma append_cons (c : ascii) (s t : string) :
  String c s +:+ t = String c (s +:+ t).
Proof. reflexivity. Qed.

Lemma append_nil_l (t : string) : EmptyString +:+ t = t.
Proof. reflexivity. Qed.

Lemma append_nil_r (s : string) : s +:+ EmptyString = s.
Proof.
  induction s as [|c s IH]; [reflexivity|]. now rewrite append_cons, IH.
Qed.

Lemma append_assoc (a b c : string) : (a +:+ b) +:+ c = a +:+ (b +:+ c).
Proof.
  induction a as [|x a IH]; [reflexivity|]. now rewrite !append_cons, IH.
Qed.

Lemma last_char_app (s t : string) :
  t <> EmptyString -> last_char (s +:+ t) = last_char t.
Proof.
  intros Ht. induction s as [|c s IH]; [reflexivity|].
  rewrite append_cons. cbn [last_char].
  destruct (s +:+ t) eqn:Hst; [|exact IH].
  destruct s; [rewrite append_nil_l in Hst; congruence|].
  rewrite append_cons in Hst. discriminate.
Qed.

Lemma first_char_app (s t : string) :
  s <> EmptyString -> first_char (s +:+ t) = first_char s.
Proof. destruct s; [congruence | reflexivity]. Qed.

Lemma solid_nonempty (s : string) :
  solid (last_char s) = true -> s <> EmptyString.
Proof. destruct s; [discriminate | discriminate]. Qed.

Lemma rstrip_solid (s : string) :
  solid (last_char s) = true -> Py.rstrip s = s.
Proof.
  induction s as [|c s IH]; [reflexivity|].
  cbn [last_char Py.rstrip]. destruct s as [|c' s'].
  - simpl. intros Hc. apply negb_true_iff in Hc. now rewrite Hc.
  - intros Hs. rewrite (IH Hs). reflexivity.
Qed.

Lemma lstrip_solid (s : string) :
  solid (last_char s) = true ->
  Py.lstrip s <> EmptyString /\ last_char (Py.lstrip s) = last_char s
  /\ is_suffix (Py.lstrip s) s.
Proof.
  induction s as [|c s IH]; [discriminate|].
  intros Hs. cbn [Py.lstrip]. destruct (Py.isspace c) eqn:Hc.
  - destruct s as [|c' s'].
    + simpl in Hs. rewrite Hc in Hs. discriminate.
    + destruct (IH Hs) as (Hne & Hlast & (pre & Hpre)).
      split; [exact Hne|]. split; [exact Hlast|].
      exists (String c pre). rewrite append_cons. now rewrite <- Hpre.
  - split; [discriminate|]. split; [reflexivity|]. now exists EmptyString.
Qed.

Lemma lstrip_first (s : string) :
  Py.lstrip s <> EmptyString -> solid (first_char (Py.lstrip s)) = true.
Proof.
  induction s as [|c s IH]; [simpl; congruence|].
  cbn [Py.lstrip]. destruct (Py.isspace c) eqn:Hc; [exact IH|].
  intros _. simpl. now rewrite Hc.
Qed.

Lemma lstrip_id (s : string) :
  solid (first_char s) = true -> Py.lstrip s = s.
Proof.
  destruct s as [|c s]; [reflexivity|]. simpl.
  intros Hc. apply negb_true_iff in Hc. now rewrite Hc.
Qed.

Lemma rstrip_shape (s : string) :
  Py.rstrip s <> EmptyString ->
  solid (last_char (Py.rstrip s)) = true
  /\ first_char (Py.rstrip s) = first_char s.
Proof.
  induction s as [|c s IH]; [simpl; congruence|].
  cbn [Py.rstrip]. destruct (Py.rstrip s) as [|c' r] eqn:Hr.
  - destruct (Py.isspace c) eqn:Hc; [congruence|].
    intros _. simpl. now rewrite Hc.
  - intros _. split; [|reflexivity].
    destruct IH as [IH _]; [discriminate|].
    cbn [last_char]. exact IH.
Qed.

Lemma strip_trimmed (s : string) : trimmed s = true -> Py.strip s = s.
Proof.
  unfold trimmed, Py.strip. intros Ht.
  apply andb_true_iff in Ht as [Hf Hl].
  rewrite (lstrip_id s Hf). now apply rstrip_solid.
Qed.

Lemma trimmed_strip (s : string) :
  Py.nonempty (Py.strip s) = true -> trimmed (Py.strip s) = true.
Proof.
  unfold Py.strip, trimmed. intros Hne.
  assert (Hr : Py.rstrip (Py.lstrip s) <> EmptyString).
  { intros Heq. rewrite Heq in Hne. discriminate. }
  destruct (rstrip_shape _ Hr) as [Hlast Hfirst].
  rewrite Hlast, Hfirst, andb_true_r.
  apply lstrip_first. intros Heq. rewrite Heq in Hr. now apply Hr.
Qed.

Lemma trimmed_nonempty (s : string) :
  trimmed s = true -> Py.nonempty s = true.
Proof. destruct s; [discriminate | reflexivity]. Qed.

Lemma nonempty_neq (s : string) :
  Py.nonempty s = true <-> s <> EmptyString.
Proof. destruct s; simpl; split; congruence. Qed.

Lemma strip_idempotent (s : string) : Py.strip (Py.strip s) = Py.strip s.
Proof.
  destruct (Py.nonempty (Py.strip s)) eqn:Hne.
  - apply strip_trimmed, trimmed_strip, Hne.
  - apply len_nonempty in Hne. rewrite Hne. reflexivity.
Qed.

Lemma trimmed_app (a m b : string) :
  trimmed a = true -> trimmed b = true -> trimmed (a +:+ m +:+ b) = true.
Proof.
  unfold trimmed. intros Ha Hb.
  apply andb_true_iff in Ha as [Haf Hal].
  apply andb_true_iff in Hb as [Hbf Hbl].
  assert (Hane : a <> EmptyString) by now apply solid_nonempty.
  assert (Hbne : b <> EmptyString) by now apply solid_nonempty.
  rewrite first_char_app by exact Hane. rewrite Haf. simpl.
  rewrite last_char_app.
  - now rewrite last_char_app.
  - destruct m; [exact Hbne | rewrite append_cons; discriminate].
Qed.

Lemma is_suffix_refl (s : string) : is_suffix s s.
Proof. now exists EmptyString. Qed.

Lemma is_suffix_trans (a b c : string) :
  is_suffix a b -> is_suffix b c -> is_suffix a c.
Proof.
  intros [p ->] [q ->]. exists (q +:+ p). now rewrite append_assoc.
Qed.

Lemma take_drop (n : nat) (s : string) : Py.take n s +:+ Py.drop n s = s.
Proof.
  revert s. induction n as [|n IH]; intros [|c s]; simpl; auto.
  now rewrite append_cons, IH.
Qed.

Lemma drop_suffix (n : nat) (s : string) : is_suffix (Py.drop n s) s.
Proof. exists (Py.take n s). symmetry. apply take_drop. Qed.

Lemma drop_drop (a b : nat) (s : string) :
  Py.drop b (Py.drop a s) = Py.drop (a + b) s.
Proof.
  revert s. induction a as [|a IH]; intros s; [reflexivity|].
  destruct s as [|c s]; simpl; [destruct b; reflexivity | apply IH].
Qed.

Lemma last_char_suffix (t s : string) :
  is_suffix t s -> t <> EmptyString -> last_char t = last_char s.
Proof. intros [pre ->] Ht. symmetry. now apply last_char_app. Qed.

Lemma length_zero (s : string) : String.length s = 0%nat -> s = EmptyString.
Proof. destruct s; [reflexivity | discriminate]. Qed.

End StringShapes.

(** ** The chunker, further *)

Section ChunkerShape.
Variables chunk_size chunk_overlap page_num : Z.

Lemma overlap_text_shape (t : string) :
  trimmed t = true ->
  Chunker.get_overlap_text chunk_overlap t = EmptyString
  \/ trimmed (Chunker.get_overlap_text chunk_overlap t) = true.
Proof.
  intros Ht. unfold Chunker.get_overlap_text.
  destruct (Py.len t <=? chunk_overlap); [now right|].
  match goal with
  | |- Py.strip ?x = _ \/ _ =>
      destruct (Py.nonempty (Py.strip x)) eqn:Hne;
        [right; now apply trimmed_strip | left; now apply len_nonempty]
  end.
Qed.

Lemma join_sentence_trimmed (a s : string) :
  a = EmptyString \/ trimmed a = true ->
  trimmed s = true ->
  trimmed (Chunker.join_sentence a s) = true.
Proof.
  intros Ha Hs. unfold Chunker.join_sentence.
  destruct (Py.nonempty a) eqn:Hne; [|exact Hs].
  destruct Ha as [-> | Ha]; [discriminate|].
  now apply trimmed_app.
Qed.

Lemma chunk_step_shape (st : Chunker.loop_state) (sentence : string) :
  loop_shape page_num st ->
  loop_shape page_num
    (Chunker.chunk_step chunk_size chunk_overlap page_num st sentence).
Proof.
  intros (Hidx & Hall & Hcur). unfold Chunker.chunk_step.
  destruct (Py.nonempty (Py.strip sentence)) eqn:Hne; cbn [negb];
    [|repeat split; assumption].
  pose proof (trimmed_strip _ Hne) as Hs.
  destruct (chunk_size <? _); cbn [andb].
  - destruct (Py.nonempty (Chunker.current_chunk st)) eqn:Hcne.
    + destruct Hcur as [Hempty | Hcur];
        [rewrite Hempty in Hcne; discriminate|].
      unfold loop_shape.
      cbn [Chunker.chunks Chunker.next_index Chunker.current_chunk].
      split; [|split].
      * rewrite map_app, Hidx, seq_S. reflexivity.
      * apply Forall_app. split; [exact Hall|].
        constructor; [|constructor].
        cbn [Chunker.page Chunker.text].
        rewrite (strip_trimmed _ Hcur). auto.
      * right. apply join_sentence_trimmed; [|exact Hs].
        destruct (overlap_text_shape _ Hcur); auto.
    + unfold loop_shape.
      cbn [Chunker.chunks Chunker.next_index Chunker.current_chunk].
      split; [exact Hidx|]. split; [exact Hall|].
      right. now apply join_sentence_trimmed.
  - unfold loop_shape.
    cbn [Chunker.chunks Chunker.next_index Chunker.current_chunk].
    split; [exact Hidx|]. split; [exact Hall|].
    right. now apply join_sentence_trimmed.
Qed.

Lemma fold_chunk_step_shape (pieces : list string)
    (st : Chunker.loop_state) :
  loop_shape page_num st ->
  loop_shape page_num
    (fold_left (Chunker.chunk_step chunk_size chunk_overlap page_num)
       pieces st).
Proof.
  revert st. induction pieces as [|p pieces IH]; intros st Hst; simpl;
    [exact Hst|].
  apply IH. now apply chunk_step_shape.
Qed.

(** The chunks of a non-blank text are those of the loop plus the text
    left in progress, which is trimmed. *)
Lemma create_chunks_loop (text : string) :
  Py.nonempty (Py.strip text) = true ->
  exists st,
    st = fold_left (Chunker.chunk_step chunk_size chunk_overlap page_num)
           (Py.split (Py.strip text) ". ")
           {| Chunker.chunks := []; Chunker.current_chunk := EmptyString;
              Chunker.next_index := 0 |}
    /\ loop_shape page_num st
    /\ Chunker.create_chunks chunk_size chunk_overlap text page_num
       = match Chunker.current_chunk st with
         | EmptyString => Chunker.chunks st
         | current =>
             Chunker.chunks st ++
             [{| Chunker.text := current; Chunker.page := page_num;
                 Chunker.chunk_index := Chunker.next_index st |}]
         end.
Proof.
  intros Hne. eexists. split; [reflexivity|].
  match goal with |- loop_shape _ ?s /\ _ => set (st := s) end.
  assert (Hshape : loop_shape page_num st).
  { apply fold_chunk_step_shape.
    split; [reflexivity|]. split; [constructor | now left]. }
  split; [exact Hshape|].
  unfold Chunker.create_chunks. rewrite Hne. simpl. fold st.
  destruct Hshape as (_ & _ & [Hempty | Hcur]).
  - rewrite Hempty. reflexivity.
  - rewrite (strip_trimmed _ Hcur), (trimmed_nonempty _ Hcur).
    destruct (Chunker.current_chunk st); [discriminate | reflexivity].
Qed.

End ChunkerShape.

(** X20. The chunks [create_chunks] returns are numbered 0, 1, 2, ... in
    the order of the list, and each carries the page number given. *)
Theorem create_chunks_numbered (chunk_size chunk_overlap : Z)
    (text : string) (page_num : Z) :
  map Chunker.chunk_index
    (Chunker.create_chunks chunk_size chunk_overlap text page_num)
  = seq 0 (length
             (Chunker.create_chunks chunk_size chunk_overlap text page_num))
  /\ Forall (fun c => Chunker.page c = page_num)
       (Chunker.create_chunks chunk_size chunk_overlap text page_num).
Proof.
  destruct (Py.nonempty (Py.strip text)) eqn:Hne.
  - destruct (create_chunks_loop chunk_size chunk_overlap page_num text Hne)
      as (st & _ & (Hidx & Hall & _) & ->).
    assert (Hlen : length (Chunker.chunks st) = Chunker.next_index st).
    { rewrite <- (length_map Chunker.chunk_index), Hidx. apply length_seq. }
    assert (Hpages : Forall (fun c => Chunker.page c = page_num)
                       (Chunker.chunks st)).
    { eapply Forall_impl; [exact Hall|]. simpl. now intros c [Hp _]. }
    destruct (Chunker.current_chunk st).
    + rewrite Hlen. auto.
    + rewrite map_app, length_app, Hidx, Hlen. simpl.
      rewrite Nat.add_1_r, seq_S. split; [reflexivity|].
      apply Forall_app. split; [exact Hpages|]. repeat constructor.
  - unfold Chunker.create_chunks. rewrite Hne. simpl. auto.
Qed.

(** X21. A blank text gives no chunk, and no chunk of any text is blank:
    every chunk text is non-empty and has no white space at either
    end. *)
Theorem create_chunks_trimmed (chunk_size chunk_overlap : Z)
    (text : string) (page_num : Z) :
  (Py.nonempty (Py.strip text) = false ->
   Chunker.create_chunks chunk_size chunk_overlap text page_num = [])
  /\ Forall (fun c => trimmed (Chunker.text c) = true
                      /\ Py.nonempty (Chunker.text c) = true
                      /\ Py.strip (Chunker.text c) = Chunker.text c)
       (Chunker.create_chunks chunk_size chunk_overlap text page_num).
Proof.
  split.
  { intros Hblank. unfold Chunker.create_chunks. now rewrite Hblank. }
  assert (Hall : Forall (fun c => trimmed (Chunker.text c) = true)
            (Chunker.create_chunks chunk_size chunk_overlap text page_num)).
  { destruct (Py.nonempty (Py.strip text)) eqn:Hne.
    - destruct (create_chunks_loop chunk_size chunk_overlap page_num text Hne)
        as (st & _ & (_ & Hall & Hcur) & ->).
      assert (Htr : Forall (fun c => trimmed (Chunker.text c) = true)
                      (Chunker.chunks st)).
      { eapply Forall_impl; [exact Hall|]. simpl. now intros c [_ Ht]. }
      destruct (Chunker.current_chunk st) eqn:Hc; [exact Htr|].
      apply Forall_app. split; [exact Htr|].
      constructor; [|constructor]. simpl.
      destruct Hcur as [Hcur | Hcur]; [discriminate | exact Hcur].
    - unfold Chunker.create_chunks. rewrite Hne. constructor. }
  eapply Forall_impl; [exact Hall|]. simpl. intros c Ht.
  split; [exact Ht|]. split; [now apply trimmed_nonempty|].
  now apply strip_trimmed.
Qed.

Lemma create_chunks_trimmed_witness :
  Chunker.create_chunks 1000 200 "    " 1 = [].
Proof.
  apply (proj1 (create_chunks_trimmed 1000 200 "    " 1)). reflexivity.
Defined.

Section Containment.

Lemma prefix_nil (s : string) : String.prefix EmptyString s = true.
Proof. destruct s; reflexivity. Qed.

Lemma prefix_app (s t : string) : String.prefix s (s +:+ t) = true.
Proof.
  induction s as [|c s IH]; [apply prefix_nil|].
  rewrite append_cons. simpl. destruct (ascii_dec c c); [exact IH | congruence].
Qed.

Lemma prefix_app_mono (s a b : string) :
  String.prefix s a = true -> String.prefix s (a +:+ b) = true.
Proof.
  revert a. induction s as [|c s IH]; intros a; [intros _; apply prefix_nil|].
  destruct a as [|x a]; [discriminate|].
  rewrite append_cons. simpl. destruct (ascii_dec c x); [apply IH | discriminate].
Qed.

Lemma contains_prefix (sub s : string) :
  String.prefix sub s = true -> Py.contains sub s = true.
Proof. intros Hp. destruct s; cbn [Py.contains]; now rewrite Hp. Qed.

Lemma contains_app_r (a s : string) : Py.contains s (a +:+ s) = true.
Proof.
  induction a as [|c a IH].
  - rewrite append_nil_l. apply contains_prefix.
    rewrite <- (append_nil_r s) at 2. apply prefix_app.
  - rewrite append_cons. cbn [Py.contains]. rewrite IH. apply orb_true_r.
Qed.

Lemma contains_app_l (s a b : string) :
  Py.nonempty s = true ->
  Py.contains s a = true -> Py.contains s (a +:+ b) = true.
Proof.
  intros Hs. induction a as [|c a IH]; cbn [Py.contains]; intros Hc;
    apply orb_true_iff in Hc as [Hp | Hrest].
  - destruct s; discriminate.
  - discriminate.
  - apply contains_prefix. now apply prefix_app_mono.
  - rewrite append_cons. cbn [Py.contains]. rewrite (IH Hrest).
    apply orb_true_r.
Qed.

Lemma contains_join_sentence_new (a s : string) :
  Py.contains s (Chunker.join_sentence a s) = true.
Proof.
  unfold Chunker.join_sentence. destruct (Py.nonempty a).
  - rewrite <- append_assoc. apply contains_app_r.
  - rewrite <- (append_nil_l s) at 2. apply contains_app_r.
Qed.

Lemma contains_join_sentence_old (s a s' : string) :
  Py.nonempty s = true -> Py.contains s a = true ->
  Py.contains s (Chunker.join_sentence a s') = true.
Proof.
  intros Hs Hc. unfold Chunker.join_sentence.
  destruct a as [|c a]; [destruct s; discriminate|].
  cbn [Py.nonempty]. now apply contains_app_l.
Qed.

End Containment.

Section ChunkerCover.
Variables chunk_size chunk_overlap page_num : Z.

Lemma chunk_step_covered (st : Chunker.loop_state) (sentence : string) :
  loop_shape page_num st ->
  let st' :=
    Chunker.chunk_step chunk_size chunk_overlap page_num st sentence in
  (forall s, Py.nonempty s = true -> covered s st -> covered s st')
  /\ (Py.nonempty (Py.strip sentence) = true ->
      covered (Py.strip sentence) st').
Proof.
  intros (_ & _ & Hcur). unfold Chunker.chunk_step.
  destruct (Py.nonempty (Py.strip sentence)) eqn:Hne; cbn [negb];
    [|split; [auto | discriminate]].
  destruct (chunk_size <? _); cbn [andb].
  - destruct (Py.nonempty (Chunker.current_chunk st)) eqn:Hcne.
    + destruct Hcur as [Hempty | Hcur];
        [rewrite Hempty in Hcne; discriminate|].
      unfold covered. cbn [Chunker.chunks Chunker.current_chunk]. split.
      * intros s Hs [(c & Hc & Hin) | Hin]; left.
        -- exists c. split; [apply in_or_app; now left | exact Hin].
        -- eexists. split; [apply in_or_app; right; now left|].
           cbn [Chunker.text]. now rewrite (strip_trimmed _ Hcur).
      * intros _. right. apply contains_join_sentence_new.
    + unfold covered. cbn [Chunker.chunks Chunker.current_chunk]. split.
      * intros s Hs [Hin | Hin]; [now left | right].
        now apply contains_join_sentence_old.
      * intros _. right. apply contains_join_sentence_new.
  - unfold covered. cbn [Chunker.chunks Chunker.current_chunk]. split.
    + intros s Hs [Hin | Hin]; [now left | right].
      now apply contains_join_sentence_old.
    + intros _. right. apply contains_join_sentence_new.
Qed.

Lemma fold_chunk_step_covered (pieces : list string)
    (st : Chunker.loop_state) :
  loop_shape page_num st ->
  let st' :=
    fold_left (Chunker.chunk_step chunk_size chunk_overlap page_num)
      pieces st in
  (forall s, Py.nonempty s = true -> covered s st -> covered s st')
  /\ (forall p, In p pieces -> Py.nonempty (Py.strip p) = true ->
                covered (Py.strip p) st').
Proof.
  revert st. induction pieces as [|p pieces IH]; intros st Hshape; simpl.
  - split; [auto | intros p []].
  - destruct (chunk_step_covered st p Hshape) as [Hold Hnew].
    destruct (IH _ (chunk_step_shape chunk_size chunk_overlap page_num
                      st p Hshape)) as [Hold' Hnew'].
    split.
    + intros s Hs Hc. apply Hold'; [exact Hs|]. now apply Hold.
    + intros q [<- | Hq] Hne; [|now apply Hnew'].
      apply Hold'; [exact Hne|]. now apply Hnew.
Qed.

End ChunkerCover.

Lemma sentence_in_chunk (chunk_size chunk_overlap : Z)
    (text : string) (page_num : Z) (s : string) :
  In s (Chunker.sentences_of text) ->
  exists c,
    In c (Chunker.create_chunks chunk_size chunk_overlap text page_num)
    /\ Py.contains s (Chunker.text c) = true.
Proof.
  intros Hs. unfold Chunker.sentences_of in Hs.
  apply list_elem_of_In, list_elem_of_filter in Hs as [Hne Hs].
  apply list_elem_of_In, in_map_iff in Hs as (p & <- & Hp).
  destruct (Py.nonempty (Py.strip text)) eqn:Htext.
  - destruct (create_chunks_loop chunk_size chunk_overlap page_num text Htext)
      as (st & Hst & Hshape & ->).
    assert (Hcov : covered (Py.strip p) st).
    { rewrite Hst. apply fold_chunk_step_covered; auto.
      split; [reflexivity|]. split; [constructor | now left]. }
    destruct Hcov as [(c & Hc & Hin) | Hin].
    + exists c. split; [|exact Hin].
      destruct (Chunker.current_chunk st); [exact Hc|].
      apply in_or_app. now left.
    + destruct (Chunker.current_chunk st) as [|x cur] eqn:Hcur.
      * destruct (Py.strip p); discriminate.
      * eexists. split; [apply in_or_app; right; now left | exact Hin].
  - apply len_nonempty in Htext. rewrite Htext in Hp.
    destruct Hp as [<- | []]. discriminate.
Qed.

(** X22. No sentence is lost: every sentence of the text (a non-empty
    stripped piece between two ". ") occurs in the text of some chunk
    [create_chunks] returns. *)
Theorem create_chunks_cover (chunk_size chunk_overlap : Z)
    (text : string) (page_num : Z) (s : string) :
  In s (Chunker.sentences_of text) ->
  exists c,
    In c (Chunker.create_chunks chunk_size chunk_overlap text page_num)
    /\ Py.contains s (Chunker.text c) = true.
Proof. apply sentence_in_chunk. Qed.

Lemma create_chunks_cover_witness :
  exists c,
    In c (Chunker.create_chunks 10 5 "aaaaaaaa. bbbbbbbb" 1)
    /\ Py.contains "bbbbbbbb" (Chunker.text c) = true.
Proof.
  apply (create_chunks_cover 10 5 "aaaaaaaa. bbbbbbbb" 1 "bbbbbbbb").
  vm_compute. auto.
Defined.

(** ** Splitting and joining *)

Section SplitJoin.

Lemma prefix_drop (sep s : string) :
  String.prefix sep s = true ->
  s = sep +:+ Py.drop (String.length sep) s
  /\ (String.length sep <= String.length s)%nat.
Proof.
  revert s. induction sep as [|c sep IH]; intros s Hp.
  - destruct s; simpl; split; auto; lia.
  - destruct s as [|x s]; [discriminate|]. simpl in Hp.
    destruct (ascii_dec c x) as [-> | ]; [|discriminate].
    destruct (IH s Hp) as [Heq Hlen]. rewrite append_cons. simpl.
    split; [now rewrite <- Heq | lia].
Qed.

Lemma join_cons_char (sep : string) (c : ascii) (h : string)
    (t : list string) :
  str_join sep (String c h :: t) = String c (str_join sep (h :: t)).
Proof. destruct t; reflexivity. Qed.

Lemma join_cons (sep p : string) (q : string) (r : list string) :
  str_join sep (p :: q :: r) = p +:+ sep +:+ str_join sep (q :: r).
Proof. reflexivity. Qed.

Lemma split_go_join (sep : string) (s : string) (k : nat) :
  sep <> EmptyString -> (k <= String.length s)%nat ->
  str_join sep (fst (Py.split_go sep k s) :: snd (Py.split_go sep k s))
  = Py.drop k s.
Proof.
  intros Hsep. revert k. induction s as [|c s IH]; intros k Hk.
  - simpl in Hk. assert (k = 0%nat) as -> by lia. reflexivity.
  - cbn [Py.split_go]. destruct k as [|k].
    + destruct (String.prefix sep (String c s)) eqn:Hp.
      * destruct (prefix_drop _ _ Hp) as [Heq Hlen].
        destruct sep as [|x sep]; [congruence|].
        cbn [String.length] in *. cbn [Py.drop] in Heq.
        assert (Hk' : (S (String.length sep) - 1 <= String.length s)%nat)
          by lia.
        specialize (IH _ Hk').
        destruct (Py.split_go (String x sep) (S (String.length sep) - 1) s)
          as [h t]. cbn [fst snd] in *.
        rewrite join_cons, IH, append_nil_l.
        replace (S (String.length sep) - 1)%nat with (String.length sep)
          by lia.
        cbn [Py.drop]. symmetry. exact Heq.
      * specialize (IH 0%nat ltac:(lia)).
        destruct (Py.split_go sep 0 s) as [h t]. cbn [fst snd] in *.
        rewrite join_cons_char, IH. reflexivity.
    + simpl in Hk. specialize (IH k ltac:(lia)). exact IH.
Qed.

(** Joining the pieces of a split with the separator gives the text
    back. *)
Lemma split_join (s sep : string) :
  sep <> EmptyString -> str_join sep (Py.split s sep) = s.
Proof.
  intros Hsep. unfold Py.split.
  pose proof (split_go_join sep s 0 Hsep ltac:(lia)) as Hj.
  destruct (Py.split_go sep 0 s) as [h t]. exact Hj.
Qed.

Lemma join_last_solid (pieces : list string) :
  solid (last_char (str_join ". " pieces)) = true ->
  exists p, In p pieces /\ solid (last_char p) = true.
Proof.
  induction pieces as [|p pieces IH]; [discriminate|].
  destruct pieces as [|q r].
  - simpl. intros Hp. exists p. auto.
  - rewrite join_cons. intros Hs.
    rewrite last_char_app in Hs by (rewrite !append_cons; discriminate).
    destruct (str_join ". " (q :: r)) eqn:Hj.
    + discriminate.
    + rewrite last_char_app in Hs by discriminate.
      destruct (IH Hs) as (x & Hx & Hsolid). exists x. split; [now right|].
      exact Hsolid.
Qed.

Lemma solid_strip (p : string) :
  solid (last_char p) = true -> Py.nonempty (Py.strip p) = true.
Proof.
  intros Hp. destruct (lstrip_solid p Hp) as (Hne & Hlast & _).
  unfold Py.strip. rewrite rstrip_solid by now rewrite Hlast.
  now apply nonempty_neq.
Qed.

Lemma sentences_of_nonblank (text : string) :
  Py.nonempty (Py.strip text) = true ->
  Chunker.sentences_of text <> [].
Proof.
  intros Hne. pose proof (trimmed_strip _ Hne) as Ht.
  apply andb_true_iff in Ht as [_ Hlast].
  rewrite <- (split_join (Py.strip text) ". ") in Hlast by discriminate.
  destruct (join_last_solid _ Hlast) as (p & Hp & Hsolid).
  assert (Hin : In (Py.strip p) (Chunker.sentences_of text)).
  { apply sentences_of_complete; [exact Hp | now apply solid_strip]. }
  intros Hnil. rewrite Hnil in Hin. destruct Hin.
Qed.

End SplitJoin.

Section ChunkerFits.
Variables chunk_size chunk_overlap page_num : Z.

Lemma chunk_step_strip (st : Chunker.loop_state) (p : string) :
  (Chunker.chunk_step chunk_size chunk_overlap page_num) st (Py.strip p) = (Chunker.chunk_step chunk_size chunk_overlap page_num) st p.
Proof. unfold Chunker.chunk_step. now rewrite strip_idempotent. Qed.

Lemma chunk_step_blank (st : Chunker.loop_state) (p : string) :
  Py.nonempty (Py.strip p) = false -> (Chunker.chunk_step chunk_size chunk_overlap page_num) st p = st.
Proof. intros Hb. unfold Chunker.chunk_step. now rewrite Hb. Qed.

(** The loop sees the sentences only: blank pieces change nothing, and a
    piece acts as its stripped form. *)
Lemma fold_sentences (pieces : list string) (st : Chunker.loop_state) :
  fold_left (Chunker.chunk_step chunk_size chunk_overlap page_num) pieces st
  = fold_left (Chunker.chunk_step chunk_size chunk_overlap page_num)
      (filter (fun s => Py.nonempty s = true) (map Py.strip pieces)) st.
Proof.
  revert st. induction pieces as [|p pieces IH]; intros st; [reflexivity|].
  simpl map. destruct (Py.nonempty (Py.strip p)) eqn:Hne.
  - rewrite filter_cons_True by exact Hne. simpl.
    rewrite chunk_step_strip. apply IH.
  - rewrite filter_cons_False by (rewrite Hne; discriminate). simpl.
    rewrite chunk_step_blank by exact Hne. apply IH.
Qed.

Lemma join_nonempty (l : list string) :
  Forall (fun s => trimmed s = true) l -> l <> [] ->
  trimmed (str_join ". " l) = true.
Proof.
  induction 1 as [|s l Hs Hl IH]; [congruence|]. intros _.
  destruct l as [|q r]; [exact Hs|].
  rewrite join_cons. apply trimmed_app; [exact Hs|]. apply IH. discriminate.
Qed.

Lemma join_snoc (l : list string) (x : string) :
  Forall (fun s => trimmed s = true) l ->
  Chunker.join_sentence (str_join ". " l) x = str_join ". " (l ++ [x]).
Proof.
  intros Hl. unfold Chunker.join_sentence.
  destruct l as [|s l]; [reflexivity|].
  rewrite (trimmed_nonempty _ (join_nonempty _ Hl ltac:(discriminate))).
  revert s Hl. induction l as [|q r IH]; intros s Hl; [reflexivity|].
  change ((s :: q :: r) ++ [x]) with (s :: (q :: r) ++ [x]).
  change ((q :: r) ++ [x]) with (q :: (r ++ [x])).
  rewrite !join_cons, !append_assoc.
  apply Forall_cons in Hl as [_ Hl].
  change (q :: r ++ [x]) with ((q :: r) ++ [x]). now rewrite <- IH.
Qed.

Lemma len_join_prefix (l1 l2 : list string) :
  Py.len (str_join ". " l1) <= Py.len (str_join ". " (l1 ++ l2)).
Proof.
  unfold Py.len. induction l1 as [|s l1 IH].
  - simpl. lia.
  - destruct l1 as [|q r].
    + destruct l2 as [|x l2]; [simpl; lia|].
      change ([s] ++ x :: l2) with (s :: x :: l2).
      rewrite join_cons, length_append. simpl str_join. lia.
    + change ((s :: q :: r) ++ l2) with (s :: q :: (r ++ l2)).
      rewrite !join_cons, !length_append.
      change (q :: r ++ l2) with ((q :: r) ++ l2). lia.
Qed.

Lemma len_join_sentences (pieces : list string) :
  Py.len (str_join ". "
            (filter (fun s => Py.nonempty s = true) (map Py.strip pieces)))
  <= Py.len (str_join ". " pieces).
Proof.
  induction pieces as [|p pieces IH]; [simpl; lia|].
  simpl map. pose proof (len_strip p) as Hp.
  assert (Htail : Py.len (str_join ". " pieces)
                  <= Py.len (str_join ". " (p :: pieces))).
  { destruct pieces as [|q r]; [unfold Py.len; simpl; lia|].
    rewrite join_cons. unfold Py.len. rewrite !length_append. lia. }
  destruct (Py.nonempty (Py.strip p)) eqn:Hne.
  - rewrite filter_cons_True by exact Hne.
    destruct (filter _ (map Py.strip pieces)) as [|x l] eqn:Hf.
    + destruct pieces as [|q r]; [exact Hp|].
      rewrite join_cons. unfold Py.len in *. rewrite !length_append.
      simpl str_join. lia.
    + destruct pieces as [|q r]; [discriminate|].
      rewrite !join_cons. unfold Py.len in *. rewrite !length_append. lia.
  - rewrite filter_cons_False by (rewrite Hne; discriminate). lia.
Qed.

Lemma fold_no_cut (rest done : list string) :
  Forall (fun s => trimmed s = true) (done ++ rest) ->
  Py.len (str_join ". " (done ++ rest)) <= chunk_size ->
  fold_left (Chunker.chunk_step chunk_size chunk_overlap page_num) rest
    {| Chunker.chunks := []; Chunker.current_chunk := str_join ". " done;
       Chunker.next_index := 0 |}
  = {| Chunker.chunks := [];
       Chunker.current_chunk := str_join ". " (done ++ rest);
       Chunker.next_index := 0 |}.
Proof.
  revert done. induction rest as [|x rest IH]; intros done Hall Hlen.
  - now rewrite app_nil_r.
  - simpl fold_left.
    assert (Hdone : Forall (fun s => trimmed s = true) done).
    { apply Forall_app in Hall. apply Hall. }
    assert (Hx : trimmed x = true).
    { apply Forall_app in Hall as [_ Hall].
      now apply Forall_cons in Hall as [Hx _]. }
    assert (Hstep : (Chunker.chunk_step chunk_size chunk_overlap page_num) {| Chunker.chunks := [];
                            Chunker.current_chunk := str_join ". " done;
                            Chunker.next_index := 0 |} x
                    = {| Chunker.chunks := [];
                         Chunker.current_chunk := str_join ". " (done ++ [x]);
                         Chunker.next_index := 0 |}).
    { unfold Chunker.chunk_step.
      rewrite (strip_trimmed _ Hx), (trimmed_nonempty _ Hx).
      cbn [negb Chunker.current_chunk Chunker.chunks Chunker.next_index].
      rewrite join_snoc by exact Hdone.
      assert (Hfit : (chunk_size <? Py.len (str_join ". " (done ++ [x])))
                     = false).
      { apply Z.ltb_ge.
        pose proof (len_join_prefix (done ++ [x]) rest) as Hpre.
        rewrite <- app_assoc in Hpre. simpl in Hpre. lia. }
      rewrite Hfit. reflexivity. }
    rewrite Hstep.
    replace (done ++ x :: rest) with ((done ++ [x]) ++ rest)
      by now rewrite <- app_assoc.
    apply IH; rewrite <- app_assoc; assumption.
Qed.

Lemma sentences_trimmed (text : string) :
  Forall (fun s => trimmed s = true) (Chunker.sentences_of text).
Proof.
  apply List.Forall_forall. intros s Hs. unfold Chunker.sentences_of in Hs.
  apply list_elem_of_In, list_elem_of_filter in Hs as [Hne Hs].
  apply list_elem_of_In, in_map_iff in Hs as (p & <- & _).
  now apply trimmed_strip.
Qed.

End ChunkerFits.

(** X23. A text that is not blank always gives at least one chunk. *)
Theorem create_chunks_nonblank (chunk_size chunk_overlap : Z)
    (text : string) (page_num : Z) :
  Py.nonempty (Py.strip text) = true ->
  Chunker.create_chunks chunk_size chunk_overlap text page_num <> [].
Proof.
  intros Hne Hnil.
  pose proof (sentences_of_nonblank text Hne) as Hs.
  destruct (Chunker.sentences_of text) as [|s l] eqn:Hsent; [congruence|].
  destruct (sentence_in_chunk chunk_size chunk_overlap text page_num s)
    as (c & Hc & _).
  - rewrite Hsent. now left.
  - rewrite Hnil in Hc. destruct Hc.
Qed.

Lemma create_chunks_nonblank_witness :
  Chunker.create_chunks 1000 200 Demo.policy_text 1 <> [].
Proof.
  apply (create_chunks_nonblank 1000 200 Demo.policy_text 1). reflexivity.
Defined.

(** X24. A non-blank text whose stripped form fits the chunk size gives
    exactly one chunk, numbered 0, on the page given: its sentences joined
    with ". ". *)
Theorem create_chunks_fitting (chunk_size chunk_overlap : Z)
    (text : string) (page_num : Z) :
  Py.nonempty (Py.strip text) = true ->
  Py.len (Py.strip text) <= chunk_size ->
  Chunker.create_chunks chunk_size chunk_overlap text page_num
  = [{| Chunker.text := str_join ". " (Chunker.sentences_of text);
        Chunker.page := page_num;
        Chunker.chunk_index := 0 |}].
Proof.
  intros Hne Hfit.
  destruct (create_chunks_loop chunk_size chunk_overlap page_num text Hne)
    as (st & Hst & _ & ->).
  rewrite fold_sentences in Hst.
  change (filter _ (map Py.strip (Py.split (Py.strip text) ". ")))
    with (Chunker.sentences_of text) in Hst.
  assert (Hfold := fold_no_cut chunk_size chunk_overlap page_num
                     (Chunker.sentences_of text) []).
  cbn [app str_join] in Hfold. rewrite Hfold in Hst.
  - subst st. cbn [Chunker.current_chunk Chunker.chunks Chunker.next_index].
    pose proof (join_nonempty _ (sentences_trimmed text)
                  (sentences_of_nonblank text Hne)) as Ht.
    apply trimmed_nonempty in Ht.
    destruct (str_join ". " (Chunker.sentences_of text));
      [discriminate | reflexivity].
  - apply sentences_trimmed.
  - unfold Chunker.sentences_of.
    etransitivity; [apply len_join_sentences|].
    rewrite split_join by discriminate. exact Hfit.
Qed.

Lemma create_chunks_fitting_witness :
  map Chunker.text (Chunker.create_chunks 1000 200 Demo.policy_text 1)
  = ["Knee surgery is covered up to 250000. Waiting period is 90 days."].
Proof.
  rewrite (create_chunks_fitting 1000 200 Demo.policy_text 1);
    [reflexivity | reflexivity | vm_compute; discriminate].
Defined.

Section Overlap.
Variables chunk_size chunk_overlap page_num : Z.
Hypothesis overlap_pos : 0 < chunk_overlap.

Lemma rfind_from_spec (sub s : string) (i : Z) :
  0 <= i ->
  Py.rfind_from sub i s = -1
  \/ exists k : nat,
       Py.rfind_from sub i s = i + Z.of_nat k
       /\ String.prefix sub (Py.drop k s) = true.
Proof.
  revert i. induction s as [|c s IH]; intros i Hi; cbn [Py.rfind_from].
  - destruct (String.prefix sub EmptyString) eqn:Hp; [|now left].
    right. exists 0%nat. split; [lia | exact Hp].
  - destruct (IH (i + 1) ltac:(lia)) as [Hr | (k & Hr & Hp)]; rewrite Hr.
    + change (0 <=? -1) with false. cbv iota.
      destruct (String.prefix sub (String c s)) eqn:Hp; [|now left].
      right. exists 0%nat. split; [lia | exact Hp].
    + replace (0 <=? i + 1 + Z.of_nat k) with true
        by (symmetry; apply Z.leb_le; lia).
      right. exists (S k). split; [lia | exact Hp].
Qed.

Lemma tail_after_period (t : string) (k : nat) :
  solid (last_char t) = true ->
  String.prefix ". " (Py.drop k t) = true ->
  Py.drop (k + 2) t <> EmptyString
  /\ (k + 2 <= String.length t)%nat
  /\ solid (last_char (Py.drop (k + 2) t)) = true.
Proof.
  intros Hsolid Hp.
  destruct (prefix_drop _ _ Hp) as [Heq Hlen].
  rewrite length_drop in Hlen. simpl in Hlen.
  rewrite drop_drop in Heq. cbn [String.length] in Heq.
  assert (Hd : Py.drop k t <> EmptyString).
  { rewrite Heq, !append_cons. discriminate. }
  pose proof (last_char_suffix _ _ (drop_suffix k t) Hd) as Hlast.
  assert (Hne : Py.drop (k + 2) t <> EmptyString).
  { intros Hempty. rewrite Heq, Hempty in Hlast. simpl in Hlast.
    rewrite <- Hlast in Hsolid. discriminate. }
  split; [exact Hne|]. split; [lia|].
  rewrite (last_char_suffix _ _ (drop_suffix (k + 2) t) Hne). exact Hsolid.
Qed.

Lemma strip_tail (t : string) :
  solid (last_char t) = true ->
  Py.nonempty (Py.strip t) = true /\ is_suffix (Py.strip t) t.
Proof.
  intros Hsolid. destruct (lstrip_solid t Hsolid) as (Hne & Hlast & Hsuf).
  unfold Py.strip. rewrite rstrip_solid by now rewrite Hlast.
  split; [now apply nonempty_neq | exact Hsuf].
Qed.

(** The overlap taken from a trimmed text is a non-empty end of it. *)
Lemma overlap_text_suffix (t : string) :
  trimmed t = true ->
  Py.nonempty (Chunker.get_overlap_text chunk_overlap t) = true
  /\ is_suffix (Chunker.get_overlap_text chunk_overlap t) t.
Proof.
  intros Ht. pose proof Ht as Ht'.
  apply andb_true_iff in Ht' as [_ Hlast].
  unfold Chunker.get_overlap_text.
  destruct (Z.leb_spec (Py.len t) chunk_overlap) as [Hle | Hgt].
  { split; [now apply trimmed_nonempty | apply is_suffix_refl]. }
  set (t1 := Py.slice_from t (- chunk_overlap)).
  assert (H1 : is_suffix t1 t /\ solid (last_char t1) = true).
  { unfold t1, Py.slice_from. split; [apply drop_suffix|].
    rewrite (last_char_suffix _ _ (drop_suffix _ t)); [exact Hlast|].
    intros Hempty. apply (f_equal String.length) in Hempty.
    rewrite length_drop in Hempty. unfold Py.slice_index, Py.len in *.
    destruct (Z.ltb_spec (- chunk_overlap) 0); simpl in Hempty; lia. }
  destruct H1 as [Hsuf1 Hlast1].
  assert (H2 : exists t2,
             (if 0 <? Py.rfind t1 ". "
              then Py.slice_from t1 (Py.rfind t1 ". " + 2) else t1) = t2
             /\ is_suffix t2 t1 /\ solid (last_char t2) = true).
  { destruct (Z.ltb_spec 0 (Py.rfind t1 ". ")) as [Hpos | Hnot].
    - unfold Py.rfind in *.
      destruct (rfind_from_spec ". " t1 0 ltac:(lia)) as [Hr | (k & Hr & Hp)];
        [lia|].
      destruct (tail_after_period t1 k Hlast1 Hp) as (Hne & Hlen & Hsolid).
      eexists. split; [reflexivity|].
      unfold Py.slice_from, Py.slice_index. rewrite Hr.
      destruct (Z.ltb_spec (0 + Z.of_nat k + 2) 0); [lia|].
      replace (Z.to_nat (Z.min (0 + Z.of_nat k + 2)
                           (Z.of_nat (String.length t1))))
        with (k + 2)%nat by lia.
      split; [apply drop_suffix | exact Hsolid].
    - exists t1. split; [reflexivity|]. split; [apply is_suffix_refl|].
      exact Hlast1. }
  destruct H2 as (t2 & -> & Hsuf2 & Hlast2).
  destruct (strip_tail t2 Hlast2) as [Hne Hsuf].
  split; [exact Hne|].
  eapply is_suffix_trans; [exact Hsuf|].
  eapply is_suffix_trans; eassumption.
Qed.

Lemma linked_snoc (l : list Chunker.chunk_data) (c : Chunker.chunk_data) :
  linked chunk_overlap l ->
  (forall c0, last l = Some c0 ->
     overlap_of chunk_overlap (Chunker.text c0) (Chunker.text c)) ->
  linked chunk_overlap (l ++ [c]).
Proof.
  intros Hl Hlast i c1 c2 H1 H2.
  destruct (Nat.lt_ge_cases (S i) (length l)) as [Hlt | Hge].
  - rewrite lookup_app_l in H1 by lia. rewrite lookup_app_l in H2 by lia.
    eapply Hl; eassumption.
  - assert (Hi : S i = length l).
    { apply lookup_lt_Some in H2. rewrite length_app in H2. simpl in H2.
      lia. }
    rewrite lookup_app_l in H1 by lia.
    rewrite lookup_app_r in H2 by lia.
    replace (S i - length l)%nat with 0%nat in H2 by lia.
    injection H2 as <-. apply Hlast.
    rewrite last_lookup. replace (Init.Nat.pred (length l)) with i by lia.
    exact H1.
Qed.

Lemma overlap_of_join (c_text a s : string) :
  overlap_of chunk_overlap c_text a ->
  overlap_of chunk_overlap c_text (Chunker.join_sentence a s).
Proof.
  intros (ov & Hne & Hlen & Hsuf & [post ->]).
  exists ov. split; [exact Hne|]. split; [exact Hlen|]. split; [exact Hsuf|].
  unfold Chunker.join_sentence.
  destruct ov as [|x ov]; [discriminate|].
  rewrite append_cons. cbn [Py.nonempty].
  exists (post +:+ ". " +:+ s). now rewrite <- append_cons, append_assoc.
Qed.

Lemma overlap_of_cut (current s : string) :
  trimmed current = true ->
  overlap_of chunk_overlap current
    (Chunker.join_sentence
       (Chunker.get_overlap_text chunk_overlap current) s).
Proof.
  intros Ht. destruct (overlap_text_suffix current Ht) as [Hne Hsuf].
  exists (Chunker.get_overlap_text chunk_overlap current).
  split; [exact Hne|].
  split; [now apply len_get_overlap_text|].
  split; [exact Hsuf|].
  unfold Chunker.join_sentence. rewrite Hne. now eexists.
Qed.

Lemma chunk_step_overlap (st : Chunker.loop_state) (sentence : string) :
  loop_shape page_num st -> overlap_inv chunk_overlap st ->
  overlap_inv chunk_overlap
    (Chunker.chunk_step chunk_size chunk_overlap page_num st sentence).
Proof.
  intros (_ & _ & Hcur) [Hlinked Hlast]. unfold Chunker.chunk_step.
  destruct (Py.nonempty (Py.strip sentence)) eqn:Hne; cbn [negb];
    [|split; assumption].
  destruct (chunk_size <? _); cbn [andb].
  - destruct (Py.nonempty (Chunker.current_chunk st)) eqn:Hcne.
    + destruct Hcur as [Hempty | Hcur];
        [rewrite Hempty in Hcne; discriminate|].
      unfold overlap_inv.
      cbn [Chunker.chunks Chunker.current_chunk]. split.
      * apply linked_snoc; [exact Hlinked|].
        intros c0 Hc0. cbn [Chunker.text].
        rewrite (strip_trimmed _ Hcur). now apply Hlast.
      * intros c Hc. rewrite last_snoc in Hc. injection Hc as <-.
        cbn [Chunker.text]. rewrite (strip_trimmed _ Hcur).
        now apply overlap_of_cut.
    + unfold overlap_inv.
      cbn [Chunker.chunks Chunker.current_chunk].
      split; [exact Hlinked|]. intros c Hc.
      apply overlap_of_join. now apply Hlast.
  - unfold overlap_inv.
    cbn [Chunker.chunks Chunker.current_chunk].
    split; [exact Hlinked|]. intros c Hc.
    apply overlap_of_join. now apply Hlast.
Qed.

Lemma fold_chunk_step_overlap (pieces : list string)
    (st : Chunker.loop_state) :
  loop_shape page_num st -> overlap_inv chunk_overlap st ->
  overlap_inv chunk_overlap
    (fold_left (Chunker.chunk_step chunk_size chunk_overlap page_num)
       pieces st).
Proof.
  revert st. induction pieces as [|p pieces IH]; intros st Hshape Hinv;
    simpl; [exact Hinv|].
  apply IH; [now apply chunk_step_shape | now apply chunk_step_overlap].
Qed.

Lemma create_chunks_linked (text : string) :
  linked chunk_overlap
    (Chunker.create_chunks chunk_size chunk_overlap text page_num).
Proof.
  destruct (Py.nonempty (Py.strip text)) eqn:Hne.
  - destruct (create_chunks_loop chunk_size chunk_overlap page_num text Hne)
      as (st & Hst & Hshape & ->).
    assert (Hinv : overlap_inv chunk_overlap st).
    { rewrite Hst. apply fold_chunk_step_overlap.
      - split; [reflexivity|]. split; [constructor | now left].
      - split; [intros i c1 c2 H1; destruct i; discriminate H1|].
        intros c Hc. discriminate Hc. }
    destruct Hinv as [Hlinked Hlast].
    destruct (Chunker.current_chunk st) eqn:Hcur; [exact Hlinked|].
    apply linked_snoc; [exact Hlinked|]. intros c0 Hc0.
    cbn [Chunker.text]. now apply Hlast.
  - unfold Chunker.create_chunks. rewrite Hne. simpl.
    intros i c1 c2 H1. destruct i; discriminate H1.
Qed.

End Overlap.

(** X25. With a positive overlap, consecutive chunks share text: each
    chunk after the first starts with a non-empty text of at most
    [chunk_overlap] characters with which the chunk before it ends. *)
Theorem create_chunks_overlap (chunk_size chunk_overlap : Z)
    (text : string) (page_num : Z) (i : nat)
    (c1 c2 : Chunker.chunk_data) :
  0 < chunk_overlap ->
  Chunker.create_chunks chunk_size chunk_overlap text page_num !! i
  = Some c1 ->
  Chunker.create_chunks chunk_size chunk_overlap text page_num !! S i
  = Some c2 ->
  exists ov,
    Py.nonempty ov = true /\ Py.len ov <= chunk_overlap
    /\ is_suffix ov (Chunker.text c1) /\ is_prefix ov (Chunker.text c2).
Proof.
  intros Hpos H1 H2.
  exact (create_chunks_linked chunk_size chunk_overlap page_num Hpos text
           i c1 c2 H1 H2).
Qed.

Lemma create_chunks_overlap_witness :
  exists ov,
    Py.nonempty ov = true /\ Py.len ov <= 5
    /\ is_suffix ov "aaaaaaaa" /\ is_prefix ov "aaaaa. bbbbbbbb".
Proof.
  apply (create_chunks_overlap 10 5 "aaaaaaaa. bbbbbbbb" 1 0
           {| Chunker.text := "aaaaaaaa"; Chunker.page := 1;
              Chunker.chunk_index := 0 |}
           {| Chunker.text := "aaaaa. bbbbbbbb"; Chunker.page := 1;
              Chunker.chunk_index := 1 |});
    [lia | reflexivity | reflexivity].
Defined.

(** ** Extraction and chunk ids *)

Lemma create_chunks_pages (chunk_size chunk_overlap : Z) (text : string)
    (page_num : Z) (c : Chunker.chunk_data) :
  In c (Chunker.create_chunks chunk_size chunk_overlap text page_num) ->
  Chunker.page c = page_num.
Proof.
  destruct (Py.nonempty (Py.strip text)) eqn:Hne.
  - destruct (create_chunks_loop chunk_size chunk_overlap page_num text Hne)
      as (st & _ & (_ & Hall & _) & ->).
    rewrite List.Forall_forall in Hall.
    intros Hc.
    assert (Hcases : In c (Chunker.chunks st) \/ Chunker.page c = page_num).
    { destruct (Chunker.current_chunk st); [now left|].
      apply in_app_or in Hc as [Hc | [<- | []]]; [now left | now right]. }
    destruct Hcases as [Hin | Hp]; [apply (Hall c Hin) | exact Hp].
  - unfold Chunker.create_chunks. rewrite Hne. intros [].
Qed.

(** X26. [extract_text_from_pdf] changes nothing and raises only when the
    file cannot be opened. Every chunk it returns comes from a page of
    the file that is not blank: it is one of the chunks of that page's
    text, and its page number is the position of the page counted from
    1. *)
Theorem extract_text_pages `{Env} (filename : string) (w : world) :
  (pdf_pages filename = None ->
   Ingestor.extract_text_from_pdf filename w = (inl ExtractionError, w))
  /\ (forall pages,
        pdf_pages filename = Some pages ->
        exists chunks,
          Ingestor.extract_text_from_pdf filename w = (inr chunks, w)
          /\ forall c, In c chunks ->
               exists (i : nat) (text : string),
                 pages !! i = Some text
                 /\ Py.nonempty (Py.strip text) = true
                 /\ Chunker.page c = Z.of_nat i + 1
                 /\ 1 <= Chunker.page c <= Z.of_nat (length pages)
                 /\ In c (Chunker.create_chunks CHUNK_SIZE CHUNK_OVERLAP
                            text (Z.of_nat i + 1))).
Proof.
  rewrite extract_text_eq. split.
  - intros ->. reflexivity.
  - intros pages ->. eexists. split; [reflexivity|].
    intros c Hc. unfold page_chunks in Hc.
    apply in_concat in Hc as (l & Hl & Hc).
    apply list_elem_of_In, elem_of_lookup_imap in Hl as (i & text & -> & Hi).
    destruct (Py.nonempty (Py.strip text)) eqn:Hne; [|destruct Hc].
    simpl in Hc. exists i, text.
    pose proof (create_chunks_pages _ _ _ _ _ Hc) as Hp.
    apply lookup_lt_Some in Hi as Hlt.
    repeat split; auto; lia.
Qed.

Lemma extract_text_pages_witness :
  exists chunks,
    @Ingestor.extract_text_from_pdf Demo.env "policy.pdf" Demo.empty_world
    = (inr chunks, Demo.empty_world)
    /\ Forall (fun c => Chunker.page c = 1) chunks.
Proof.
  destruct (proj2 (@extract_text_pages Demo.env "policy.pdf"
                     Demo.empty_world) [Demo.policy_text] eq_refl)
    as (chunks & Hrun & Hall).
  exists chunks. split; [exact Hrun|].
  apply List.Forall_forall. intros c Hc.
  destruct (Hall c Hc) as (i & text & _ & _ & _ & Hrange & _).
  simpl in Hrange. lia.
Defined.

Section ChunkIds.

Lemma has_char_app (c : ascii) (a b : string) :
  has_char c (a +:+ b) = has_char c a || has_char c b.
Proof.
  induction a as [|x a IH]; [reflexivity|].
  rewrite append_cons. simpl. now rewrite IH, orb_assoc.
Qed.

Lemma no_c_pretty_N_go (x : N) (s : string) :
  has_char "c" s = false -> has_char "c" (pretty_N_go x s) = false.
Proof.
  revert s. induction (N.lt_wf_0 x) as [x _ IH]; intros s Hs.
  assert (x = 0 \/ 0 < x)%N as [-> | Hpos] by lia.
  - now rewrite pretty_N_go_0.
  - rewrite pretty_N_go_step by exact Hpos. apply IH.
    + now apply N.div_lt.
    + simpl. rewrite Hs. unfold pretty_N_char.
      repeat case_match; reflexivity.
Qed.

Lemma no_c_pretty_N (x : N) : has_char "c" (pretty x) = false.
Proof.
  unfold pretty, pretty_N. case_decide; [reflexivity|].
  now apply no_c_pretty_N_go.
Qed.

Lemma no_c_pretty_nat (n : nat) : has_char "c" (pretty n) = false.
Proof. apply no_c_pretty_N. Qed.

Lemma no_c_pretty_Z (z : Z) : has_char "c" (pretty z) = false.
Proof.
  destruct z as [|p|p]; [reflexivity | apply no_c_pretty_N|].
  unfold pretty, pretty_Z. rewrite has_char_app. simpl.
  apply no_c_pretty_N.
Qed.

Lemma split_at_char (c : ascii) (a b x y : string) :
  has_char c a = false -> has_char c b = false ->
  a +:+ String c x = b +:+ String c y -> a = b /\ x = y.
Proof.
  revert b. induction a as [|u a IH]; intros b Ha Hb Heq.
  - destruct b as [|v b].
    + rewrite !append_nil_l in Heq. injection Heq as ->. auto.
    + rewrite append_nil_l, append_cons in Heq. injection Heq as <- _.
      simpl in Hb. rewrite Ascii.eqb_refl in Hb. discriminate.
  - destruct b as [|v b].
    + rewrite append_nil_l, append_cons in Heq. injection Heq as -> _.
      simpl in Ha. rewrite Ascii.eqb_refl in Ha. discriminate.
    + rewrite !append_cons in Heq. injection Heq as -> Heq.
      simpl in Ha, Hb.
      apply orb_false_iff in Ha as [_ Ha].
      apply orb_false_iff in Hb as [_ Hb].
      destruct (IH b Ha Hb Heq) as [-> ->]. auto.
Qed.

Lemma append_inv_tail (a b t : string) : a +:+ t = b +:+ t -> a = b.
Proof.
  revert b. induction a as [|u a IH]; intros b Heq.
  - destruct b as [|v b]; [reflexivity|].
    apply (f_equal String.length) in Heq.
    rewrite append_nil_l, append_cons in Heq. simpl in Heq.
    rewrite length_append in Heq. lia.
  - destruct b as [|v b].
    + apply (f_equal String.length) in Heq.
      rewrite append_nil_l, append_cons in Heq. simpl in Heq.
      rewrite length_append in Heq. lia.
    + rewrite !append_cons in Heq. injection Heq as -> Heq.
      now rewrite (IH b Heq).
Qed.

End ChunkIds.

(** X27. Within one file, [generate_chunk_id] tells chunks apart: two ids
    of the same file name are equal only for the same page and the same
    chunk index. *)
Theorem generate_chunk_id_injective (filename : string)
    (page1 page2 : Z) (index1 index2 : nat) :
  Ingestor.generate_chunk_id filename page1 index1
  = Ingestor.generate_chunk_id filename page2 index2 ->
  page1 = page2 /\ index1 = index2.
Proof.
  unfold Ingestor.generate_chunk_id. intros Heq.
  apply String.app_inj in Heq. apply (String.app_inj "-p") in Heq.
  change ("-c" +:+ pretty index1) with ("-" +:+ String "c" (pretty index1))
    in Heq.
  change ("-c" +:+ pretty index2) with ("-" +:+ String "c" (pretty index2))
    in Heq.
  rewrite <- !append_assoc in Heq.
  apply split_at_char in Heq as [Hp Hi].
  - apply append_inv_tail in Hp.
    split; [now apply (inj pretty) in Hp | now apply (inj pretty) in Hi].
  - rewrite has_char_app, no_c_pretty_Z. reflexivity.
  - rewrite has_char_app, no_c_pretty_Z. reflexivity.
Qed.

Lemma generate_chunk_id_injective_witness :
  (3 : Z) = 3 /\ 7%nat = 7%nat.
Proof.
  apply (generate_chunk_id_injective "policy.pdf" 3 3 7 7).
  reflexivity.
Defined.

(** ** Cleaning the model's answer *)

Section CleanResponse.

Lemma no_tick_head (c : ascii) (s : string) (pat : string) :
  Ascii.eqb c "`" = false ->
  String.prefix (String "`" pat) (String c s) = false.
Proof.
  intros Hc. cbn -[ascii_dec].
  destruct (ascii_dec "`" c) as [<- | _]; [discriminate | reflexivity].
Qed.

(** A text without backticks passes both fence removals unchanged. *)
Lemma sub_json_fence_plain (s : string) (ws : bool) :
  has_char "`" s = false ->
  solid (first_char s) = true \/ ws = false ->
  Re.sub_json_fence_go 0 ws s = s.
Proof.
  revert ws. induction s as [|c s IH]; intros ws Hs Hws; [reflexivity|].
  simpl in Hs. apply orb_false_iff in Hs as [Hc Hs].
  cbn [Re.sub_json_fence_go].
  assert (Hskip : ws && Py.isspace c = false).
  { destruct Hws as [Hsolid | ->]; [|reflexivity].
    simpl in Hsolid. apply negb_true_iff in Hsolid. rewrite Hsolid.
    apply andb_false_r. }
  rewrite Hskip, (no_tick_head c s _ Hc).
  rewrite IH; auto.
Qed.

Lemma sub_trailing_fence_plain (s : string) :
  has_char "`" s = false -> Re.sub_trailing_fence s = s.
Proof.
  induction s as [|c s IH]; intros Hs; [reflexivity|].
  simpl in Hs. apply orb_false_iff in Hs as [Hc Hs].
  cbn [Re.sub_trailing_fence].
  rewrite (no_tick_head c s _ Hc). cbn [andb]. now rewrite IH.
Qed.

(** A closing fence at the end of a text without backticks stays under
    the first removal and goes under the second. *)
Lemma sub_json_fence_closing (u : string) (ws : bool) :
  has_char "`" u = false ->
  solid (first_char u) = true \/ ws = false ->
  Re.sub_json_fence_go 0 ws (u +:+ "```") = u +:+ "```".
Proof.
  revert ws. induction u as [|c u IH]; intros ws Hu Hws.
  - destruct Hws as [Hsolid | ->]; [discriminate | reflexivity].
  - simpl in Hu. apply orb_false_iff in Hu as [Hc Hu].
    rewrite append_cons. cbn [Re.sub_json_fence_go].
    assert (Hskip : ws && Py.isspace c = false).
    { destruct Hws as [Hsolid | ->]; [|reflexivity].
      simpl in Hsolid. apply negb_true_iff in Hsolid. rewrite Hsolid.
      apply andb_false_r. }
    rewrite Hskip, (no_tick_head c _ _ Hc).
    rewrite IH; auto.
Qed.

Lemma sub_trailing_fence_closing (u : string) :
  has_char "`" u = false -> Re.sub_trailing_fence (u +:+ "```") = u.
Proof.
  induction u as [|c u IH]; intros Hu; [reflexivity|].
  simpl in Hu. apply orb_false_iff in Hu as [Hc Hu].
  rewrite append_cons. cbn [Re.sub_trailing_fence].
  rewrite (no_tick_head c _ _ Hc). cbn [andb]. now rewrite IH.
Qed.

(** White space after an opening fence is dropped. *)
Lemma sub_json_fence_space (sp x : string) :
  Re.all_space sp = true ->
  Re.sub_json_fence_go 0 true (sp +:+ x) = Re.sub_json_fence_go 0 true x.
Proof.
  induction sp as [|c sp IH]; intros Hsp; [reflexivity|].
  simpl in Hsp. apply andb_true_iff in Hsp as [Hc Hsp].
  rewrite append_cons. cbn [Re.sub_json_fence_go]. rewrite Hc. cbn [andb].
  now apply IH.
Qed.

Lemma from_first_app (c : ascii) (pre rest : string) :
  has_char c pre = false ->
  Re.from_first c (pre +:+ String c rest) = Some (String c rest).
Proof.
  induction pre as [|x pre IH]; intros Hpre.
  - rewrite append_nil_l. simpl. now rewrite Ascii.eqb_refl.
  - simpl in Hpre. apply orb_false_iff in Hpre as [Hx Hpre].
    rewrite append_cons. simpl. rewrite Hx. now apply IH.
Qed.

Lemma rfind_absent (c : ascii) (s : string) (i : Z) :
  has_char c s = false ->
  Py.rfind_from (String c EmptyString) i s = -1.
Proof.
  revert i. induction s as [|x s IH]; intros i Hs; [reflexivity|].
  simpl in Hs. apply orb_false_iff in Hs as [Hx Hs].
  cbn [Py.rfind_from]. rewrite (IH _ Hs). change (0 <=? -1) with false.
  cbv iota. simpl. destruct (ascii_dec c x) as [<- | _]; [|reflexivity].
  rewrite Ascii.eqb_refl in Hx. discriminate.
Qed.

Lemma rfind_last (c : ascii) (a post : string) (i : Z) :
  0 <= i -> has_char c post = false ->
  Py.rfind_from (String c EmptyString) i (a +:+ String c post)
  = i + Z.of_nat (String.length a).
Proof.
  intros Hi Hpost. revert i Hi. induction a as [|x a IH]; intros i Hi.
  - rewrite append_nil_l. cbn [Py.rfind_from].
    rewrite (rfind_absent c post _ Hpost). change (0 <=? -1) with false.
    cbv iota. simpl. destruct (ascii_dec c c); [|congruence].
    destruct post; simpl; lia.
  - rewrite append_cons. cbn [Py.rfind_from].
    rewrite (IH (i + 1)) by lia.
    replace (0 <=? i + 1 + Z.of_nat (String.length a)) with true
      by (symmetry; apply Z.leb_le; lia).
    simpl String.length. lia.
Qed.

Lemma take_app (a b : string) : Py.take (String.length a) (a +:+ b) = a.
Proof.
  induction a as [|x a IH]; [destruct b; reflexivity|].
  rewrite append_cons. simpl. now rewrite IH.
Qed.

(** The search finds the span from the first opening brace to the last
    closing brace. *)
Lemma search_object_span (pre inner post : string) :
  has_char "{" pre = false -> has_char "}" post = false ->
  Re.search_object (pre +:+ "{" +:+ inner +:+ "}" +:+ post)
  = Some ("{" +:+ inner +:+ "}").
Proof.
  intros Hpre Hpost. unfold Re.search_object.
  change ("{" +:+ inner +:+ "}" +:+ post)
    with (String "{" (inner +:+ String "}" post)).
  rewrite from_first_app by exact Hpre.
  change (String "{" (inner +:+ String "}" post))
    with (String "{" inner +:+ String "}" post).
  unfold Py.rfind. rewrite rfind_last by (lia || exact Hpost).
  replace (0 <=? 0 + Z.of_nat (String.length (String "{" inner))) with true
    by (symmetry; apply Z.leb_le; lia).
  unfold Py.slice_to, Py.slice_index.
  destruct (Z.ltb_spec (0 + Z.of_nat (String.length (String "{" inner)) + 1) 0);
    [lia|].
  rewrite length_append. cbn [String.length].
  replace (Z.to_nat _) with (String.length (String "{" inner +:+ "}"))
    by (rewrite length_append; cbn [String.length]; lia).
  change (String "{" inner +:+ String "}" post)
    with (String "{" inner +:+ ("}" +:+ post)).
  rewrite <- append_assoc, take_app. reflexivity.
Qed.

Lemma all_space_no_char (c : ascii) (sp : string) :
  Py.isspace c = false -> Re.all_space sp = true -> has_char c sp = false.
Proof.
  intros Hc. induction sp as [|x sp IH]; [reflexivity|].
  simpl. intros Hsp. apply andb_true_iff in Hsp as [Hx Hsp].
  rewrite (IH Hsp), orb_false_r.
  destruct (Ascii.eqb_spec x c) as [-> | _]; [congruence | reflexivity].
Qed.

End CleanResponse.

Section StripAround.

Lemma lstrip_app (pre x : string) :
  solid (first_char x) = true ->
  Py.lstrip (pre +:+ x) = Py.lstrip pre +:+ x.
Proof.
  intros Hx. induction pre as [|c pre IH].
  - rewrite !append_nil_l. now apply lstrip_id.
  - rewrite append_cons. cbn [Py.lstrip].
    destruct (Py.isspace c); [exact IH | now rewrite append_cons].
Qed.

Lemma rstrip_app (y post : string) :
  solid (last_char y) = true ->
  Py.rstrip (y +:+ post) = y +:+ Py.rstrip post.
Proof.
  induction y as [|c y IH]; [discriminate|].
  cbn [last_char]. destruct y as [|c' y'].
  - intros Hc. rewrite !append_cons, !append_nil_l. cbn [Py.rstrip].
    simpl in Hc. apply negb_true_iff in Hc. rewrite Hc.
    destruct (Py.rstrip post); reflexivity.
  - intros Hy. rewrite append_cons. cbn [Py.rstrip].
    rewrite (IH Hy), !append_cons. reflexivity.
Qed.

Lemma lstrip_no_char (c : ascii) (s : string) :
  has_char c s = false -> has_char c (Py.lstrip s) = false.
Proof.
  induction s as [|x s IH]; [auto|]. intros Hs. cbn [Py.lstrip].
  destruct (Py.isspace x); [|exact Hs].
  simpl in Hs. apply orb_false_iff in Hs as [_ Hs]. now apply IH.
Qed.

Lemma rstrip_no_char (c : ascii) (s : string) :
  has_char c s = false -> has_char c (Py.rstrip s) = false.
Proof.
  induction s as [|x s IH]; [auto|]. intros Hs.
  simpl in Hs. apply orb_false_iff in Hs as [Hx Hs].
  cbn [Py.rstrip]. specialize (IH Hs).
  destruct (Py.rstrip s) as [|y r].
  - destruct (Py.isspace x); [reflexivity|]. simpl. now rewrite Hx.
  - cbn [has_char] in *. now rewrite Hx, IH.
Qed.

End StripAround.

Lemma sub_json_fence_opening (rest : string) :
  Re.sub_json_fence ("```json" +:+ rest) = Re.sub_json_fence_go 0 true rest.
Proof. destruct rest; reflexivity. Qed.

(** X28. The clean-up recovers a JSON object from the two usual shapes of
    a model answer. For an object text without backticks: wrapped in a
    json code fence, with white space around it inside the fence, the
    result is the object text; and surrounded by text without backticks
    that has no opening brace before it and no closing brace after it,
    the result is the object text as well. *)
Theorem clean_response_recovers (inner : string) :
  has_char "`" inner = false ->
  (forall sp1 sp2,
     Re.all_space sp1 = true -> Re.all_space sp2 = true ->
     QueryHandler.clean_response
       ("```json" +:+ sp1 +:+ ("{" +:+ inner +:+ "}") +:+ sp2 +:+ "```")
     = "{" +:+ inner +:+ "}")
  /\ (forall pre post,
        has_char "`" pre = false -> has_char "{" pre = false ->
        has_char "`" post = false -> has_char "}" post = false ->
        QueryHandler.clean_response
          (pre +:+ ("{" +:+ inner +:+ "}") +:+ post)
        = "{" +:+ inner +:+ "}").
Proof.
  intros Hinner.
  assert (Hbody : has_char "`" ("{" +:+ inner +:+ "}") = false).
  { rewrite !has_char_app, Hinner. reflexivity. }
  split.
  - intros sp1 sp2 Hsp1 Hsp2. unfold QueryHandler.clean_response.
    set (body := "{" +:+ inner +:+ "}") in *.
    assert (Hu : has_char "`" (body +:+ sp2) = false).
    { rewrite has_char_app, Hbody.
      now rewrite (all_space_no_char "`" sp2 eq_refl Hsp2). }
    assert (Hshape : "```json" +:+ sp1 +:+ body +:+ sp2 +:+ "```"
                     = ("```json" +:+ sp1) +:+ (body +:+ sp2) +:+ "```").
    { now rewrite !append_assoc. }
    assert (Hstrip : Py.strip ("```json" +:+ sp1 +:+ body +:+ sp2 +:+ "```")
                     = "```json" +:+ sp1 +:+ body +:+ sp2 +:+ "```").
    { apply strip_trimmed. unfold trimmed. apply andb_true_iff. split.
      - reflexivity.
      - rewrite Hshape, !last_char_app by discriminate. reflexivity. }
    rewrite Hstrip.
    assert (H1 : Re.sub_json_fence
                   ("```json" +:+ sp1 +:+ body +:+ sp2 +:+ "```")
                 = (body +:+ sp2) +:+ "```").
    { rewrite sub_json_fence_opening.
      rewrite sub_json_fence_space by exact Hsp1.
      rewrite <- append_assoc.
      apply sub_json_fence_closing; [exact Hu | now left]. }
    rewrite H1, sub_trailing_fence_closing by exact Hu.
    unfold body.
    rewrite <- (append_nil_l ("{" +:+ inner +:+ "}")) at 1.
    rewrite !append_assoc.
    rewrite search_object_span;
      [reflexivity | reflexivity
      | now apply (all_space_no_char "}" sp2 eq_refl)].
  - intros pre post Hpre_tick Hpre Hpost_tick Hpost.
    unfold QueryHandler.clean_response.
    set (body := "{" +:+ inner +:+ "}") in *.
    assert (Hlast : solid (last_char (Py.lstrip pre +:+ body)) = true).
    { unfold body. rewrite <- !append_assoc.
      rewrite last_char_app by discriminate. reflexivity. }
    assert (Hstrip : Py.strip (pre +:+ body +:+ post)
                     = Py.lstrip pre +:+ body +:+ Py.rstrip post).
    { unfold Py.strip. rewrite lstrip_app by reflexivity.
      rewrite <- append_assoc, rstrip_app by exact Hlast.
      now rewrite append_assoc. }
    rewrite Hstrip.
    assert (Hplain : has_char "`"
                       (Py.lstrip pre +:+ body +:+ Py.rstrip post) = false).
    { rewrite !has_char_app, Hbody, (lstrip_no_char _ _ Hpre_tick),
        (rstrip_no_char _ _ Hpost_tick). reflexivity. }
    unfold Re.sub_json_fence.
    rewrite sub_json_fence_plain by (exact Hplain || now right).
    rewrite sub_trailing_fence_plain by exact Hplain.
    unfold body. rewrite !append_assoc.
    rewrite search_object_span;
      [reflexivity | now apply lstrip_no_char | now apply rstrip_no_char].
Qed.

Lemma clean_response_recovers_witness :
  QueryHandler.clean_response "```json
{a: 1}
```" = "{a: 1}"
  /\ QueryHandler.clean_response "Here you are: {a: 1}. Anything else?"
     = "{a: 1}".
Proof.
  destruct (clean_response_recovers "a: 1" eq_refl) as [Hfence Hbare].
  split.
  - apply (Hfence "
" "
"); reflexivity.
  - apply (Hbare "Here you are: " ". Anything else?"); reflexivity.
Defined.
